(** * Contiguous frame pool: a shallow embedding of MP2/cont_frame_pool.C
    and of its two clients, MP2/kernel.C and page_table.C

    The allocator keeps two bits of state per frame in a bitmap that lives in
    physical memory, hands out runs of frames first-fit, and releases a run
    from its first frame number alone by routing the number through a sorted,
    doubly linked list of all pools.  The paging bootstrapper takes two
    frames from the kernel pool and builds a page directory and a page table
    in them; the kernel constructs the kernel pool and runs four tests on
    it.

    Integers are modelled as [Z] with the wrap-around of the i386 target
    written out: [int], [unsigned int] and [unsigned long] are all 32 bits
    wide there.  Physical memory is one byte-addressed store shared by all
    pools and by the clients, so that two pools whose bitmaps sit in the
    same frame alias each other, and a client that writes into a frame
    writes over a bitmap stored there, exactly as on the machine.  A pointer
    made from an integer is that integer, and every address, 0 included,
    holds a byte that can be read and written.  Pool objects live in an
    object store of their own and are named by their index in it; the
    [prev]/[next] pointers of the registry are indices into that store.  Loops with a trip count known on entry are folds; the other
    loops and the recursive tests carry a budget, and the results below
    show that it is never exhausted in a well-formed registry.

    The file has three parts: the model, function by function; the
    vocabulary in which the properties are stated; and the properties, from
    single bitmap entries up to the registry, followed by those of the two
    clients. *)

From Stdlib Require Import ZArith Lia List Bool String Sorted.
From stdpp Require Import base list relations.
Import ListNotations.
Open Scope Z_scope.

(** ** Machine integers and memory *)

Definition wrap32 (z : Z) : Z := z mod 2 ^ 32.

(** Modelled from the spec: the constant [FRAME_SIZE] is declared in
    cont_frame_pool.H, which is not part of the sources; the spec fixes
    [frame_size = 4096]. *)
Definition FRAME_SIZE : Z := 4096.

Definition Mem : Type := Z -> Z.

(** A store to an [unsigned char] keeps the low eight bits. *)
Definition store (m : Mem) (a v : Z) : Mem :=
  fun a' => if a' =? a then Z.land v 255 else m a'.

Inductive FrameState : Type := Free | Used | HoS.

Definition FrameState_eqb (s t : FrameState) : bool :=
  match s, t with
  | Free, Free | Used, Used | HoS, HoS => true
  | _, _ => false
  end.

(** Pool objects are named by their index in the object store. *)
Abbreviation ptr := nat.

Record Pool : Type := mkPool {
  base_frame_no : Z;
  nframes : Z;
  info_frame_no : Z;
  bitmap : Z;
  prev : option ptr;
  next : option ptr
}.

(** ** The frame-state bitmap *)

Module Bitmap.

(** Address of [bitmap[_frame_no / 4]]. *)
Definition byte_addr (p : Pool) (frame_no : Z) : Z :=
  wrap32 (bitmap p + frame_no / 4).

Definition shift_of (frame_no : Z) : Z := 2 * (frame_no mod 4).

(** The raw two-bit field [(bitmap[bitmap_index] >> shift) & 0x3]. *)
Definition entry (m : Mem) (p : Pool) (frame_no : Z) : Z :=
  Z.land (Z.shiftr (m (byte_addr p frame_no)) (shift_of frame_no)) 3.

Definition decode (current_state : Z) : FrameState :=
  match current_state with
  | 0 => Free
  | 1 => Used
  | 2 => HoS
  | _ => Free
  end.

Definition get_state (m : Mem) (p : Pool) (frame_no : Z) : FrameState :=
  decode (entry m p frame_no).

(** [unsigned char reset_mask = ~(0x3 << shift)]. *)
Definition reset_mask (shift : Z) : Z :=
  Z.land (Z.lnot (Z.shiftl 3 shift)) 255.

Definition set_state (m : Mem) (p : Pool) (frame_no : Z) (s : FrameState) : Mem :=
  let a := byte_addr p frame_no in
  let shift := shift_of frame_no in
  let m1 := store m a (Z.land (m a) (reset_mask shift)) in
  match s with
  | Free => m1
  | Used => store m1 a (Z.lor (m1 a) (Z.shiftl 1 shift))
  | HoS => store m1 a (Z.lor (m1 a) (Z.shiftl 2 shift))
  end.

End Bitmap.
Export Bitmap.

Arguments wrap32 : simpl never.
Arguments get_state : simpl never.
Arguments set_state : simpl never.

(** ** Outcomes of operations with loops or assertions *)

Inductive outcome (A : Type) : Type :=
| Done (a : A)      (* the call returns *)
| Halted            (* an assertion failed: the kernel stops *)
| Stuck.            (* loop budget exhausted or a wild pool pointer *)
Arguments Done {A} a.
Arguments Halted {A}.
Arguments Stuck {A}.

Definition bind {A B : Type} (o : outcome A) (k : A -> outcome B) : outcome B :=
  match o with
  | Done a => k a
  | Halted => Halted
  | Stuck => Stuck
  end.

Notation "'do' x <- o ; k" := (bind o (fun x => k))
  (at level 10, x name, o at level 100, k at level 200).

Definition deref (ps : list Pool) (t : ptr) : outcome Pool :=
  match ps !! t with
  | Some p => Done p
  | None => Stuck
  end.

(** ** Operations of one pool *)

(** [mark_inaccessible]: head of sequence at the base, then [Used] for
    [i = 1 .. _n_frames - 1]. *)
Definition mark_inaccessible (m : Mem) (p : Pool) (_base_frame_no _n_frames : Z) : Mem :=
  fold_left
    (fun m' i => set_state m' p (wrap32 (_base_frame_no + Z.of_nat i)) Used)
    (seq 1 (Z.to_nat _n_frames - 1))
    (set_state m p _base_frame_no HoS).

(** The inner [for] loop of [get_frames]: the first [i], counting up from
    [i], at which frame [start_frame + i] is not free; [None] when the loop
    runs to [_n_frames] and [found] stays true.  [k] counts the iterations
    left. *)
Fixpoint first_busy (m : Mem) (p : Pool) (start_frame i : Z) (k : nat) : option Z :=
  match k with
  | O => None
  | S k' =>
      if FrameState_eqb (get_state m p (wrap32 (start_frame + i))) Free
      then first_busy m p start_frame (i + 1) k'
      else Some i
  end.

(** The outer [while] loop of [get_frames]. *)
Fixpoint get_frames_loop (fuel : nat) (m : Mem) (p : Pool) (_n_frames start_frame : Z)
  : outcome (Mem * Z) :=
  match fuel with
  | O => Stuck
  | S fuel' =>
      if wrap32 (start_frame + _n_frames - 1) <? nframes p then
        match first_busy m p start_frame 0 (Z.to_nat _n_frames) with
        | Some i => get_frames_loop fuel' m p _n_frames (wrap32 (start_frame + i + 1))
        | None =>
            Done (mark_inaccessible m p start_frame _n_frames,
                  wrap32 (start_frame + base_frame_no p))
        end
      else Done (m, 0)
  end.

(** [get_frames].  In a pool that passed the constructor's assertions every
    pass through the loop body moves [start_frame] up by at least one and
    keeps it at or below [nframes], so [nframes + 1] tests of the loop
    condition are enough ([get_frames_cases] below: the budget is never
    exhausted). *)
Definition get_frames (m : Mem) (p : Pool) (_n_frames : Z) : outcome (Mem * Z) :=
  get_frames_loop (S (Z.to_nat (nframes p))) m p _n_frames 0.

(** The [while] loop of [release_frames] that frees the [Used] tail. *)
Fixpoint release_tail (fuel : nat) (m : Mem) (p : Pool) (fno : Z) : outcome Mem :=
  match fuel with
  | O => Stuck
  | S fuel' =>
      if (fno <? nframes p) && FrameState_eqb (get_state m p fno) Used
      then release_tail fuel' (set_state m p fno Free) p (wrap32 (fno + 1))
      else Done m
  end.

(** [needed_info_frames]: both locals are [unsigned int]. *)
Definition needed_info_frames (_n_frames : Z) : Z :=
  let bits_required := wrap32 (_n_frames * 2) in
  let info_frames :=
    wrap32 (bits_required + FRAME_SIZE * 8 - 1) / (FRAME_SIZE * 8) in
  info_frames.

(** ** The registry and the static entry points *)

Record State : Type := mkState {
  head : option ptr;
  pools : list Pool;
  mem : Mem;
  console : list string
}.

Definition initial_state (m : Mem) : State := mkState None [] m [].

Definition with_prev (v : option ptr) (p : Pool) : Pool :=
  mkPool (base_frame_no p) (nframes p) (info_frame_no p) (bitmap p) v (next p).
Definition with_next (v : option ptr) (p : Pool) : Pool :=
  mkPool (base_frame_no p) (nframes p) (info_frame_no p) (bitmap p) (prev p) v.
Definition with_bitmap (v : Z) (p : Pool) : Pool :=
  mkPool (base_frame_no p) (nframes p) (info_frame_no p) v (prev p) (next p).

Definition with_mem (st : State) (m : Mem) : State :=
  mkState (head st) (pools st) m (console st).

(** Modelled from the spec: [Console::puts] is declared in console.H, which
    is not part of the sources; the spec has it emit a line to a
    character-output collaborator, kept here as the list of lines written
    so far. *)
Definition puts (st : State) (s : string) : State :=
  mkState (head st) (pools st) (mem st) (console st ++ [s]).

(** Modelled from the spec: the macro [assert] comes from assert.H, which is
    not part of the sources; the spec makes a failed assertion a fatal
    halt. *)
Definition assert {A : Type} (cond : bool) (k : outcome A) : outcome A :=
  if cond then k else Halted.

(** [while (tmp->base_frame_no < base_frame_no && tmp->next) tmp = tmp->next;] *)
Fixpoint find_slot (fuel : nat) (ps : list Pool) (_base_frame_no : Z) (tmp : ptr)
  : outcome ptr :=
  match fuel with
  | O => Stuck
  | S fuel' =>
      do t <- deref ps tmp;
      if base_frame_no t <? _base_frame_no then
        match next t with
        | Some nx => find_slot fuel' ps _base_frame_no nx
        | None => Done tmp
        end
      else Done tmp
  end.

(** The list surgery of the constructor, one heap update per assignment.
    [t] is the object [*tmp] as read after the search; no assignment below
    writes a field of [*tmp] before the statement that reads it. *)
Definition link (hd : option ptr) (ps : list Pool) (this : ptr) (_base_frame_no : Z)
  : outcome (option ptr * list Pool) :=
  match hd with
  | None => Done (Some this, ps)
  | Some h =>
      do tmp <- find_slot (length ps) ps _base_frame_no h;
      do t <- deref ps tmp;
      if base_frame_no t <? _base_frame_no then
        (* insert after *)
        let ps1 := alter (with_prev (Some tmp)) this ps in
        let ps2 := alter (with_next (next t)) this ps1 in
        let ps3 := match next t with
                   | Some nx => alter (with_prev (Some this)) nx ps2
                   | None => ps2
                   end in
        Done (Some h, alter (with_next (Some this)) tmp ps3)
      else
        (* insert before *)
        let ps1 := alter (with_next (Some tmp)) this ps in
        match prev t with
        | Some pv =>
            let ps2 := alter (with_prev (Some pv)) this ps1 in
            let ps3 := alter (with_next (Some this)) pv ps2 in
            Done (Some h, alter (with_prev (Some this)) tmp ps3)
        | None =>
            (* inserting before head *)
            Done (Some this, alter (with_prev (Some this)) tmp ps1)
        end
  end.

Definition init_free (m : Mem) (p : Pool) (_n_frames : Z) : Mem :=
  fold_left (fun m' fno => set_state m' p (Z.of_nat fno) Free)
            (seq 0 (Z.to_nat _n_frames)) m.

Definition newline : string := String (Ascii.ascii_of_nat 10) EmptyString.
Definition msg_initialized : string :=
  String.append "Frame Pool initialized" newline.
Definition msg_not_head : string :=
  String.append "First Frame requested to release is not a Head of Sequence"
                newline.

(** The constructor.  The new object is allocated at the next free index of
    the object store; its [bitmap] field is assigned before its first use. *)
Definition ContFramePool (st : State) (_base_frame_no _n_frames _info_frame_no : Z)
  : outcome State :=
  assert (_n_frames <=? wrap32 (FRAME_SIZE * 8) / 2) (
  assert (needed_info_frames _n_frames =? 1) (
  let this := length (pools st) in
  let ps0 := pools st ++ [mkPool _base_frame_no _n_frames _info_frame_no 0 None None] in
  do lk <- link (head st) ps0 this _base_frame_no;
  let bm := if _info_frame_no =? 0
            then wrap32 (_base_frame_no * FRAME_SIZE)
            else wrap32 (_info_frame_no * FRAME_SIZE) in
  let ps1 := alter (with_bitmap bm) this (snd lk) in
  do self <- deref ps1 this;
  let m1 := init_free (mem st) self _n_frames in
  let m2 := if _info_frame_no =? 0 then set_state m1 self 0 HoS else m1 in
  Done (puts (mkState (fst lk) ps1 m2 (console st)) msg_initialized))).

(** The body of the loop of [release_frames] once the owning pool [*tmp] is
    found: the [if]/[else] on the state of [rel_frame_no], up to [break].
    The freeing loop runs at most [nframes] times. *)
Definition release_run (st : State) (p : Pool) (rel_frame_no : Z) : outcome State :=
  if FrameState_eqb (get_state (mem st) p rel_frame_no) HoS then
    do m' <- release_tail (S (Z.to_nat (nframes p)))
                          (set_state (mem st) p rel_frame_no Free) p
                          (wrap32 (rel_frame_no + 1));
    Done (with_mem st m')
  else Done (puts st msg_not_head).

(** [while (tmp && tmp->base_frame_no <= _first_frame_no)]. *)
Fixpoint release_walk (fuel : nat) (st : State) (_first_frame_no : Z) (tmp : option ptr)
  : outcome State :=
  match fuel with
  | O => Stuck
  | S fuel' =>
      match tmp with
      | None => Done st
      | Some t =>
          do p <- deref (pools st) t;
          if base_frame_no p <=? _first_frame_no then
            if _first_frame_no <=? wrap32 (base_frame_no p + nframes p - 1) then
              release_run st p (wrap32 (_first_frame_no - base_frame_no p))
            else release_walk fuel' st _first_frame_no (next p)
          else Done st
      end
  end.

(** [release_frames].  A walk that visits more objects than the store holds
    has entered a cycle and never ends. *)
Definition release_frames (st : State) (_first_frame_no : Z) : outcome State :=
  release_walk (S (length (pools st))) st _first_frame_no (head st).

(** The pools in registry order: follow [next] from [head] until null. *)
Fixpoint chain (fuel : nat) (ps : list Pool) (tmp : option ptr) : list ptr :=
  match fuel, tmp with
  | S fuel', Some t =>
      t :: match ps !! t with
           | Some p => chain fuel' ps (next p)
           | None => []
           end
  | _, _ => []
  end.

Definition registry (st : State) : list ptr :=
  chain (length (pools st)) (pools st) (head st).

(** ** Words in memory *)

(** A store of a 32-bit word ([int], [unsigned int], [unsigned long]): four
    bytes, least significant first as on the i386.  Word addresses in this
    program are multiples of four, so the four bytes never run past the end
    of the address space. *)
Definition store32 (m : Mem) (a v : Z) : Mem :=
  store (store (store (store m a v)
                      (a + 1) (Z.shiftr v 8))
               (a + 2) (Z.shiftr v 16))
        (a + 3) (Z.shiftr v 24).

Definition load32 (m : Mem) (a : Z) : Z :=
  Z.land (m a) 255
  + Z.shiftl (Z.land (m (a + 1)) 255) 8
  + Z.shiftl (Z.land (m (a + 2)) 255) 16
  + Z.shiftl (Z.land (m (a + 3)) 255) 24.

(** A counted loop [for (i = i0; i < i0 + cnt; i++) array[i] = f (i);] over
    an array of words at [base]. *)
Definition write_words (m : Mem) (base : Z) (f : nat -> Z) (i0 cnt : nat) : Mem :=
  fold_left (fun m' i => store32 m' (wrap32 (base + 4 * Z.of_nat i)) (f i))
            (seq i0 cnt) m.

(** ** The paging bootstrapper (page_table.C) *)

(** The macros [MB] and [KB] are postfix factors: [4 KB] is [4 * KB]. *)
Definition MB : Z := Z.shiftl 1 20.
Definition KB : Z := Z.shiftl 1 10.

(** The static members of [PageTable]. *)
Record PageTableStatics : Type := mkPageTableStatics {
  current_page_table : option Z;
  paging_enabled : Z;
  kernel_mem_pool : option ptr;
  process_mem_pool : option ptr;
  shared_size : Z
}.

(** The initial values of the static members. *)
Definition no_paging : PageTableStatics :=
  mkPageTableStatics None 0 None None 0.

Definition msg_paging_initialized : string :=
  String.append "Initialized Paging System" newline.
Definition msg_page_table_constructed : string :=
  String.append "Constructed Page Table object" newline.

(** [PageTable::init_paging]. *)
Definition init_paging (pg : PageTableStatics) (st : State)
           (_kernel_mem_pool _process_mem_pool : option ptr) (_shared_size : Z)
  : outcome (PageTableStatics * State) :=
  let pg' := mkPageTableStatics (current_page_table pg) (paging_enabled pg)
                                _kernel_mem_pool _process_mem_pool _shared_size in
  assert (shared_size pg' =? 4 * MB)
         (Done (pg', puts st msg_paging_initialized)).

(** The first loop of the constructor: entry [i] of the page table gets
    [address | 3], and [address] moves up by one page. *)
Definition map_shared (m : Mem) (page_table : Z) (count : nat) : Mem * Z :=
  fold_left
    (fun (s : Mem * Z) i =>
       (store32 (fst s) (wrap32 (page_table + 4 * Z.of_nat i)) (Z.lor (snd s) 3),
        wrap32 (snd s + 4 * KB)))
    (seq 0 count) (m, 0).

(** The second loop: entries 1 to 1023 of the page directory get [0 | 2]. *)
Definition clear_directory (m : Mem) (page_directory : Z) : Mem :=
  fold_left
    (fun m' i => store32 m' (wrap32 (page_directory + 4 * Z.of_nat i)) (Z.lor 0 2))
    (seq 1 1023) m.

(** [PageTable::PageTable].  The result is the state left behind and the
    [page_directory] member of the new object.  A null [kernel_mem_pool]
    is a wild pointer. *)
Definition PageTable (pg : PageTableStatics) (st : State) : outcome (State * Z) :=
  do pool <- match kernel_mem_pool pg with
             | Some t => deref (pools st) t
             | None => Stuck
             end;
  do got1 <- get_frames (mem st) pool 1;
  let page_directory := wrap32 (snd got1 * 4 * KB) in
  do got2 <- get_frames (fst got1) pool 1;
  let page_table := wrap32 (snd got2 * 4 * KB) in
  let m3 := fst (map_shared (fst got2) page_table
                            (Z.to_nat (shared_size pg / wrap32 (4 * KB)))) in
  let m4 := store32 m3 page_directory (Z.lor page_table 3) in
  let m5 := clear_directory m4 page_directory in
  Done (puts (with_mem st m5) msg_page_table_constructed, page_directory).

(** ** The kernel's self test (kernel.C) *)

(** The value of an [int] whose bits are those of the 32-bit word [w]. *)
Definition signed32 (w : Z) : Z := if w <? 2 ^ 31 then w else w - 2 ^ 32.

Definition KERNEL_POOL_START_FRAME : Z := (2 * MB) / (4 * KB).
Definition KERNEL_POOL_SIZE : Z := (2 * MB) / (4 * KB).
Definition N_TEST_ALLOCATIONS : Z := 32.

Definition msg_alloc_to_go : string := "alloc_to_go = ".
Definition msg_test_failed : string :=
  String.append "MEMORY TEST FAILED. ERROR IN FRAME POOL" newline.
Definition msg_all_allocated : string :=
  String.append "All frames allocated." newline.
Definition msg_all_freed : string := String.append "All frames freed." newline.
Definition msg_info_frames : string :=
  String.append "Info frames needed is 1" newline.
Definition msg_hello : string := String.append "Hello World!" newline.
Definition msg_testing_done : string :=
  String.append "Testing is DONE. We will do nothing forever" newline.
Definition msg_turn_off : string :=
  String.append "Feel free to turn off the machine now." newline.

(** How a test ends when it ends at all: it returns, or it prints its
    diagnosis and spins in [for (;;)], in the given state. *)
Inductive verdict (A : Type) : Type :=
| Passed (a : A)
| Failed (st : State).
Arguments Passed {A} a.
Arguments Failed {A} st.

Definition and_then {A B : Type} (o : outcome (verdict A))
           (k : A -> outcome (verdict B)) : outcome (verdict B) :=
  do v <- o;
  match v with
  | Passed a => k a
  | Failed st => Done (Failed st)
  end.

(** The checking loops: the first index, counting up from [i], at which the
    word read back from [value_array] fails the comparison. *)
Fixpoint first_mismatch (m : Mem) (value_array : Z) (same : nat -> Z -> bool)
         (i cnt : nat) : option nat :=
  match cnt with
  | O => None
  | S cnt' =>
      if same i (load32 m (wrap32 (value_array + 4 * Z.of_nat i)))
      then first_mismatch m value_array same (S i) cnt'
      else Some i
  end.

(** [test_needed_info_frames]: the call goes to a static member, so
    [_pool] is not dereferenced. *)
Definition test_needed_info_frames (st : State) (_pool : ptr) : outcome State :=
  assert (needed_info_frames 512 =? 1) (Done (puts st msg_info_frames)).

Section Kernel.

(** Modelled from the spec: [Console::init], [Console::redirect_output]
    and [Console::puti] are declared in console.H, which is not part of the
    sources; the spec treats the console as an external collaborator, so
    the kernel is modelled for any implementation of the three. *)
Variable Console_init : State -> State.
Variable Console_redirect_output : State -> bool -> State.
Variable Console_puti : State -> Z -> State.

(** The lines printed when a check fails. *)
Definition report (st : State) (i v n : Z) : State :=
  let st := puts st msg_test_failed in
  let st := Console_puti (puts st "i =") i in
  let st := Console_puti (puts st "   v = ") v in
  let st := Console_puti (puts st "   n =") n in
  puts st newline.

(** [test_memory]; the recursion is as deep as [_allocs_to_go + 1]. *)
Fixpoint test_memory_rec (fuel : nat) (st : State) (_pool : ptr) (_allocs_to_go : Z)
  : outcome (verdict State) :=
  match fuel with
  | O => Stuck
  | S fuel' =>
      let st1 := puts (Console_puti (puts st msg_alloc_to_go) _allocs_to_go)
                      newline in
      if 0 <? _allocs_to_go then
        let n_frames := _allocs_to_go mod 4 + 1 in
        do pool <- deref (pools st1) _pool;
        do got <- get_frames (mem st1) pool n_frames;
        let frame := snd got in
        let value_array := wrap32 (frame * (4 * KB)) in
        let count := Z.to_nat (KB * n_frames) in
        let m2 := write_words (fst got) value_array (fun _ => _allocs_to_go)
                              0 count in
        do v <- test_memory_rec fuel' (with_mem st1 m2) _pool
                                (wrap32 (_allocs_to_go - 1));
        match v with
        | Failed st' => Done (Failed st')
        | Passed st2 =>
            match first_mismatch (mem st2) value_array
                    (fun _ w => wrap32 (signed32 w) =? _allocs_to_go) 0 count with
            | Some i =>
                Done (Failed
                  (report st2 (Z.of_nat i)
                     (signed32 (load32 (mem st2)
                                       (wrap32 (value_array + 4 * Z.of_nat i))))
                     _allocs_to_go))
            | None =>
                do st3 <- release_frames st2 frame;
                Done (Passed st3)
            end
        end
      else Done (Passed st1)
  end.

Definition test_memory (st : State) (_pool : ptr) (_allocs_to_go : Z)
  : outcome (verdict State) :=
  test_memory_rec (S (Z.to_nat _allocs_to_go)) st _pool _allocs_to_go.

(** [test_max_space].  The loop counter is an [int]: a bound of 2^31 or
    more makes it overflow, which has no defined behaviour. *)
Definition test_max_space (st : State) (_pool : ptr) (max_frames : Z)
  : outcome (verdict State) :=
  let n_frames := wrap32 (max_frames - 1) in
  do pool <- deref (pools st) _pool;
  do got <- get_frames (mem st) pool n_frames;
  let frame := snd got in
  let st1 := puts (with_mem st (fst got)) msg_all_allocated in
  let value_array := wrap32 (frame * (4 * KB)) in
  let bound := wrap32 (KB * n_frames) in
  if 2 ^ 31 <=? bound then Stuck
  else
    let count := Z.to_nat bound in
    let st2 := with_mem st1 (write_words (mem st1) value_array
                                         (fun i => Z.of_nat i) 0 count) in
    match first_mismatch (mem st2) value_array
            (fun i w => signed32 w =? Z.of_nat i) 0 count with
    | Some i =>
        Done (Failed
          (report st2 (Z.of_nat i)
             (signed32 (load32 (mem st2) (wrap32 (value_array + 4 * Z.of_nat i))))
             (Z.of_nat i)))
    | None =>
        do st3 <- release_frames st2 frame;
        Done (Passed (puts st3 msg_all_freed))
    end.

(** [test_multiple_allocations_and_contiguous_mem]; [start] is passed by
    reference, so its final value is part of the result. *)
Fixpoint test_multiple_rec (fuel : nat) (st : State) (_pool : ptr)
         (rem_frames start : Z) : outcome (verdict (State * Z)) :=
  match fuel with
  | O => Stuck
  | S fuel' =>
      let st1 := puts (Console_puti (puts st msg_alloc_to_go) rem_frames)
                      newline in
      if rem_frames =? 0 then Done (Passed (st1, start))
      else
        let cur_start := start in
        let n_frames := if rem_frames <? 10 then rem_frames else 10 in
        do pool <- deref (pools st1) _pool;
        do got <- get_frames (mem st1) pool n_frames;
        let frame := snd got in
        let value_array := wrap32 (frame * (4 * KB)) in
        let count := Z.to_nat (wrap32 (KB * n_frames)) in
        let m2 := write_words (fst got) value_array
                              (fun j => wrap32 (start + Z.of_nat j)) 0 count in
        let start1 := wrap32 (start + Z.of_nat count) in
        do v <- test_multiple_rec fuel' (with_mem st1 m2) _pool
                                  (wrap32 (rem_frames - n_frames)) start1;
        match v with
        | Failed st' => Done (Failed st')
        | Passed (st2, start2) =>
            match first_mismatch (mem st2) value_array
                    (fun i w => w =? wrap32 (cur_start + Z.of_nat i)) 0 count with
            | Some i =>
                Done (Failed
                  (report st2 (Z.of_nat i)
                     (load32 (mem st2) (wrap32 (value_array + 4 * Z.of_nat i)))
                     (wrap32 (cur_start + Z.of_nat i))))
            | None => Done (Passed (st2, start2))
            end
        end
  end.

Definition test_multiple_allocations_and_contiguous_mem
           (st : State) (_pool : ptr) (rem_frames start : Z)
  : outcome (verdict (State * Z)) :=
  test_multiple_rec (S (Z.to_nat rem_frames)) st _pool rem_frames start.

(** [main], up to its final [for (;;)]: [Passed st] says that the idle
    loop is entered in state [st].  The kernel pool is the object that the
    constructor call allocates. *)
Definition main (st : State) : outcome (verdict State) :=
  let st := Console_redirect_output (Console_init st) true in
  let kernel_pool := length (pools st) in
  do st <- ContFramePool st KERNEL_POOL_START_FRAME KERNEL_POOL_SIZE 0;
  let st := puts st msg_hello in
  and_then (test_memory st kernel_pool N_TEST_ALLOCATIONS) (fun st =>
  and_then (test_max_space st kernel_pool KERNEL_POOL_SIZE) (fun st =>
  and_then (test_multiple_allocations_and_contiguous_mem st kernel_pool 511 0)
           (fun r =>
  do st <- test_needed_info_frames (fst r) kernel_pool;
  Done (Passed (puts (puts st msg_testing_done) msg_turn_off))))).

End Kernel.

(** * Specification vocabulary *)

(** ** Entries, bytes and machine integers *)

(** The numeric values of the [FrameState] enumerators. *)
Definition encode (s : FrameState) : Z :=
  match s with Free => 0 | Used => 1 | HoS => 2 end.

(** The byte that [set_state] leaves behind, as a function of the old byte. *)
Definition new_byte (x shift : Z) (s : FrameState) : Z :=
  let cleared := Z.land (Z.land x (reset_mask shift)) 255 in
  match s with
  | Free => cleared
  | Used => Z.land (Z.lor cleared (Z.shiftl 1 shift)) 255
  | HoS => Z.land (Z.lor cleared (Z.shiftl 2 shift)) 255
  end.

(** The shifts that [2 * (_frame_no % 4)] can take. *)
Definition is_shift (shift : Z) : Prop :=
  shift = 0 \/ shift = 2 \/ shift = 4 \/ shift = 6.

(** The values of [unsigned int] and [unsigned long]. *)
Definition u32 (z : Z) : Prop := 0 <= z < 2 ^ 32.

(** ** Well-formed pools and their bitmaps *)

(** The two assertions of the constructor bound [nframes]; the bitmap
    pointer is a frame number times [FRAME_SIZE], cut to 32 bits. *)
Definition pool_ok (p : Pool) : Prop :=
  u32 (base_frame_no p) /\
  1 <= nframes p <= 16384 /\
  u32 (bitmap p) /\
  bitmap p mod FRAME_SIZE = 0.

(** The frame that holds the bitmap of [p]. *)
Definition in_info_frame (p : Pool) (a : Z) : Prop :=
  bitmap p <= a < bitmap p + FRAME_SIZE.

(** A memory change confined to the info frame of [p]. *)
Definition within (p : Pool) (m m' : Mem) : Prop :=
  forall a, ~ in_info_frame p a -> m' a = m a.

(** Where the constructor puts the bitmap. *)
Definition bitmap_addr (base info : Z) : Z :=
  if info =? 0 then wrap32 (base * FRAME_SIZE) else wrap32 (info * FRAME_SIZE).

(** The [for] loop of [mark_inaccessible], from any starting index. *)
Definition mark_tail (m : Mem) (p : Pool) (b : Z) (i0 cnt : nat) : Mem :=
  fold_left (fun m' i => set_state m' p (wrap32 (b + Z.of_nat i)) Used)
            (seq i0 cnt) m.

(** [n] consecutive free frames starting at relative index [s], all inside
    the pool. *)
Definition free_window (m : Mem) (p : Pool) (n s : Z) : Prop :=
  0 <= s /\ s + n <= nframes p /\
  forall i, 0 <= i < n -> get_state m p (s + i) = Free.

(** The absolute frame number [f] belongs to pool [p]. *)
Definition in_range (p : Pool) (f : Z) : Prop :=
  base_frame_no p <= f < base_frame_no p + nframes p.

(** ** The registry as a list *)

(** The element in front of position [i], if any. *)
Definition before (l : list ptr) (i : nat) : option ptr :=
  match i with
  | O => None
  | S i' => l !! i'
  end.

(** [l] lists the pools in registry order: [hd] is its first element and
    the [prev]/[next] fields of the element at position [i] name the
    elements at positions [i - 1] and [i + 1]; the list ends where [next]
    is null. *)
Definition linked (hd : option ptr) (ps : list Pool) (l : list ptr) : Prop :=
  NoDup l /\
  hd = l !! 0%nat /\
  forall (i : nat) (x : ptr), l !! i = Some x ->
    exists p, ps !! x = Some p /\ next p = l !! S i /\ prev p = before l i.

(** Bases never decrease along [l]. *)
Definition sorted_by_base (ps : list Pool) (l : list ptr) : Prop :=
  forall (i j : nat) (x y : ptr) (p q : Pool),
    (i <= j)%nat -> l !! i = Some x -> l !! j = Some y ->
    ps !! x = Some p -> ps !! y = Some q ->
    base_frame_no p <= base_frame_no q.

(** The invariant of the object store: the registry is a well-linked,
    sorted list of all pools, and every pool is as the constructor leaves
    it. *)
Definition registry_ok (st : State) : Prop :=
  exists l,
    linked (head st) (pools st) l /\
    length l = length (pools st) /\
    sorted_by_base (pools st) l /\
    forall (t : ptr) (p : Pool), pools st !! t = Some p -> pool_ok p.

(** [x] put in front of position [k] of [l]. *)
Definition splice (k : nat) (x : ptr) (l : list ptr) : list ptr :=
  take k l ++ x :: drop k l.

(** Two versions of a pool object that differ in their links only. *)
Definition same_frames (p p' : Pool) : Prop :=
  base_frame_no p' = base_frame_no p /\ nframes p' = nframes p /\
  info_frame_no p' = info_frame_no p /\ bitmap p' = bitmap p.

(** The effect of the constructor's pointer assignments on the object
    store: [this] is hooked between [pv] and [nx]. *)
Definition relinked (ps0 ps1 : list Pool) (this : ptr) (pv nx : option ptr) : Prop :=
  length ps1 = length ps0 /\
  forall (x : ptr) (p : Pool), ps0 !! x = Some p ->
    exists p', ps1 !! x = Some p' /\ same_frames p p' /\
      prev p' = (if decide (x = this) then pv
                 else if decide (nx = Some x) then Some this else prev p) /\
      next p' = (if decide (x = this) then nx
                 else if decide (pv = Some x) then Some this else next p).

(** The pool that [release_frames] runs on: the first one in registry
    order, among those with [base_frame_no <= f], that passes the upper
    test of the loop. *)
Fixpoint route (ps : list Pool) (f : Z) (l : list ptr) : option Pool :=
  match l with
  | [] => None
  | t :: l' =>
      match ps !! t with
      | None => None
      | Some p =>
          if base_frame_no p <=? f then
            if f <=? wrap32 (base_frame_no p + nframes p - 1) then Some p
            else route ps f l'
          else None
      end
  end.

(** The pool objects in registry order. *)
Definition registry_pools (st : State) : list Pool :=
  omap (fun t => pools st !! t) (registry st).

Definition registry_sorted (st : State) : Prop :=
  StronglySorted Z.le (base_frame_no <$> registry_pools st).

(** The ranges [[base_frame_no, base_frame_no + nframes)] of distinct pools
    do not meet. *)
Definition disjoint_ranges (ps : list Pool) : Prop :=
  forall (t t' : ptr) (p q : Pool),
    t <> t' -> ps !! t = Some p -> ps !! t' = Some q ->
    base_frame_no p + nframes p <= base_frame_no q \/
    base_frame_no q + nframes q <= base_frame_no p.

(** Distinct pools keep their bitmaps in distinct frames. *)
Definition separate_bitmaps (ps : list Pool) : Prop :=
  forall (t t' : ptr) (p q : Pool),
    t <> t' -> ps !! t = Some p -> ps !! t' = Some q -> bitmap p <> bitmap q.

(** No other pool keeps its bitmap in the frame where pool [t0] keeps its
    own. *)
Definition bitmap_unshared (ps : list Pool) (t0 : ptr) : Prop :=
  forall (t : ptr) (p p0 : Pool),
    t <> t0 -> ps !! t = Some p -> ps !! t0 = Some p0 -> bitmap p <> bitmap p0.

(** ** Sequences of calls *)

(** States the allocator can be in: any memory at boot, then constructor
    calls and calls of the three operations, with arguments of the C
    parameter types. *)
Inductive reachable : State -> Prop :=
| reach_boot (m : Mem) : reachable (initial_state m)
| reach_ctor (st st' : State) (base n info : Z) :
    reachable st -> u32 base -> u32 n -> u32 info ->
    ContFramePool st base n info = Done st' -> reachable st'
| reach_get_frames (st : State) (t : ptr) (p : Pool) (n : Z) (m' : Mem) (r : Z) :
    reachable st -> pools st !! t = Some p -> u32 n ->
    get_frames (mem st) p n = Done (m', r) -> reachable (with_mem st m')
| reach_mark_inaccessible (st : State) (t : ptr) (p : Pool) (b n : Z) :
    reachable st -> pools st !! t = Some p -> u32 b -> u32 n ->
    reachable (with_mem st (mark_inaccessible (mem st) p b n))
| reach_release_frames (st st' : State) (f : Z) :
    reachable st -> u32 f -> release_frames st f = Done st' -> reachable st'.

(** A sequence of constructor calls, each given as
    [(base_frame_no, n_frames, info_frame_no)]. *)
Fixpoint construct_all (st : State) (args : list (Z * Z * Z)) : outcome State :=
  match args with
  | [] => Done st
  | (base, n, info) :: rest =>
      do st' <- ContFramePool st base n info;
      construct_all st' rest
  end.

Definition args_ok (a : Z * Z * Z) : Prop :=
  u32 a.1.1 /\ u32 a.1.2 /\ u32 a.2.

Definition args_disjoint (args : list (Z * Z * Z)) : Prop :=
  forall (i j : nat) (a b : Z * Z * Z),
    i <> j -> args !! i = Some a -> args !! j = Some b ->
    a.1.1 + a.1.2 <= b.1.1 \/ b.1.1 + b.1.2 <= a.1.1.

(** The calls under which the reservation of frame 0 of pool [t0] is kept:
    any [get_frames], [mark_inaccessible] on a run that lies inside its
    pool, and [release_frames] of any frame but the first of pool [t0]. *)
Inductive guarded_step (t0 : ptr) (st : State) : State -> Prop :=
| guarded_get_frames (t : ptr) (p : Pool) (n : Z) (m' : Mem) (r : Z) :
    pools st !! t = Some p -> u32 n ->
    get_frames (mem st) p n = Done (m', r) ->
    guarded_step t0 st (with_mem st m')
| guarded_mark_inaccessible (t : ptr) (p : Pool) (b n : Z) :
    pools st !! t = Some p -> 0 <= b < nframes p -> b + n <= nframes p ->
    guarded_step t0 st (with_mem st (mark_inaccessible (mem st) p b n))
| guarded_release_frames (f : Z) (st' : State) :
    u32 f ->
    (forall p0, pools st !! t0 = Some p0 -> f <> base_frame_no p0) ->
    release_frames st f = Done st' ->
    guarded_step t0 st st'.

(** ** Shapes of a bitmap *)

(** Every [Used] frame continues a run: it is not the first frame of the
    pool and the frame in front of it is allocated. *)
Definition tidy (m : Mem) (p : Pool) : Prop :=
  forall j, 0 <= j < nframes p -> get_state m p j = Used ->
    1 <= j /\ get_state m p (j - 1) <> Free.

(** The allocated frames of the pool are exactly its first [top] frames. *)
Definition packed (m : Mem) (p : Pool) (top : Z) : Prop :=
  0 <= top <= nframes p /\
  (forall j, 0 <= j < top -> get_state m p j <> Free) /\
  (forall j, top <= j < nframes p -> get_state m p j = Free).

(** No entry of the pool holds the bit pattern [0b11], which is the value
    of no enumerator. *)
Definition clean (m : Mem) (p : Pool) : Prop :=
  forall j, 0 <= j < nframes p -> entry m p j <> 3.

(** The number of free frames among the first [k] frames of the pool, and
    in the whole pool. *)
Fixpoint free_below (m : Mem) (p : Pool) (k : nat) : Z :=
  match k with
  | O => 0
  | S k' =>
      free_below m p k'
      + (if FrameState_eqb (get_state m p (Z.of_nat k')) Free then 1 else 0)
  end.

Definition free_frames (m : Mem) (p : Pool) : Z :=
  free_below m p (Z.to_nat (nframes p)).

(** Two memories in which every frame of the pool has the same state. *)
Definition same_states (p : Pool) (m m' : Mem) : Prop :=
  forall j, 0 <= j < nframes p -> get_state m' p j = get_state m p j.

(** ** Frames and words *)

(** The byte address [a] lies in physical frame [f]. *)
Definition in_frame (f a : Z) : Prop :=
  f * FRAME_SIZE <= a < (f + 1) * FRAME_SIZE.

(** If the bitmap of the pool lies in one of the pool's own frames, that
    frame is not free. *)
Definition info_frame_kept (m : Mem) (p : Pool) : Prop :=
  forall j, 0 <= j < nframes p ->
    bitmap p = (base_frame_no p + j) * FRAME_SIZE -> get_state m p j <> Free.

(** ** Calls that respect the bitmaps *)

(** The calls a well-behaved client makes: a constructor call whose bitmap
    frame is the bitmap frame of no existing pool, [get_frames] with any
    request, [mark_inaccessible] on a run that lies inside its pool, and
    [release_frames] of any frame number. *)
Inductive sound_step (st : State) : State -> Prop :=
| sound_ctor (base n info : Z) (st' : State) :
    u32 base -> u32 n -> u32 info ->
    (forall t q, pools st !! t = Some q -> bitmap q <> bitmap_addr base info) ->
    ContFramePool st base n info = Done st' ->
    sound_step st st'
| sound_get_frames (t : ptr) (p : Pool) (n : Z) (m' : Mem) (r : Z) :
    pools st !! t = Some p -> u32 n ->
    get_frames (mem st) p n = Done (m', r) ->
    sound_step st (with_mem st m')
| sound_mark_inaccessible (t : ptr) (p : Pool) (b n : Z) :
    pools st !! t = Some p -> 0 <= b < nframes p -> b + n <= nframes p ->
    sound_step st (with_mem st (mark_inaccessible (mem st) p b n))
| sound_release_frames (f : Z) (st' : State) :
    u32 f -> release_frames st f = Done st' ->
    sound_step st st'.

(** Every pool of the state has a bitmap without stray [Used] entries and
    without the pattern [0b11]. *)
Definition healthy (st : State) : Prop :=
  forall t p, pools st !! t = Some p -> tidy (mem st) p /\ clean (mem st) p.

(** ** The self test *)

(** A console operation that touches nothing but the console. *)
Definition console_only (f : State -> State) : Prop :=
  forall st, head (f st) = head st /\ pools (f st) = pools st /\ mem (f st) = mem st.

(** The number of frames that [test_memory k] holds when its recursion is
    at its deepest. *)
Fixpoint frames_wanted (k : nat) : Z :=
  match k with
  | O => 0
  | S k' => frames_wanted k' + (Z.of_nat k mod 4 + 1)
  end.

(** The bitmap of the pool lies in none of its frames from [top] on. *)
Definition info_below (p : Pool) (top : Z) : Prop :=
  forall j, top <= j < nframes p ->
    bitmap p <> (base_frame_no p + j) * FRAME_SIZE.

(** The byte address [a] lies in one of the frames of the pool from [top]
    on. *)
Definition above (p : Pool) (top a : Z) : Prop :=
  (base_frame_no p + top) * FRAME_SIZE <= a
  < (base_frame_no p + nframes p) * FRAME_SIZE.

(** ** Concrete memories, pools and states *)

(** Memory of all zeros and memory of all ones. *)
Definition zero_mem : Mem := fun _ => 0.
Definition threes_mem : Mem := fun _ => 255.

(** What a call left behind, for calls that are known to return. *)
Definition state_of (o : outcome State) : State :=
  match o with
  | Done st => st
  | _ => initial_state zero_mem
  end.

Definition memory_of (o : outcome (Mem * Z)) : Mem :=
  match o with
  | Done (m, _) => m
  | _ => zero_mem
  end.

Definition returned (o : outcome (Mem * Z)) : option Z :=
  match o with
  | Done (_, r) => Some r
  | _ => None
  end.

(** A self-backed pool of eight frames at frame 512: its object, the
    state after its construction, and the state after [release_frames 512]. *)
Definition small_pool : Pool := mkPool 512 8 0 2097152 None None.
Definition idle_state : State := mkState None [] zero_mem [].
Definition boot_pool : outcome State :=
  ContFramePool (initial_state zero_mem) 512 8 0.
Definition boot_released : outcome State :=
  release_frames (state_of boot_pool) 512.

(** A self-backed pool of a single frame, and its object. *)
Definition one_frame_pool : outcome State :=
  ContFramePool (initial_state zero_mem) 512 1 0.
Definition single_frame : Pool := mkPool 512 1 0 2097152 None None.

(** The static members of [PageTable] after [init_paging] with the pool at
    index 0 as the kernel pool. *)
Definition paging_on_pool_0 : PageTableStatics :=
  mkPageTableStatics None 0 (Some 0%nat) None (4 * MB).

(** Two self-backed pools with disjoint ranges, constructed in descending
    order of their bases, and their objects once both are linked. *)
Definition two_pools : outcome State :=
  construct_all (initial_state zero_mem) [(1024, 8, 0); (512, 8, 0)].
Definition low_pool : Pool := mkPool 512 8 0 2097152 None (Some 0%nat).
Definition high_pool : Pool := mkPool 1024 8 0 4194304 (Some 1%nat) None.

(** Two self-backed pools with overlapping ranges, their objects, and the
    state after [mark_inaccessible 2 2] on the higher one. *)
Definition overlapping_pools : outcome State :=
  construct_all (initial_state zero_mem) [(512, 8, 0); (516, 8, 0)].
Definition over_low : Pool := mkPool 512 8 0 2097152 None (Some 1%nat).
Definition over_high : Pool := mkPool 516 8 0 2113536 (Some 0%nat) None.
Definition over_marked : State :=
  with_mem (state_of overlapping_pools)
           (mark_inaccessible (mem (state_of overlapping_pools)) over_high 2 2).

(** Two pools constructed with the same external info frame 100, and the
    state after the low pool has handed out its first frame. *)
Definition shared_info : outcome State :=
  construct_all (initial_state zero_mem) [(512, 8, 100); (1024, 8, 100)].
Definition shared_low : Pool := mkPool 512 8 100 409600 None (Some 1%nat).
Definition shared_high : Pool := mkPool 1024 8 100 409600 (Some 0%nat) None.
Definition shared_allocated : State :=
  with_mem (state_of shared_info)
           (memory_of (get_frames (mem (state_of shared_info)) shared_low 1)).

(** A self-backed pool at frame 2048 constructed after the two pools that
    share info frame 100, and the state after the pool at frame 512 has
    then handed out two frames. *)
Definition self_after_shared : outcome State :=
  ContFramePool (state_of shared_info) 2048 8 0.
Definition self_after_shared_low : Pool :=
  mkPool 512 8 100 409600 None (Some 1%nat).
Definition self_after_shared_used : State :=
  with_mem (state_of self_after_shared)
           (memory_of (get_frames (mem (state_of self_after_shared))
                                  self_after_shared_low 2)).

(** A self-backed pool at frame 512 constructed after a pool that uses
    frame 512 as its info frame. *)
Definition aliased_pools : outcome State :=
  construct_all (initial_state zero_mem) [(1024, 8, 512); (512, 8, 0)].
Definition aliased_self : Pool := mkPool 512 8 0 2097152 None (Some 0%nat).

(** A pool whose range runs past the last 32-bit frame number, and the
    state after [mark_inaccessible 5 1] on it. *)
Definition straddling_pool : outcome State :=
  ContFramePool (initial_state zero_mem) 4294967292 8 0.
Definition straddler : Pool := mkPool 4294967292 8 0 4294950912 None None.
Definition straddler_marked : State :=
  with_mem (state_of straddling_pool)
           (mark_inaccessible (mem (state_of straddling_pool)) straddler 5 1).

(** A console whose [init], [redirect_output] and [puti] do nothing. *)
Definition quiet_init (st : State) : State := st.
Definition quiet_redirect_output (st : State) (_ : bool) : State := st.
Definition quiet_puti (st : State) (_ : Z) : State := st.

(** ** Proof automation *)

(** Case analysis on every integer comparison of the goal. *)
Ltac zcase_on test spec :=
  match goal with
  | |- context [test ?x ?y] => destruct (spec x y)
  end.

Ltac zcases :=
  repeat first [ zcase_on Z.ltb Z.ltb_spec
               | zcase_on Z.leb Z.leb_spec
               | zcase_on Z.eqb Z.eqb_spec ];
  cbn [andb orb negb].

(** Equations between bytes built from [x] by masks with constants, bit by
    bit. *)
Ltac bits_of x :=
  repeat (rewrite Z.land_spec || rewrite Z.lor_spec);
  repeat match goal with
         | |- context [Z.testbit x ?c] =>
             let b := fresh "b" in
             generalize (Z.testbit x c); intro b
         end;
  repeat match goal with b : bool |- _ => destruct b end;
  reflexivity.

(** Case analysis on [decide], discarding branches that arithmetic
    refutes. *)
Ltac dec_lia := repeat (case_decide; try lia).

(** Reading an object after a few field assignments. *)
Ltac read_store :=
  repeat (rewrite list_lookup_alter; case_decide; subst; try congruence; try lia).

(** * Properties *)

(** ** Two-bit fields of a byte *)

Lemma land3_bits (a : Z) :
  Z.land a 3 = Z.b2z (Z.testbit a 0) + 2 * Z.b2z (Z.testbit a 1).
Proof.
  change 3 with (Z.ones 2). rewrite Z.land_ones by lia.
  rewrite (Z.testbit_spec' a 0), (Z.testbit_spec' a 1) by lia.
  change (2 ^ 0) with 1. change (2 ^ 1) with 2. change (2 ^ 2) with 4.
  rewrite Z.div_1_r. Z.div_mod_to_equations. lia.
Qed.

Lemma field_bits (x shift : Z) :
  0 <= shift ->
  Z.land (Z.shiftr x shift) 3
  = Z.b2z (Z.testbit x shift) + 2 * Z.b2z (Z.testbit x (shift + 1)).
Proof.
  intros Hs. rewrite land3_bits, !Z.shiftr_spec by lia.
  rewrite Z.add_0_l, (Z.add_comm 1 shift). reflexivity.
Qed.

Lemma shift_of_is_shift (k : Z) : is_shift (shift_of k).
Proof.
  unfold is_shift, shift_of.
  pose proof (Z.mod_pos_bound k 4 ltac:(lia)). lia.
Qed.

Lemma new_byte_same (x shift : Z) (s : FrameState) :
  is_shift shift ->
  Z.land (Z.shiftr (new_byte x shift s) shift) 3 = encode s.
Proof.
  intros Hs. rewrite field_bits by (unfold is_shift in Hs; lia).
  destruct Hs as [-> | [-> | [-> | ->]]]; destruct s;
    unfold new_byte, reset_mask; bits_of x.
Qed.

Lemma new_byte_other (x shift shift' : Z) (s : FrameState) :
  is_shift shift -> is_shift shift' -> shift <> shift' ->
  Z.land (Z.shiftr (new_byte x shift s) shift') 3 = Z.land (Z.shiftr x shift') 3.
Proof.
  intros Hs Hs' Hne. rewrite !field_bits by (unfold is_shift in Hs'; lia).
  destruct Hs as [-> | [-> | [-> | ->]]];
    destruct Hs' as [-> | [-> | [-> | ->]]]; try congruence;
    destruct s; unfold new_byte, reset_mask; bits_of x.
Qed.

(** ** Reading and writing one bitmap entry *)

Lemma wrap32_small (z : Z) : u32 z -> wrap32 z = z.
Proof. unfold u32, wrap32. intros H. apply Z.mod_small. exact H. Qed.

Lemma wrap32_u32 (z : Z) : u32 (wrap32 z).
Proof. unfold u32, wrap32. apply Z.mod_pos_bound. reflexivity. Qed.

Lemma decode_encode (s : FrameState) : decode (encode s) = s.
Proof. destruct s; reflexivity. Qed.

Lemma FrameState_eqb_eq (s t : FrameState) : FrameState_eqb s t = true <-> s = t.
Proof. destruct s, t; simpl; split; congruence. Qed.

Lemma FrameState_eqb_neq (s t : FrameState) : FrameState_eqb s t = false <-> s <> t.
Proof. destruct s, t; simpl; split; congruence. Qed.

Lemma set_state_at (m : Mem) (p : Pool) (k : Z) (s : FrameState) (a : Z) :
  set_state m p k s a
  = if a =? byte_addr p k
    then new_byte (m (byte_addr p k)) (shift_of k) s
    else m a.
Proof.
  unfold set_state, store, new_byte.
  destruct s; destruct (a =? byte_addr p k) eqn:E; try reflexivity;
    rewrite ?Z.eqb_refl; reflexivity.
Qed.

Lemma set_state_outside (m : Mem) (p : Pool) (k : Z) (s : FrameState) (a : Z) :
  a <> byte_addr p k -> set_state m p k s a = m a.
Proof.
  intros H. rewrite set_state_at.
  destruct (Z.eqb_spec a (byte_addr p k)); [contradiction | reflexivity].
Qed.

Lemma get_set_same (m : Mem) (p : Pool) (k : Z) (s : FrameState) :
  get_state (set_state m p k s) p k = s.
Proof.
  unfold get_state, entry. rewrite set_state_at, Z.eqb_refl.
  rewrite new_byte_same by apply shift_of_is_shift.
  apply decode_encode.
Qed.

(** A write leaves every entry stored in another byte, or in another field
    of the same byte, as it was; the two entries may belong to two pools. *)
Lemma get_set_apart (m : Mem) (p q : Pool) (k j : Z) (s : FrameState) :
  byte_addr p k <> byte_addr q j \/ shift_of k <> shift_of j ->
  get_state (set_state m p k s) q j = get_state m q j.
Proof.
  intros H. unfold get_state, entry. rewrite set_state_at.
  destruct (Z.eqb_spec (byte_addr q j) (byte_addr p k)) as [E | E];
    [| reflexivity].
  rewrite new_byte_other; [rewrite E; reflexivity | apply shift_of_is_shift ..|].
  destruct H as [H | H]; congruence.
Qed.

Lemma byte_addr_eq_inv (p : Pool) (k j : Z) :
  u32 k -> u32 j -> byte_addr p k = byte_addr p j -> k / 4 = j / 4.
Proof.
  unfold u32, byte_addr, wrap32. change (2 ^ 32) with 4294967296.
  intros Hk Hj E. Z.div_mod_to_equations. lia.
Qed.

Lemma get_set_other (m : Mem) (p : Pool) (k j : Z) (s : FrameState) :
  u32 k -> u32 j -> k <> j ->
  get_state (set_state m p k s) p j = get_state m p j.
Proof.
  intros Hk Hj Hne. apply get_set_apart.
  destruct (Z.eq_dec (byte_addr p k) (byte_addr p j)) as [E | E]; [| left; exact E].
  right. apply byte_addr_eq_inv in E; [| assumption ..].
  unfold shift_of. Z.div_mod_to_equations. lia.
Qed.

(** Reading depends on one byte only. *)
Lemma get_state_ext (m m' : Mem) (q : Pool) (j : Z) :
  m' (byte_addr q j) = m (byte_addr q j) -> get_state m' q j = get_state m q j.
Proof. intros H. unfold get_state, entry. rewrite H. reflexivity. Qed.

(** ** Pools as the constructor leaves them *)

Lemma pool_ok_nframes (p : Pool) : pool_ok p -> 1 <= nframes p <= 16384.
Proof. unfold pool_ok. tauto. Qed.

Lemma byte_addr_ok (p : Pool) (k : Z) :
  pool_ok p -> 0 <= k < nframes p -> byte_addr p k = bitmap p + k / 4.
Proof.
  unfold pool_ok, u32, byte_addr, wrap32, FRAME_SIZE.
  change (2 ^ 32) with 4294967296.
  intros (_ & Hn & Hb & Hal) Hk. apply Z.mod_small.
  Z.div_mod_to_equations. lia.
Qed.

Lemma byte_addr_in_info_frame (p : Pool) (k : Z) :
  pool_ok p -> 0 <= k < nframes p -> in_info_frame p (byte_addr p k).
Proof.
  intros Hp Hk. rewrite byte_addr_ok by assumption.
  apply pool_ok_nframes in Hp. unfold in_info_frame, FRAME_SIZE.
  Z.div_mod_to_equations. lia.
Qed.

Lemma info_frames_apart (p q : Pool) (a : Z) :
  pool_ok p -> pool_ok q -> bitmap p <> bitmap q ->
  in_info_frame p a -> ~ in_info_frame q a.
Proof.
  unfold pool_ok, in_info_frame, FRAME_SIZE.
  intros (_ & _ & _ & Hp) (_ & _ & _ & Hq) Hne Ha Hb.
  Z.div_mod_to_equations. lia.
Qed.

Lemma within_refl (p : Pool) (m : Mem) : within p m m.
Proof. intros a _. reflexivity. Qed.

Lemma within_trans (p : Pool) (m1 m2 m3 : Mem) :
  within p m1 m2 -> within p m2 m3 -> within p m1 m3.
Proof. intros H12 H23 a Ha. rewrite H23, H12 by assumption. reflexivity. Qed.

Lemma set_state_within (m : Mem) (p : Pool) (k : Z) (s : FrameState) :
  pool_ok p -> 0 <= k < nframes p -> within p m (set_state m p k s).
Proof.
  intros Hp Hk a Ha. apply set_state_outside.
  intros ->. apply Ha. apply byte_addr_in_info_frame; assumption.
Qed.

(** Entries of a pool whose bitmap sits in another frame do not see the
    change. *)
Lemma within_get_state (p q : Pool) (m m' : Mem) (j : Z) :
  pool_ok p -> pool_ok q -> bitmap p <> bitmap q ->
  within p m m' -> 0 <= j < nframes q ->
  get_state m' q j = get_state m q j.
Proof.
  intros Hp Hq Hne Hw Hj. apply get_state_ext, Hw.
  intros Ha. eapply (info_frames_apart q p); eauto.
  apply byte_addr_in_info_frame; assumption.
Qed.

(** ** [mark_inaccessible] *)

Lemma mark_tail_get (p : Pool) (b : Z) (cnt : nat) :
  forall (i0 : nat) (m : Mem) (j : Z),
    0 <= b -> b + Z.of_nat i0 + Z.of_nat cnt <= 2 ^ 32 -> u32 j ->
    get_state (mark_tail m p b i0 cnt) p j
    = if (b + Z.of_nat i0 <=? j) && (j <? b + Z.of_nat i0 + Z.of_nat cnt)
      then Used else get_state m p j.
Proof.
  unfold mark_tail, u32.
  induction cnt as [| cnt IH]; intros i0 m j Hb Hfit Hj; simpl.
  - zcases; try reflexivity; lia.
  - rewrite IH by lia.
    assert (Hw : wrap32 (b + Z.of_nat i0) = b + Z.of_nat i0)
      by (apply wrap32_small; unfold u32; lia).
    rewrite Hw. zcases; try reflexivity; try lia;
      try (apply get_set_other; unfold u32; lia).
    assert (j = b + Z.of_nat i0) as -> by lia. apply get_set_same.
Qed.

Lemma mark_tail_within (p : Pool) (b : Z) (cnt : nat) :
  forall (i0 : nat) (m : Mem),
    pool_ok p -> 0 <= b -> b + Z.of_nat i0 + Z.of_nat cnt <= nframes p ->
    within p m (mark_tail m p b i0 cnt).
Proof.
  unfold mark_tail.
  induction cnt as [| cnt IH]; intros i0 m Hp Hb Hfit; simpl.
  - apply within_refl.
  - pose proof (pool_ok_nframes p Hp) as Hn.
    eapply within_trans; [| apply IH; [assumption | assumption | lia]].
    rewrite wrap32_small by (unfold u32; lia).
    apply set_state_within; [assumption | lia].
Qed.

Lemma mark_inaccessible_unfold (m : Mem) (p : Pool) (b n : Z) :
  mark_inaccessible m p b n
  = mark_tail (set_state m p b HoS) p b 1 (Z.to_nat n - 1).
Proof. reflexivity. Qed.

(** The entries after [mark_inaccessible b n] when the run does not wrap. *)
Lemma mark_inaccessible_get (m : Mem) (p : Pool) (b n j : Z) :
  0 <= b -> b < 2 ^ 32 -> b + n <= 2 ^ 32 -> u32 j ->
  get_state (mark_inaccessible m p b n) p j
  = if j =? b then HoS
    else if (b <? j) && (j <? b + n) then Used
         else get_state m p j.
Proof.
  intros Hb Hb' Hfit Hj. rewrite mark_inaccessible_unfold.
  rewrite mark_tail_get by (try assumption; lia).
  zcases; try reflexivity; try lia; subst;
    first [apply get_set_same | apply get_set_other; unfold u32 in *; lia].
Qed.

Lemma mark_inaccessible_within (m : Mem) (p : Pool) (b n : Z) :
  pool_ok p -> 0 <= b < nframes p -> b + n <= nframes p ->
  within p m (mark_inaccessible m p b n).
Proof.
  intros Hp Hb Hfit. rewrite mark_inaccessible_unfold.
  eapply within_trans.
  - apply set_state_within; eassumption.
  - apply mark_tail_within; [assumption | lia | lia].
Qed.

(** ** [get_frames]: first fit *)

Lemma first_busy_None (m : Mem) (p : Pool) (start : Z) (k : nat) :
  forall i, first_busy m p start i k = None ->
  forall r, i <= r < i + Z.of_nat k -> get_state m p (wrap32 (start + r)) = Free.
Proof.
  induction k as [| k IH]; intros i H r Hr; [lia |].
  simpl in H.
  destruct (FrameState_eqb (get_state m p (wrap32 (start + i))) Free) eqn:E;
    [| discriminate].
  destruct (Z.eq_dec r i) as [-> | Hne].
  - apply FrameState_eqb_eq. exact E.
  - apply (IH (i + 1)); [exact H | lia].
Qed.

Lemma first_busy_Some (m : Mem) (p : Pool) (start : Z) (k : nat) :
  forall i r, first_busy m p start i k = Some r ->
  i <= r < i + Z.of_nat k /\ get_state m p (wrap32 (start + r)) <> Free.
Proof.
  induction k as [| k IH]; intros i r H; [discriminate |].
  simpl in H.
  destruct (FrameState_eqb (get_state m p (wrap32 (start + i))) Free) eqn:E.
  - apply IH in H. split; [lia | tauto].
  - injection H as <-. split; [lia |]. apply FrameState_eqb_neq. exact E.
Qed.

Lemma get_frames_loop_spec (m : Mem) (p : Pool) (n : Z) :
  1 <= n <= nframes p -> nframes p <= 16384 ->
  forall (fuel : nat) (s0 : Z),
    0 <= s0 <= nframes p -> nframes p - s0 < Z.of_nat fuel ->
    (forall s, 0 <= s < s0 -> ~ free_window m p n s) ->
    (exists s, free_window m p n s /\
               (forall s', free_window m p n s' -> s <= s') /\
               get_frames_loop fuel m p n s0
               = Done (mark_inaccessible m p s n, wrap32 (s + base_frame_no p)))
    \/ ((forall s, ~ free_window m p n s) /\
        get_frames_loop fuel m p n s0 = Done (m, 0)).
Proof.
  intros Hn Hmax. induction fuel as [| fuel IH]; intros s0 Hs0 Hfuel Hinv; [lia |].
  simpl. rewrite (wrap32_small (s0 + n - 1)) by (unfold u32; lia).
  destruct (Z.ltb_spec (s0 + n - 1) (nframes p)) as [Hin | Hout].
  - destruct (first_busy m p s0 0 (Z.to_nat n)) as [i |] eqn:E.
    + apply first_busy_Some in E. destruct E as [Hi Hbusy].
      rewrite wrap32_small in Hbusy by (unfold u32; lia).
      rewrite (wrap32_small (s0 + i + 1)) by (unfold u32; lia).
      apply IH; [lia | lia |].
      intros s Hs Hw.
      destruct (Z.lt_ge_cases s s0) as [Hlt | Hge].
      * apply (Hinv s); [lia | exact Hw].
      * destruct Hw as (_ & _ & Hfree).
        apply Hbusy. replace (s0 + i) with (s + (s0 + i - s)) by lia.
        apply Hfree. lia.
    + left. exists s0.
      assert (Hw : free_window m p n s0).
      { repeat split; try lia. intros i Hi.
        rewrite <- (wrap32_small (s0 + i)) by (unfold u32; lia).
        eapply first_busy_None; [exact E | lia]. }
      split; [exact Hw |]. split; [| reflexivity].
      intros s' Hs'. destruct (Z.lt_ge_cases s' s0) as [Hlt | Hge]; [| exact Hge].
      exfalso. apply (Hinv s'); [| exact Hs']. destruct Hs'. lia.
  - right. split; [| reflexivity].
    intros s Hs. destruct (Z.lt_ge_cases s s0) as [Hlt | Hge].
    + apply (Hinv s); [| exact Hs]. destruct Hs. lia.
    + destruct Hs as (_ & Hfit & _). lia.
Qed.

Lemma get_frames_cases (m : Mem) (p : Pool) (n : Z) :
  1 <= nframes p <= 16384 -> 1 <= n < 2 ^ 32 ->
  (exists s, free_window m p n s /\
             (forall s', free_window m p n s' -> s <= s') /\
             get_frames m p n
             = Done (mark_inaccessible m p s n, wrap32 (s + base_frame_no p)))
  \/ ((forall s, ~ free_window m p n s) /\ get_frames m p n = Done (m, 0)).
Proof.
  intros Hp Hn. unfold get_frames.
  destruct (Z.le_gt_cases n (nframes p)) as [Hle | Hgt].
  - apply get_frames_loop_spec; lia.
  - right. split.
    + intros s (H0 & Hfit & _). lia.
    + simpl. rewrite wrap32_small by (unfold u32; lia).
      destruct (Z.ltb_spec (0 + n - 1) (nframes p)); [lia | reflexivity].
Qed.

(** C1. For a pool as the constructor leaves it and a request [n >= 1]:
    if some window of [n] consecutive free frames exists, then there is a
    lowest one, [get_frames] returns [base_frame_no] plus its start index
    (the sum of two [unsigned long]s; it is the exact sum when the pool's
    range ends at or below 2^32), and the memory it leaves is that of
    [mark_inaccessible] on the window: the start frame is the head of
    sequence, the [n - 1] frames after it are used, and every other entry of
    the pool is as before.  If no such window exists it returns 0 and memory
    is unchanged. *)
Theorem get_frames_first_fit (m : Mem) (p : Pool) (n : Z) :
  pool_ok p -> 1 <= n < 2 ^ 32 ->
  ((exists s, free_window m p n s) ->
   exists s m',
     free_window m p n s /\
     (forall s', free_window m p n s' -> s <= s') /\
     get_frames m p n = Done (m', wrap32 (base_frame_no p + s)) /\
     (base_frame_no p + nframes p <= 2 ^ 32 ->
      wrap32 (base_frame_no p + s) = base_frame_no p + s) /\
     m' = mark_inaccessible m p s n /\
     get_state m' p s = HoS /\
     (forall i, 1 <= i < n -> get_state m' p (s + i) = Used) /\
     (forall j, 0 <= j < nframes p -> ~ (s <= j < s + n) ->
                get_state m' p j = get_state m p j))
  /\
  ((~ exists s, free_window m p n s) -> get_frames m p n = Done (m, 0)).
Proof.
  intros Hp Hn. pose proof (pool_ok_nframes p Hp) as Hnf.
  destruct Hp as (Hbase & _ & _ & _). unfold u32 in Hbase.
  destruct (get_frames_cases m p n Hnf Hn)
    as [(s & Hw & Hlow & Hrun) | (Hnone & Hrun)].
  - split; [| intros Hno; exfalso; apply Hno; exists s; exact Hw].
    intros _. exists s, (mark_inaccessible m p s n).
    pose proof Hw as (Hs0 & Hfit & _).
    assert (Hget : forall j, 0 <= j < nframes p ->
              get_state (mark_inaccessible m p s n) p j
              = if j =? s then HoS
                else if (s <? j) && (j <? s + n) then Used
                     else get_state m p j).
    { intros j Hj. apply mark_inaccessible_get; unfold u32; lia. }
    split; [exact Hw |]. split; [exact Hlow |].
    split; [rewrite Hrun, (Z.add_comm s); reflexivity |].
    split; [intros Hend; apply wrap32_small; unfold u32; lia |].
    split; [reflexivity |].
    split; [rewrite Hget by lia; rewrite Z.eqb_refl; reflexivity |].
    split.
    + intros i Hi. rewrite Hget by lia. zcases; try reflexivity; lia.
    + intros j Hj Hout. rewrite Hget by lia. zcases; try reflexivity; lia.
  - split; [| intros _; exact Hrun].
    intros (s & Hw). exfalso. exact (Hnone s Hw).
Qed.

Lemma get_frames_first_fit_witness :
  pool_ok small_pool /\ 1 <= 3 < 2 ^ 32 /\
  exists s m',
    free_window zero_mem small_pool 3 s /\
    get_frames zero_mem small_pool 3
    = Done (m', wrap32 (base_frame_no small_pool + s)) /\
    get_state m' small_pool s = HoS.
Proof.
  assert (Hp : pool_ok small_pool) by (vm_compute; intuition congruence).
  assert (Hn : 1 <= 3 < 2 ^ 32) by lia.
  split; [exact Hp |]. split; [exact Hn |].
  assert (Hw : exists s, free_window zero_mem small_pool 3 s).
  { exists 0. split; [lia |]. split; [simpl; lia |].
    intros i Hi.
    assert (i = 0 \/ i = 1 \/ i = 2) as [-> | [-> | ->]] by lia; reflexivity. }
  destruct (proj1 (get_frames_first_fit zero_mem small_pool 3 Hp Hn) Hw)
    as (s & m' & Hs & _ & Hrun & _ & _ & Hhead & _).
  exists s, m'. auto.
Defined.

(** ** Releasing a run *)

Lemma release_tail_spec (p : Pool) :
  pool_ok p ->
  forall (fuel : nat) (fno : Z) (m : Mem),
    0 <= fno <= nframes p -> nframes p - fno < Z.of_nat fuel ->
    exists e m',
      release_tail fuel m p fno = Done m' /\
      fno <= e <= nframes p /\
      (forall j, fno <= j < e -> get_state m p j = Used) /\
      (e < nframes p -> get_state m p e <> Used) /\
      (forall j, u32 j ->
         get_state m' p j
         = if (fno <=? j) && (j <? e) then Free else get_state m p j) /\
      within p m m'.
Proof.
  intros Hp. pose proof (pool_ok_nframes p Hp) as Hnf.
  induction fuel as [| fuel IH]; intros fno m Hfno Hfuel; [lia |].
  simpl.
  destruct (Z.ltb_spec fno (nframes p)) as [Hin | Hout]; simpl.
  - destruct (FrameState_eqb (get_state m p fno) Used) eqn:E.
    + apply FrameState_eqb_eq in E.
      rewrite wrap32_small by (unfold u32; lia).
      destruct (IH (fno + 1) (set_state m p fno Free)) as
        (e & m' & Hrun & He & Hused & Hstop & Hget & Hw); [lia | lia |].
      assert (Hsame : forall j, fno + 1 <= j <= nframes p ->
                get_state (set_state m p fno Free) p j = get_state m p j).
      { intros j Hj. apply get_set_other; unfold u32; lia. }
      exists e, m'. split; [exact Hrun |]. split; [lia |].
      split; [| split; [| split]].
      * intros j Hj. destruct (Z.eq_dec j fno) as [-> | Hne]; [exact E |].
        rewrite <- Hsame by lia. apply Hused. lia.
      * intros Hlt. rewrite <- Hsame by lia. auto.
      * intros j Hj. rewrite Hget by exact Hj.
        unfold u32 in Hj. zcases; try reflexivity; try lia;
          try (apply get_set_other; unfold u32; lia).
        assert (j = fno) as -> by lia. apply get_set_same.
      * eapply within_trans; [| exact Hw].
        apply set_state_within; [exact Hp | lia].
    + apply FrameState_eqb_neq in E.
      exists fno, m. split; [reflexivity |]. split; [lia |].
      split; [intros j Hj; lia |]. split; [intros _; exact E |].
      split; [| apply within_refl].
      intros j _. zcases; try reflexivity; lia.
  - exists fno, m. split; [reflexivity |]. split; [lia |].
    split; [intros j Hj; lia |]. split; [intros Hlt; lia |].
    split; [| apply within_refl].
    intros j _. zcases; try reflexivity; lia.
Qed.

(** What [release_run] does on the head of a run, in one statement that
    the later results share. *)
Lemma release_run_head (st : State) (p : Pool) (k : Z) :
  pool_ok p -> 0 <= k < nframes p ->
  get_state (mem st) p k = HoS ->
  exists e m',
    release_run st p k = Done (with_mem st m') /\
    k < e <= nframes p /\
    (forall j, k < j < e -> get_state (mem st) p j = Used) /\
    (e < nframes p -> get_state (mem st) p e <> Used) /\
    (forall j, 0 <= j < nframes p ->
       get_state m' p j
       = if (k <=? j) && (j <? e) then Free else get_state (mem st) p j) /\
    within p (mem st) m'.
Proof.
  intros Hp Hk Hhead. pose proof (pool_ok_nframes p Hp) as Hnf.
  unfold release_run. rewrite Hhead. cbn [FrameState_eqb].
  rewrite wrap32_small by (unfold u32; lia).
  destruct (release_tail_spec p Hp (S (Z.to_nat (nframes p))) (k + 1)
              (set_state (mem st) p k Free))
    as (e & m' & Hrun & He & Hused & Hstop & Hget & Hw); [lia | lia |].
  assert (Hsame : forall j, k + 1 <= j <= nframes p ->
            get_state (set_state (mem st) p k Free) p j = get_state (mem st) p j).
  { intros j Hj. apply get_set_other; unfold u32; lia. }
  exists e, m'. rewrite Hrun. cbn [bind].
  split; [reflexivity |]. split; [lia |].
  split; [| split; [| split]].
  - intros j Hj. rewrite <- Hsame by lia. apply Hused. lia.
  - intros Hlt. rewrite <- Hsame by lia. auto.
  - intros j Hj. rewrite Hget by (unfold u32; lia).
    zcases; try reflexivity; try lia;
      try (apply get_set_other; unfold u32; lia).
    assert (j = k) as -> by lia. apply get_set_same.
  - eapply within_trans; [| exact Hw].
    apply set_state_within; [exact Hp | lia].
Qed.

Lemma release_run_not_head (st : State) (p : Pool) (k : Z) :
  get_state (mem st) p k <> HoS ->
  release_run st p k = Done (puts st msg_not_head).
Proof.
  intros H. unfold release_run.
  apply FrameState_eqb_neq in H. rewrite H. reflexivity.
Qed.

(** ** Claims about single entries and about [needed_info_frames] *)

(** C10. After [set_state k s] with [k < nframes], [get_state k] returns
    [s], and every other entry [j < nframes] of the pool reads as before,
    the three neighbours in the same byte included. *)
Theorem set_state_get_state (m : Mem) (p : Pool) (k : Z) (s : FrameState) :
  pool_ok p -> 0 <= k < nframes p ->
  get_state (set_state m p k s) p k = s /\
  forall j, 0 <= j < nframes p -> j <> k ->
    get_state (set_state m p k s) p j = get_state m p j.
Proof.
  intros Hp Hk. apply pool_ok_nframes in Hp.
  split; [apply get_set_same |].
  intros j Hj Hne. apply get_set_other; unfold u32; lia.
Qed.

Lemma set_state_get_state_witness :
  pool_ok small_pool /\ 0 <= 5 < nframes small_pool /\
  get_state (set_state zero_mem small_pool 5 Used) small_pool 5 = Used.
Proof.
  assert (Hp : pool_ok small_pool) by (vm_compute; intuition congruence).
  assert (Hk : 0 <= 5 < nframes small_pool) by (simpl; lia).
  split; [exact Hp |]. split; [exact Hk |].
  exact (proj1 (set_state_get_state zero_mem small_pool 5 Used Hp Hk)).
Defined.

(** The reserved pattern is never produced by a write. *)
Lemma set_state_entry (m : Mem) (p : Pool) (k : Z) (s : FrameState) :
  entry (set_state m p k s) p k = encode s.
Proof.
  unfold entry. rewrite set_state_at, Z.eqb_refl.
  apply new_byte_same, shift_of_is_shift.
Qed.

(** C4, as the code has it: the reader maps the reserved pattern [0b11] to
    [Free]; no failure is raised. *)
Theorem get_state_reserved_is_free (m : Mem) (p : Pool) (k : Z) :
  entry m p k = 3 -> get_state m p k = Free.
Proof. intros H. unfold get_state. rewrite H. reflexivity. Qed.

Lemma get_state_reserved_is_free_witness :
  entry threes_mem small_pool 0 = 3 /\ get_state threes_mem small_pool 0 = Free.
Proof.
  assert (H : entry threes_mem small_pool 0 = 3) by reflexivity.
  split; [exact H |].
  exact (get_state_reserved_is_free threes_mem small_pool 0 H).
Defined.

(** C4 fails as stated: it is not the case that the reader withholds all
    three legal states whenever the field holds [0b11]; on a byte of all
    ones it returns [Free]. *)
Lemma get_state_reserved_coerced :
  ~ (forall (m : Mem) (p : Pool) (k : Z),
       entry m p k = 3 ->
       get_state m p k <> Free /\ get_state m p k <> Used /\
       get_state m p k <> HoS).
Proof.
  intros H.
  destruct (H threes_mem small_pool 0 eq_refl) as (Hfree & _).
  apply Hfree. reflexivity.
Qed.

Lemma needed_info_frames_exact (n : Z) :
  0 <= n <= 2147467264 ->
  needed_info_frames n = (n * 2 + 32767) / 32768.
Proof.
  intros Hn. unfold needed_info_frames, FRAME_SIZE.
  rewrite (wrap32_small (n * 2)) by (unfold u32; lia).
  rewrite wrap32_small by (unfold u32; lia).
  change (4096 * 8) with 32768. f_equal. lia.
Qed.

(** C5, as the code has it.  While [2 n + 32767] fits in 32 bits, that is
    for [n <= 2147467264], the result is the ceiling of [2 n / 32768]: the
    least [q] with [2 n <= 32768 q]; it is monotone on that range, it is 1
    exactly for [1 <= n <= 16384], and it is 0 for [n = 0]. *)
Theorem needed_info_frames_ceiling (n : Z) :
  0 <= n <= 2147467264 ->
  (n * 2 <= needed_info_frames n * (FRAME_SIZE * 8) /\
   (needed_info_frames n - 1) * (FRAME_SIZE * 8) < n * 2) /\
  (forall n', n <= n' <= 2147467264 ->
              needed_info_frames n <= needed_info_frames n') /\
  (needed_info_frames n = 1 <-> 1 <= n <= 16384) /\
  (n = 0 -> needed_info_frames n = 0).
Proof.
  intros Hn. split; [| split; [| split]].
  - rewrite needed_info_frames_exact by exact Hn. unfold FRAME_SIZE.
    Z.div_mod_to_equations. lia.
  - intros n' Hn'. rewrite !needed_info_frames_exact by lia.
    apply Z.div_le_mono; lia.
  - rewrite needed_info_frames_exact by exact Hn.
    split; intros H; Z.div_mod_to_equations; lia.
  - intros ->. reflexivity.
Qed.

Lemma needed_info_frames_ceiling_witness :
  0 <= 512 <= 2147467264 /\ (needed_info_frames 512 = 1 <-> 1 <= 512 <= 16384).
Proof.
  assert (H : 0 <= 512 <= 2147467264) by lia.
  split; [exact H |].
  exact (proj1 (proj2 (proj2 (needed_info_frames_ceiling 512 H)))).
Defined.

(** C5 fails as stated: the result is 0, not 1, for [n = 0], and the 32-bit
    product [n * 2] wraps, so the function is neither the ceiling nor
    monotone on all of its input type. *)
Lemma needed_info_frames_counterexample :
  (0 <= 0 <= 16384 /\ needed_info_frames 0 <> 1) /\
  (16384 <= 2147483648 /\
   needed_info_frames 2147483648 < needed_info_frames 16384).
Proof. split; split; try lia; vm_compute; congruence. Qed.

(** ** The registry: a sorted doubly linked list *)

Lemma lookup_splice (k : nat) (x : ptr) (l : list ptr) (i : nat) :
  (k <= length l)%nat ->
  splice k x l !! i
  = if decide (i < k)%nat then l !! i
    else if decide (i = k) then Some x else l !! (i - 1)%nat.
Proof.
  intros Hk. unfold splice.
  assert (Hlen : length (take k l) = k) by (rewrite length_take; lia).
  repeat case_decide.
  - rewrite lookup_app_l by lia. rewrite lookup_take. case_decide; [reflexivity | lia].
  - subst i. apply list_lookup_middle. lia.
  - rewrite lookup_app_r by lia. rewrite Hlen.
    destruct (i - k)%nat as [| d] eqn:E; [lia |]. simpl.
    rewrite lookup_drop. f_equal. lia.
Qed.

Lemma length_splice (k : nat) (x : ptr) (l : list ptr) :
  length (splice k x l) = S (length l).
Proof.
  unfold splice. rewrite length_app. simpl.
  rewrite length_take, length_drop. lia.
Qed.

Lemma linked_lt (hd : option ptr) (ps : list Pool) (l : list ptr) (x : ptr) :
  linked hd ps l -> x ∈ l -> (x < length ps)%nat.
Proof.
  intros (_ & _ & H) Hx. apply list_elem_of_lookup in Hx as [i Hi].
  destruct (H i x Hi) as (p & Hp & _). eapply lookup_lt_Some. exact Hp.
Qed.

Lemma NoDup_splice (k : nat) (x : ptr) (l : list ptr) :
  NoDup l -> x ∉ l -> NoDup (splice k x l).
Proof.
  intros Hnd Hx. unfold splice. rewrite <- (take_drop k l) in Hnd, Hx.
  apply NoDup_app in Hnd as (H1 & H12 & H2).
  apply NoDup_app. split; [exact H1 |]. split.
  - intros y Hy Hy'. apply elem_of_cons in Hy' as [-> | Hy'].
    + apply Hx. apply elem_of_app. left. exact Hy.
    + exact (H12 y Hy Hy').
  - apply NoDup_cons. split; [| exact H2].
    intros Hx'. apply Hx. apply elem_of_app. right. exact Hx'.
Qed.

Lemma lookup_Some_iff (l : list ptr) (i k : nat) (x : ptr) :
  NoDup l -> l !! i = Some x -> (l !! k = Some x <-> k = i).
Proof.
  intros Hnd Hi. split; [| intros ->; exact Hi].
  intros Hk. eapply NoDup_lookup; eauto.
Qed.

Lemma before_Some_iff (l : list ptr) (i k : nat) (x : ptr) :
  NoDup l -> l !! i = Some x -> (before l k = Some x <-> k = S i).
Proof.
  intros Hnd Hi. destruct k as [| k]; simpl.
  - split; [discriminate | lia].
  - rewrite (lookup_Some_iff l i k x Hnd Hi). lia.
Qed.

Lemma before_splice (k : nat) (x : ptr) (l : list ptr) (i : nat) :
  (k <= length l)%nat ->
  before (splice k x l) i
  = if decide (i = 0)%nat then None
    else if decide (i <= k)%nat then before l i
         else if decide (i = S k) then Some x else before l (i - 1).
Proof.
  intros Hk. destruct i as [| i]; [reflexivity |]. simpl.
  rewrite lookup_splice by exact Hk.
  repeat (case_decide; try lia); try reflexivity.
  destruct i; [lia |]. simpl. rewrite Nat.sub_0_r. reflexivity.
Qed.

Lemma relinked_linked (hd : option ptr) (ps0 ps1 : list Pool) (l : list ptr)
      (this : ptr) (k : nat) (new : Pool) :
  linked hd ps0 l -> this ∉ l -> (k <= length l)%nat ->
  ps0 !! this = Some new ->
  relinked ps0 ps1 this (before l k) (l !! k) ->
  linked (if decide (k = 0%nat) then Some this else hd) ps1 (splice k this l).
Proof.
  intros (Hnd & Hhd & Hl) Hthis Hk Hnew (Hlen & Hre).
  split; [apply NoDup_splice; assumption |]. split.
  - rewrite lookup_splice by exact Hk. dec_lia; [reflexivity | exact Hhd].
  - intros i x Hi. rewrite lookup_splice in Hi by exact Hk.
    rewrite lookup_splice, before_splice by exact Hk.
    destruct (Nat.eq_dec i k) as [-> | Hne].
    + (* the new element *)
      rewrite decide_False, decide_True in Hi by lia. injection Hi as <-.
      destruct (Hre this new Hnew) as (p' & Hp' & _ & Hpv' & Hnx').
      rewrite decide_True in Hpv', Hnx' by reflexivity.
      exists p'. split; [exact Hp' |]. rewrite Hpv', Hnx'.
      split; dec_lia; try reflexivity.
      * f_equal. lia.
      * subst k. reflexivity.
    + (* an element of the old list, at position [i'] there *)
      set (i' := if decide (i < k)%nat then i else (i - 1)%nat).
      assert (Hi' : l !! i' = Some x) by (subst i'; dec_lia; exact Hi).
      destruct (Hl i' x Hi') as (p & Hp & Hnx & Hpv).
      destruct (Hre x p Hp) as (p' & Hp' & _ & Hpv' & Hnx').
      assert (x <> this) by (intros ->; apply Hthis, list_elem_of_lookup; eauto).
      rewrite decide_False in Hpv', Hnx' by assumption.
      rewrite (decide_ext _ _ _ _ (lookup_Some_iff l i' k x Hnd Hi')) in Hpv'.
      rewrite (decide_ext _ _ _ _ (before_Some_iff l i' k x Hnd Hi')) in Hnx'.
      exists p'. split; [exact Hp' |]. rewrite Hpv', Hnx', Hpv, Hnx.
      subst i'. split; dec_lia; try reflexivity; try (f_equal; lia).
      all: destruct i; [reflexivity | lia].
Qed.

Lemma deref_Some (ps : list Pool) (t : ptr) (p : Pool) :
  ps !! t = Some p -> deref ps t = Done p.
Proof. intros H. unfold deref. rewrite H. reflexivity. Qed.

(** The search of the constructor stops at the first pool, in registry
    order, whose base is not below the new one, or at the last pool. *)
Lemma find_slot_spec (hd : option ptr) (ps : list Pool) (l : list ptr) (base : Z) :
  linked hd ps l ->
  forall (fuel i : nat) (x : ptr),
    l !! i = Some x -> (length l - i <= fuel)%nat ->
    (forall i' y q, (i' < i)%nat -> l !! i' = Some y -> ps !! y = Some q ->
                    base_frame_no q < base) ->
    exists (k : nat) (tmp : ptr) (t : Pool),
      find_slot fuel ps base x = Done tmp /\
      l !! k = Some tmp /\ ps !! tmp = Some t /\
      (forall i' y q, (i' < k)%nat -> l !! i' = Some y -> ps !! y = Some q ->
                      base_frame_no q < base) /\
      (base <= base_frame_no t \/ (base_frame_no t < base /\ S k = length l)).
Proof.
  intros (Hnd & Hhd & Hl).
  induction fuel as [| fuel IH]; intros i x Hi Hfuel Hlow.
  - apply lookup_lt_Some in Hi. lia.
  - destruct (Hl i x Hi) as (p & Hp & Hnx & _).
    simpl. rewrite (deref_Some ps x p Hp). cbn [bind].
    destruct (Z.ltb_spec (base_frame_no p) base) as [Hlt | Hge].
    + destruct (next p) as [nx |] eqn:E.
      * apply (IH (S i) nx); [congruence | lia |].
        intros i' y q Hi' Hy Hq.
        destruct (Nat.eq_dec i' i) as [-> | Hne].
        -- assert (y = x) by congruence. subst y.
           assert (q = p) by congruence. subst q. exact Hlt.
        -- apply (Hlow i' y q); [lia | assumption ..].
      * exists i, x, p. split; [reflexivity |]. split; [exact Hi |].
        split; [exact Hp |]. split; [exact Hlow |]. right. split; [exact Hlt |].
        symmetry in Hnx. apply lookup_ge_None in Hnx.
        apply lookup_lt_Some in Hi. lia.
    + exists i, x, p. split; [reflexivity |]. split; [exact Hi |].
      split; [exact Hp |]. split; [exact Hlow |]. left. exact Hge.
Qed.

Lemma same_frames_refl (p : Pool) : same_frames p p.
Proof. unfold same_frames. auto. Qed.

Lemma link_spec (hd : option ptr) (ps0 : list Pool) (l : list ptr)
      (this : ptr) (base : Z) (new : Pool) :
  linked hd ps0 l -> (length l < length ps0)%nat -> this ∉ l ->
  ps0 !! this = Some new -> prev new = None -> next new = None ->
  exists (k : nat) (hd' : option ptr) (ps1 : list Pool),
    link hd ps0 this base = Done (hd', ps1) /\
    (k <= length l)%nat /\
    hd' = (if decide (k = 0%nat) then Some this else hd) /\
    relinked ps0 ps1 this (before l k) (l !! k) /\
    (forall i y q, (i < k)%nat -> l !! i = Some y -> ps0 !! y = Some q ->
                   base_frame_no q < base) /\
    (forall y q, l !! k = Some y -> ps0 !! y = Some q -> base <= base_frame_no q).
Proof.
  intros Hlk Hfuel Hthis Hnew Hpv Hnx.
  pose proof Hlk as (Hnd & Hhd & Hl).
  destruct hd as [h |].
  - symmetry in Hhd.
    destruct (find_slot_spec (Some h) ps0 l base Hlk (length ps0) 0 h Hhd)
      as (k0 & tmp & t & Hfind & Hk0 & Ht & Hlow & Hcase); [lia | intros; lia |].
    destruct (Hl k0 tmp Hk0) as (t' & Ht' & Htnx & Htpv).
    assert (t' = t) by congruence. subst t'.
    assert (Htmp : tmp <> this)
      by (intros ->; apply Hthis, list_elem_of_lookup; eauto).
    unfold link. rewrite Hfind. cbn [bind].
    rewrite (deref_Some ps0 tmp t Ht). cbn [bind].
    destruct (Z.ltb_spec (base_frame_no t) base) as [Hlt | Hge].
    + (* insert after the last pool *)
      destruct Hcase as [Hc | (_ & Hlast)]; [lia |].
      assert (Hend : l !! S k0 = None) by (apply lookup_ge_None; lia).
      rewrite Htnx, Hend.
      exists (S k0). eexists. eexists. split; [reflexivity |].
      split; [lia |]. split; [reflexivity |]. split; [| split].
      * rewrite Hend. simpl. rewrite Hk0. split.
        -- rewrite !length_alter. reflexivity.
        -- intros x p Hx. read_store.
           all: rewrite ?Hx, ?Hnew, ?Ht; simpl; eexists; split;
             [reflexivity | simpl].
           all: split; [unfold same_frames; simpl; auto |].
           all: repeat (case_decide; try congruence); auto; split; congruence.
      * intros i y q Hi Hy Hq.
        destruct (Nat.eq_dec i k0) as [-> | Hne].
        -- assert (y = tmp) by congruence. subst y.
           assert (q = t) by congruence. subst q. exact Hlt.
        -- apply (Hlow i y q); [lia | assumption ..].
      * intros y q Hy. congruence.
    + (* insert before [tmp] *)
      exists k0. rewrite Htpv.
      assert (Hhere : forall y q, l !! k0 = Some y -> ps0 !! y = Some q ->
                                  base <= base_frame_no q).
      { intros y q Hy Hq. assert (y = tmp) by congruence. subst y.
        assert (q = t) by congruence. subst q. exact Hge. }
      destruct k0 as [| k']; simpl.
      * (* ... which is the head *)
        eexists. eexists. split; [reflexivity |].
        split; [lia |]. split; [reflexivity |]. split; [| split; assumption].
        rewrite Hk0. split.
        -- rewrite !length_alter. reflexivity.
        -- intros x p Hx. read_store.
           all: rewrite Hx; simpl; eexists; split; [reflexivity | simpl].
           all: split; [unfold same_frames; simpl; auto |].
           all: repeat (case_decide; try congruence); auto; split; congruence.
      * (* ... which has a predecessor *)
        destruct (l !! k') as [pv |] eqn:Hk';
          [| apply lookup_ge_None in Hk'; apply lookup_lt_Some in Hk0; lia].
        assert (Hpvt : pv <> this)
          by (intros ->; apply Hthis, list_elem_of_lookup; eauto).
        assert (Hpvtmp : pv <> tmp).
        { intros ->. assert (k' = S k') by (eapply NoDup_lookup; eauto). lia. }
        eexists. eexists. split; [reflexivity |].
        split; [apply lookup_lt_Some in Hk0; lia |].
        split; [reflexivity |]. split; [| split; assumption].
        rewrite Hk0. split.
        -- rewrite !length_alter. reflexivity.
        -- intros x p Hx. read_store.
           all: rewrite Hx; simpl; eexists; split; [reflexivity | simpl].
           all: split; [unfold same_frames; simpl; auto |].
           all: repeat (case_decide; try congruence); auto; split; congruence.
  - (* the registry is empty *)
    assert (l = []) as -> by (destruct l; [reflexivity | discriminate]).
    exists 0%nat, (Some this), ps0. simpl.
    split; [reflexivity |]. split; [lia |]. split; [reflexivity |].
    split; [| split; intros; try lia; discriminate].
    split; [reflexivity |].
    intros x p Hx. exists p. split; [exact Hx |].
    split; [apply same_frames_refl |].
    repeat (case_decide; try congruence); subst;
      split; try reflexivity; congruence.
Qed.

Lemma linked_ext (hd : option ptr) (ps ps' : list Pool) (l : list ptr) :
  linked hd ps l ->
  (forall x p, ps !! x = Some p ->
     exists p', ps' !! x = Some p' /\ prev p' = prev p /\ next p' = next p) ->
  linked hd ps' l.
Proof.
  intros (Hnd & Hhd & Hl) Hext. split; [exact Hnd |]. split; [exact Hhd |].
  intros i x Hi. destruct (Hl i x Hi) as (p & Hp & Hnx & Hpv).
  destruct (Hext x p Hp) as (p' & Hp' & Hpv' & Hnx').
  exists p'. split; [exact Hp' |]. split; congruence.
Qed.

Lemma linked_app (hd : option ptr) (ps : list Pool) (l : list ptr) (new : Pool) :
  linked hd ps l -> linked hd (ps ++ [new]) l.
Proof.
  intros H. apply (linked_ext hd ps); [exact H |].
  intros x p Hp. exists p. split; [| auto].
  rewrite lookup_app_l by (eapply lookup_lt_Some; exact Hp). exact Hp.
Qed.

Lemma ctor_asserts (n : Z) :
  u32 n ->
  (n <= wrap32 (FRAME_SIZE * 8) / 2 /\ needed_info_frames n = 1)
  <-> 1 <= n <= 16384.
Proof.
  unfold u32. intros Hn. change (wrap32 (FRAME_SIZE * 8) / 2) with 16384.
  split.
  - intros (Hle & Hone). rewrite needed_info_frames_exact in Hone by lia.
    split; [| exact Hle]. Z.div_mod_to_equations. lia.
  - intros H. split; [lia |]. rewrite needed_info_frames_exact by lia.
    Z.div_mod_to_equations. lia.
Qed.

Lemma wrap32_frame_aligned (f : Z) :
  u32 (wrap32 (f * FRAME_SIZE)) /\ wrap32 (f * FRAME_SIZE) mod FRAME_SIZE = 0.
Proof.
  split; [apply wrap32_u32 |].
  unfold wrap32, FRAME_SIZE. change (2 ^ 32) with 4294967296.
  Z.div_mod_to_equations. lia.
Qed.

Lemma pool_ok_same_frames (p p' : Pool) :
  same_frames p p' -> pool_ok p -> pool_ok p'.
Proof.
  unfold same_frames, pool_ok. intros (-> & -> & _ & ->). tauto.
Qed.

Lemma bitmap_addr_aligned (base info : Z) :
  u32 (bitmap_addr base info) /\ bitmap_addr base info mod FRAME_SIZE = 0.
Proof. unfold bitmap_addr. destruct (info =? 0); apply wrap32_frame_aligned. Qed.

(** The constructor on a well-formed registry: it returns, the registry
    stays well formed, the new object sits at the next index, and the old
    objects keep their frame fields. *)
Lemma ContFramePool_spec (st : State) (base n info : Z) :
  registry_ok st -> u32 base -> 1 <= n <= 16384 ->
  exists st' self,
    ContFramePool st base n info = Done st' /\
    registry_ok st' /\
    length (pools st') = S (length (pools st)) /\
    pools st' !! length (pools st) = Some self /\
    base_frame_no self = base /\ nframes self = n /\
    info_frame_no self = info /\ bitmap self = bitmap_addr base info /\
    (forall t p, pools st !! t = Some p ->
       exists p', pools st' !! t = Some p' /\ same_frames p p') /\
    mem st' = (if info =? 0
               then set_state (init_free (mem st) self n) self 0 HoS
               else init_free (mem st) self n) /\
    console st' = console st ++ [msg_initialized].
Proof.
  intros (l & Hlk & Hlen & Hsorted & Hok) Hbase Hn.
  assert (Hn32 : u32 n) by (unfold u32; lia).
  destruct (proj2 (ctor_asserts n Hn32) Hn) as (Ha1 & Ha2).
  unfold ContFramePool, assert.
  apply Z.leb_le in Ha1. rewrite Ha1. apply Z.eqb_eq in Ha2. rewrite Ha2.
  set (this := length (pools st)).
  set (new := mkPool base n info 0 None None).
  set (ps0 := pools st ++ [new]).
  assert (Hthis : this ∉ l).
  { intros Hin. apply (linked_lt _ _ _ _ Hlk) in Hin. subst this. lia. }
  assert (Hnew : ps0 !! this = Some new).
  { subst ps0 this. apply list_lookup_middle. reflexivity. }
  assert (Holds : forall x p, pools st !! x = Some p -> ps0 !! x = Some p).
  { intros x p Hp. subst ps0.
    rewrite lookup_app_l by (eapply lookup_lt_Some; exact Hp). exact Hp. }
  assert (Hlk0 : linked (head st) ps0 l) by (apply linked_app; exact Hlk).
  destruct (link_spec (head st) ps0 l this base new Hlk0)
    as (k & hd' & ps1 & Hlink & Hk & Hhd' & Hre & Hlow & Hhere);
    [subst ps0; rewrite length_app; simpl; lia | exact Hthis | exact Hnew
     | reflexivity | reflexivity |].
  rewrite Hlink. cbn [bind fst snd].
  destruct (proj2 Hre this new Hnew) as (p1 & Hp1 & Hsame1 & _).
  set (bm := if info =? 0 then wrap32 (base * FRAME_SIZE)
             else wrap32 (info * FRAME_SIZE)).
  set (ps2 := alter (with_bitmap bm) this ps1).
  assert (Hself : ps2 !! this = Some (with_bitmap bm p1)).
  { subst ps2. rewrite list_lookup_alter, decide_True by reflexivity.
    rewrite Hp1. reflexivity. }
  rewrite (deref_Some ps2 this _ Hself). cbn [bind].
  (* every object of the final store comes from [ps0] *)
  assert (Hps2 : forall x p0, ps0 !! x = Some p0 ->
            exists p2, ps2 !! x = Some p2 /\
                       base_frame_no p2 = base_frame_no p0 /\
                       nframes p2 = nframes p0 /\
                       info_frame_no p2 = info_frame_no p0 /\
                       bitmap p2 = (if decide (x = this) then bm else bitmap p0)).
  { intros x p0 Hx. destruct (proj2 Hre x p0 Hx) as (q1 & Hq1 & (Hb & Hnf & Hif & Hbm) & _).
    subst ps2. rewrite list_lookup_alter.
    destruct (Nat.eq_dec this x) as [<- | Hne].
    - rewrite decide_True by reflexivity. rewrite Hq1. simpl.
      eexists. split; [reflexivity |]. simpl.
      rewrite decide_True by reflexivity. auto.
    - rewrite decide_False by exact Hne. rewrite Hq1.
      eexists. split; [reflexivity |].
      rewrite decide_False by congruence. auto. }
  assert (Hlen2 : length ps2 = S (length (pools st))).
  { subst ps2. rewrite length_alter, (proj1 Hre). subst ps0.
    rewrite length_app. simpl. lia. }
  eexists. exists (with_bitmap bm p1).
  split; [reflexivity |]. unfold puts. cbn [head pools mem console].
  destruct Hsame1 as (Hb1 & Hn1 & Hi1 & _). simpl in Hb1, Hn1, Hi1.
  split; [| split; [exact Hlen2 | split; [exact Hself |]]].
  2: { simpl. repeat split; try assumption; try reflexivity.
       intros t p Hp. destruct (Hps2 t p (Holds t p Hp))
         as (p2 & Hp2 & Hb & Hnf & Hif & Hbm).
       exists p2. split; [exact Hp2 |].
       rewrite decide_False in Hbm
         by (apply lookup_lt_Some in Hp; subst this; lia).
       unfold same_frames. auto. }
  exists (splice k this l). cbn [head pools].
  split; [| split; [| split]].
  - apply (linked_ext _ ps1).
    + rewrite Hhd'. eapply relinked_linked; eassumption.
    + intros x p Hp. subst ps2. rewrite list_lookup_alter.
      destruct (Nat.eq_dec this x) as [<- | Hne];
        [rewrite decide_True by reflexivity
        | rewrite decide_False by exact Hne];
        rewrite Hp; simpl; eexists; (split; [reflexivity |]); auto.
  - rewrite length_splice, Hlen2, Hlen. reflexivity.
  - assert (Hnewbase : forall p, ps2 !! this = Some p -> base_frame_no p = base).
    { intros p Hp. rewrite Hself in Hp. injection Hp as <-. exact Hb1. }
    assert (Holdbase : forall i' x p, l !! i' = Some x -> ps2 !! x = Some p ->
              exists p0, pools st !! x = Some p0 /\ ps0 !! x = Some p0 /\
                         base_frame_no p = base_frame_no p0).
    { intros i' x p Hx Hp. destruct Hlk as (_ & _ & Hl).
      destruct (Hl i' x Hx) as (p0 & Hp0 & _).
      destruct (Hps2 x p0 (Holds x p0 Hp0)) as (p2 & Hp2 & Hb & _).
      exists p0. split; [exact Hp0 |]. split; [apply Holds; exact Hp0 |].
      congruence. }
    intros i j x y p q Hij Hi Hj Hp Hq.
    rewrite lookup_splice in Hi, Hj by exact Hk.
    destruct (lt_eq_lt_dec i k) as [[Hik | ->] | Hik];
      destruct (lt_eq_lt_dec j k) as [[Hjk | ->] | Hjk]; try lia.
    + rewrite decide_True in Hi by lia. rewrite decide_True in Hj by lia.
      destruct (Holdbase _ _ _ Hi Hp) as (p0 & Hp0 & _ & ->).
      destruct (Holdbase _ _ _ Hj Hq) as (q0 & Hq0 & _ & ->).
      exact (Hsorted i j x y p0 q0 Hij Hi Hj Hp0 Hq0).
    + rewrite decide_True in Hi by lia.
      rewrite decide_False, decide_True in Hj by lia. injection Hj as <-.
      destruct (Holdbase _ _ _ Hi Hp) as (p0 & _ & Hp0 & ->).
      rewrite (Hnewbase q Hq).
      pose proof (Hlow i x p0 Hik Hi Hp0). lia.
    + rewrite decide_True in Hi by lia.
      rewrite !decide_False in Hj by lia.
      destruct (Holdbase _ _ _ Hi Hp) as (p0 & Hp0 & _ & ->).
      destruct (Holdbase _ _ _ Hj Hq) as (q0 & Hq0 & _ & ->).
      apply (Hsorted i (j - 1)%nat x y p0 q0); [lia | assumption ..].
    + rewrite decide_False, decide_True in Hi by lia. injection Hi as <-.
      rewrite decide_False, decide_True in Hj by lia. injection Hj as <-.
      rewrite (Hnewbase p Hp), (Hnewbase q Hq). lia.
    + rewrite decide_False, decide_True in Hi by lia. injection Hi as <-.
      rewrite !decide_False in Hj by lia.
      rewrite (Hnewbase p Hp).
      destruct (Holdbase _ _ _ Hj Hq) as (q0 & Hq0 & _ & ->).
      destruct (l !! k) as [z |] eqn:Hz;
        [| apply lookup_ge_None in Hz; apply lookup_lt_Some in Hj; lia].
      destruct Hlk as (_ & _ & Hl).
      destruct (Hl k z Hz) as (z0 & Hz0 & _).
      pose proof (Hhere z z0 eq_refl (Holds z z0 Hz0)).
      pose proof (Hsorted k (j - 1)%nat z y z0 q0 ltac:(lia) Hz Hj Hz0 Hq0).
      lia.
    + rewrite !decide_False in Hi by lia. rewrite !decide_False in Hj by lia.
      destruct (Holdbase _ _ _ Hi Hp) as (p0 & Hp0 & _ & ->).
      destruct (Holdbase _ _ _ Hj Hq) as (q0 & Hq0 & _ & ->).
      apply (Hsorted (i - 1)%nat (j - 1)%nat x y p0 q0); [lia | assumption ..].
  - intros t p Hp.
    assert (Ht : (t < length ps0)%nat).
    { apply lookup_lt_Some in Hp. subst ps0. rewrite length_app. simpl. lia. }
    apply lookup_lt_is_Some in Ht as (p0 & Hp0).
    destruct (Hps2 t p0 Hp0) as (p2 & Hp2 & Hb & Hnf & Hif & Hbm).
    assert (p2 = p) by congruence. subst p2.
    destruct (Nat.eq_dec t this) as [-> | Hne].
    + rewrite decide_True in Hbm by reflexivity.
      assert (p0 = new) by congruence. subst p0. simpl in Hb, Hnf.
      unfold pool_ok. rewrite Hb, Hnf, Hbm.
      split; [exact Hbase |]. split; [exact Hn |].
      apply (bitmap_addr_aligned base info).
    + rewrite decide_False in Hbm by exact Hne.
      assert (Hold : pools st !! t = Some p0).
      { subst ps0. rewrite lookup_app_l in Hp0; [exact Hp0 |].
        apply lookup_lt_Some in Hp0. rewrite length_app in Hp0. simpl in Hp0.
        subst this. lia. }
      apply (pool_ok_same_frames p0); [unfold same_frames; auto |].
      exact (Hok t p0 Hold).
Qed.

(** ** Walking the registry *)

Lemma chain_linked (hd : option ptr) (ps : list Pool) (l : list ptr) :
  linked hd ps l ->
  forall (fuel i : nat), (length l - i <= fuel)%nat ->
    chain fuel ps (l !! i) = drop i l.
Proof.
  intros (_ & _ & Hl). induction fuel as [| fuel IH]; intros i Hfuel.
  - rewrite drop_ge by lia. reflexivity.
  - destruct (l !! i) as [x |] eqn:Hi.
    + destruct (Hl i x Hi) as (p & Hp & Hnx & _).
      simpl. rewrite Hp, Hnx, IH by lia.
      symmetry. apply drop_S. exact Hi.
    + apply lookup_ge_None in Hi. rewrite drop_ge by lia. reflexivity.
Qed.

Lemma registry_linked (st : State) (l : list ptr) :
  linked (head st) (pools st) l -> length l = length (pools st) ->
  registry st = l.
Proof.
  intros Hlk Hlen. unfold registry.
  pose proof Hlk as (_ & -> & _).
  rewrite (chain_linked _ _ _ Hlk) by lia. apply drop_0.
Qed.

Lemma release_walk_route (st : State) (f : Z) (l : list ptr) :
  linked (head st) (pools st) l ->
  forall (fuel i : nat), (length l - i < fuel)%nat ->
    release_walk fuel st f (l !! i)
    = match route (pools st) f (drop i l) with
      | Some p => release_run st p (wrap32 (f - base_frame_no p))
      | None => Done st
      end.
Proof.
  intros (_ & _ & Hl). induction fuel as [| fuel IH]; intros i Hfuel; [lia |].
  destruct (l !! i) as [x |] eqn:Hi.
  - destruct (Hl i x Hi) as (p & Hp & Hnx & _).
    rewrite (drop_S _ _ _ Hi). simpl.
    rewrite (deref_Some _ _ _ Hp), Hp. cbn [bind].
    destruct (base_frame_no p <=? f); [| reflexivity].
    destruct (f <=? wrap32 (base_frame_no p + nframes p - 1)); [reflexivity |].
    rewrite Hnx. apply IH. apply lookup_lt_Some in Hi. lia.
  - apply lookup_ge_None in Hi. rewrite drop_ge by lia. reflexivity.
Qed.

Lemma release_frames_route (st : State) (f : Z) (l : list ptr) :
  linked (head st) (pools st) l -> length l = length (pools st) ->
  release_frames st f
  = match route (pools st) f l with
    | Some p => release_run st p (wrap32 (f - base_frame_no p))
    | None => Done st
    end.
Proof.
  intros Hlk Hlen. unfold release_frames.
  pose proof Hlk as (_ & -> & _).
  rewrite (release_walk_route st f l Hlk) by lia.
  rewrite drop_0. reflexivity.
Qed.

Lemma route_Some (ps : list Pool) (f : Z) (l : list ptr) (p : Pool) :
  route ps f l = Some p ->
  exists t, t ∈ l /\ ps !! t = Some p /\
            base_frame_no p <= f <= wrap32 (base_frame_no p + nframes p - 1).
Proof.
  induction l as [| t l IH]; simpl; [discriminate |].
  destruct (ps !! t) as [q |] eqn:Hq; [| discriminate].
  destruct (Z.leb_spec (base_frame_no q) f) as [Hlo |]; [| discriminate].
  destruct (Z.leb_spec f (wrap32 (base_frame_no q + nframes q - 1))) as [Hhi |].
  - intros [= <-]. exists t. split; [left |]. split; [exact Hq | lia].
  - intros Hr. destruct (IH Hr) as (t' & Hin & Hrest).
    exists t'. split; [right; exact Hin | exact Hrest].
Qed.

(** Passing both tests of the loop puts [f] inside the pool's range, and
    the relative index is computed without wrap-around. *)
Lemma hit_in_range (p : Pool) (f : Z) :
  pool_ok p ->
  base_frame_no p <= f <= wrap32 (base_frame_no p + nframes p - 1) ->
  in_range p f /\ wrap32 (f - base_frame_no p) = f - base_frame_no p.
Proof.
  unfold pool_ok, u32, in_range, wrap32. change (2 ^ 32) with 4294967296.
  intros (Hb & Hn & _) Hhit.
  assert (base_frame_no p + nframes p - 1 < 4294967296)
    by (Z.div_mod_to_equations; lia).
  rewrite Z.mod_small in Hhit by lia.
  split; [lia |]. apply Z.mod_small. lia.
Qed.

(** C2. Release at relative index [k < nframes]: on a head of sequence,
    frame [k] and the [Used] frames that follow it, up to the first frame
    [e] that is [Free] or a head of sequence or the end of the pool, become
    [Free], and nothing else in the pool changes; on any other state the
    call only appends the diagnostic to the console and memory is
    unchanged.  This is what [release_frames (base_frame_no + k)] does
    whenever its walk through the registry stops at the pool. *)
Theorem release_run_spec (st : State) (p : Pool) (k : Z) :
  pool_ok p -> 0 <= k < nframes p ->
  (get_state (mem st) p k = HoS ->
   exists e st',
     release_run st p k = Done st' /\
     k < e <= nframes p /\
     (forall j, k < j < e -> get_state (mem st) p j = Used) /\
     (e < nframes p ->
      get_state (mem st) p e = Free \/ get_state (mem st) p e = HoS) /\
     (forall j, k <= j < e -> get_state (mem st') p j = Free) /\
     (forall j, 0 <= j < nframes p -> ~ (k <= j < e) ->
        get_state (mem st') p j = get_state (mem st) p j) /\
     console st' = console st /\ pools st' = pools st /\ head st' = head st)
  /\
  (get_state (mem st) p k <> HoS ->
   exists st',
     release_run st p k = Done st' /\
     mem st' = mem st /\
     console st' = console st ++ [msg_not_head] /\
     pools st' = pools st /\ head st' = head st)
  /\
  (forall l,
     linked (head st) (pools st) l -> length l = length (pools st) ->
     route (pools st) (base_frame_no p + k) l = Some p ->
     release_frames st (base_frame_no p + k) = release_run st p k).
Proof.
  intros Hp Hk. split; [| split].
  - intros Hhead.
    destruct (release_run_head st p k Hp Hk Hhead)
      as (e & m' & Hrun & He & Hused & Hstop & Hget & _).
    exists e, (with_mem st m'). split; [exact Hrun |]. split; [exact He |].
    split; [exact Hused |]. split; [| split; [| split]].
    + intros Hlt. specialize (Hstop Hlt).
      destruct (get_state (mem st) p e); [left | contradiction | right]; reflexivity.
    + intros j Hj. simpl. rewrite Hget by lia. zcases; try reflexivity; lia.
    + intros j Hj Hout. simpl. rewrite Hget by lia. zcases; try reflexivity; lia.
    + simpl. auto.
  - intros Hnot. exists (puts st msg_not_head).
    split; [apply release_run_not_head; exact Hnot |]. simpl. auto.
  - intros l Hlk Hlen Hroute.
    rewrite (release_frames_route st _ l Hlk Hlen), Hroute.
    replace (base_frame_no p + k - base_frame_no p) with k by lia.
    pose proof (pool_ok_nframes p Hp).
    rewrite wrap32_small by (unfold u32; lia). reflexivity.
Qed.

Lemma release_run_spec_witness :
  pool_ok small_pool /\ 0 <= 0 < nframes small_pool /\
  exists st',
    release_run idle_state small_pool 0 = Done st' /\
    mem st' = mem idle_state /\
    console st' = console idle_state ++ [msg_not_head].
Proof.
  assert (Hp : pool_ok small_pool) by (vm_compute; intuition congruence).
  assert (Hk : 0 <= 0 < nframes small_pool) by (simpl; lia).
  split; [exact Hp |]. split; [exact Hk |].
  destruct (proj1 (proj2 (release_run_spec idle_state small_pool 0 Hp Hk)))
    as (st' & Hrun & Hmem & Hcon & _).
  - vm_compute. congruence.
  - exists st'. auto.
Defined.

(** ** Reachable states *)

Lemma ContFramePool_Done (st st' : State) (base n info : Z) :
  u32 n -> ContFramePool st base n info = Done st' -> 1 <= n <= 16384.
Proof.
  intros Hn H. apply (ctor_asserts n Hn). unfold ContFramePool, assert in H.
  destruct (Z.leb_spec n (wrap32 (FRAME_SIZE * 8) / 2)); [| discriminate].
  destruct (Z.eqb_spec (needed_info_frames n) 1); [| discriminate].
  split; assumption.
Qed.

Lemma release_run_shape (st st' : State) (p : Pool) (k : Z) :
  release_run st p k = Done st' ->
  head st' = head st /\ pools st' = pools st.
Proof.
  unfold release_run.
  destruct (FrameState_eqb (get_state (mem st) p k) HoS).
  - destruct (release_tail _ _ _ _); cbn [bind]; try discriminate.
    intros [= <-]. split; reflexivity.
  - intros [= <-]. split; reflexivity.
Qed.

Lemma release_walk_shape (f : Z) (st st' : State) (fuel : nat) :
  forall tmp, release_walk fuel st f tmp = Done st' ->
  head st' = head st /\ pools st' = pools st.
Proof.
  induction fuel as [| fuel IH]; intros tmp; simpl; [discriminate |].
  destruct tmp as [t |]; [| intros [= <-]; split; reflexivity].
  destruct (deref (pools st) t) as [p | |]; cbn [bind]; try discriminate.
  destruct (base_frame_no p <=? f); [| intros [= <-]; split; reflexivity].
  destruct (f <=? wrap32 (base_frame_no p + nframes p - 1)).
  - apply release_run_shape.
  - apply IH.
Qed.

Lemma release_frames_shape (st st' : State) (f : Z) :
  release_frames st f = Done st' ->
  head st' = head st /\ pools st' = pools st.
Proof. apply release_walk_shape. Qed.

Lemma registry_ok_shape (st st' : State) :
  head st' = head st -> pools st' = pools st ->
  registry_ok st -> registry_ok st'.
Proof. unfold registry_ok. intros -> ->. auto. Qed.

Lemma registry_ok_boot (m : Mem) : registry_ok (initial_state m).
Proof.
  exists []. simpl. split; [| split; [reflexivity | split]].
  - split; [constructor |]. split; [reflexivity |]. intros i x Hi. discriminate.
  - intros i j x y p q _ Hi. discriminate.
  - intros t p Hp. discriminate.
Qed.

Lemma reachable_ok (st : State) : reachable st -> registry_ok st.
Proof.
  induction 1 as [m | st st' base n info _ IH Hb Hn Hi Hrun
                 | st t p n m' r _ IH _ _ _
                 | st t p b n _ IH _ _ _
                 | st st' f _ IH _ Hrun].
  - apply registry_ok_boot.
  - pose proof (ContFramePool_Done _ _ _ _ _ Hn Hrun) as Hn'.
    destruct (ContFramePool_spec st base n info IH Hb Hn')
      as (st'' & self & Hrun' & Hok & _).
    congruence.
  - exact (registry_ok_shape st _ eq_refl eq_refl IH).
  - exact (registry_ok_shape st _ eq_refl eq_refl IH).
  - destruct (release_frames_shape _ _ _ Hrun) as (Hh & Hp).
    exact (registry_ok_shape st st' Hh Hp IH).
Qed.

(** ** The registry is sorted *)

Lemma sorted_positions (ps : list Pool) (l : list ptr) :
  sorted_by_base ps l ->
  StronglySorted Z.le (base_frame_no <$> omap (fun t => ps !! t) l).
Proof.
  induction l as [| x l IH]; intros Hs; simpl; [constructor |].
  assert (Htail : sorted_by_base ps l).
  { intros i j a b p q Hij Hi Hj. apply (Hs (S i) (S j)); [lia | assumption ..]. }
  destruct (ps !! x) as [p |] eqn:Hp; [| exact (IH Htail)].
  simpl. constructor; [exact (IH Htail) |].
  apply Forall_forall. intros b Hb.
  apply list_elem_of_fmap in Hb as (q & -> & Hq).
  apply list_elem_of_omap in Hq as (y & Hy & Hq).
  apply list_elem_of_lookup in Hy as (j & Hj).
  apply (Hs 0%nat (S j) x y p q); [lia | reflexivity | assumption ..].
Qed.

Lemma omap_total_length (ps : list Pool) (l : list ptr) :
  (forall x, x ∈ l -> is_Some (ps !! x)) ->
  length (omap (fun t => ps !! t) l) = length l.
Proof.
  induction l as [| x l IH]; intros H; simpl; [reflexivity |].
  destruct (H x ltac:(left)) as (p & ->). simpl.
  f_equal. apply IH. intros y Hy. apply H. right. exact Hy.
Qed.

Lemma registry_ok_sorted (st : State) :
  registry_ok st ->
  registry_sorted st /\ length (registry_pools st) = length (pools st).
Proof.
  intros (l & Hlk & Hlen & Hs & _).
  unfold registry_sorted, registry_pools.
  rewrite (registry_linked st l Hlk Hlen). split.
  - apply sorted_positions. exact Hs.
  - rewrite <- Hlen. apply omap_total_length.
    intros x Hx. apply list_elem_of_lookup in Hx as (i & Hi).
    destruct Hlk as (_ & _ & Hl). destruct (Hl i x Hi) as (p & Hp & _).
    exists p. exact Hp.
Qed.

Lemma construct_all_spec (args : list (Z * Z * Z)) :
  forall (st st' : State),
    reachable st -> Forall args_ok args ->
    construct_all st args = Done st' ->
    reachable st' /\
    length (pools st') = (length (pools st) + length args)%nat /\
    (forall t p, pools st !! t = Some p ->
       exists p', pools st' !! t = Some p' /\ same_frames p p') /\
    (forall i a, args !! i = Some a ->
       exists p, pools st' !! (length (pools st) + i)%nat = Some p /\
                 base_frame_no p = a.1.1 /\ nframes p = a.1.2).
Proof.
  induction args as [| [[base n] info] args IH]; intros st st' Hr Hargs Hrun.
  - simpl in Hrun. injection Hrun as <-.
    split; [exact Hr |]. split; [simpl; lia |]. split.
    + intros t p Hp. exists p. split; [exact Hp | apply same_frames_refl].
    + intros i a Hi. discriminate.
  - apply Forall_cons in Hargs as ((Hb & Hn & Hi) & Hargs). simpl in Hb, Hn, Hi.
    simpl in Hrun.
    destruct (ContFramePool st base n info) as [st1 | |] eqn:Hctor;
      cbn [bind] in Hrun; try discriminate.
    pose proof (ContFramePool_Done _ _ _ _ _ Hn Hctor) as Hn'.
    destruct (ContFramePool_spec st base n info (reachable_ok st Hr) Hb Hn')
      as (st1' & self & Hctor' & _ & Hlen1 & Hself & Hsb & Hsn & _ & _ & Hold & _).
    assert (st1' = st1) by congruence. subst st1'.
    assert (Hr1 : reachable st1)
      by exact (reach_ctor st st1 base n info Hr Hb Hn Hi Hctor).
    destruct (IH st1 st' Hr1 Hargs Hrun) as (Hr' & Hlen' & Hold' & Hnew').
    split; [exact Hr' |]. split; [simpl; lia |]. split.
    + intros t p Hp. destruct (Hold t p Hp) as (p1 & Hp1 & Hs1).
      destruct (Hold' t p1 Hp1) as (p' & Hp' & Hs').
      exists p'. split; [exact Hp' |].
      unfold same_frames in *. intuition congruence.
    + intros i a Ha. destruct i as [| i]; simpl in Ha.
      * injection Ha as <-. rewrite Nat.add_0_r.
        destruct (Hold' _ self Hself) as (p' & Hp' & (Hb' & Hn'' & _)).
        exists p'. split; [exact Hp' |]. simpl. split; congruence.
      * destruct (Hnew' i a Ha) as (p & Hp & Hfields).
        exists p. split; [| exact Hfields].
        rewrite <- Hp. f_equal. lia.
Qed.

(** C6, as the code has it.  After any sequence of constructor calls that
    all return, the list read from [head] along [next] is a well-formed
    doubly linked list, holds every constructed pool and is sorted
    ascending (pools with equal bases may follow one another) by
    [base_frame_no]; the frame ranges in the registry are pairwise disjoint
    when the ranges passed to the constructor were, which the constructor
    does not check. *)
Theorem registry_sorted_after_constructions
        (m : Mem) (args : list (Z * Z * Z)) (st : State) :
  Forall args_ok args ->
  construct_all (initial_state m) args = Done st ->
  linked (head st) (pools st) (registry st) /\
  registry_sorted st /\
  length (registry_pools st) = length args /\
  (args_disjoint args -> disjoint_ranges (pools st)).
Proof.
  intros Hargs Hrun.
  destruct (construct_all_spec args _ _ (reach_boot m) Hargs Hrun)
    as (Hr & Hlen & _ & Hnew). simpl in Hlen, Hnew.
  destruct (registry_ok_sorted st (reachable_ok st Hr)) as (Hsorted & Hall).
  split.
  { destruct (reachable_ok st Hr) as (l & Hlk & Hll & _).
    rewrite (registry_linked st l Hlk Hll). exact Hlk. }
  split; [exact Hsorted |]. split; [congruence |].
  intros Hdis t t' p q Hne Hp Hq.
  assert (Ht : (t < length args)%nat) by (apply lookup_lt_Some in Hp; lia).
  assert (Ht' : (t' < length args)%nat) by (apply lookup_lt_Some in Hq; lia).
  apply lookup_lt_is_Some in Ht as (a & Ha).
  apply lookup_lt_is_Some in Ht' as (b & Hb).
  destruct (Hnew t a Ha) as (p' & Hp' & Hpb & Hpn).
  destruct (Hnew t' b Hb) as (q' & Hq' & Hqb & Hqn).
  assert (p' = p) by congruence. assert (q' = q) by congruence. subst p' q'.
  rewrite Hpb, Hpn, Hqb, Hqn. exact (Hdis t t' a b Hne Ha Hb).
Qed.

Lemma registry_sorted_after_constructions_witness :
  Forall args_ok [(1024, 8, 0); (512, 8, 0)] /\
  two_pools = Done (state_of two_pools) /\
  registry_sorted (state_of two_pools).
Proof.
  assert (Hargs : Forall args_ok [(1024, 8, 0); (512, 8, 0)]).
  { repeat constructor; simpl; unfold u32; lia. }
  assert (Hrun : two_pools = Done (state_of two_pools))
    by (vm_compute; reflexivity).
  split; [exact Hargs |]. split; [exact Hrun |].
  exact (proj1 (proj2 (registry_sorted_after_constructions zero_mem _ _ Hargs Hrun))).
Defined.

(** C6 fails as stated: two constructor calls with overlapping ranges both
    succeed and leave frame 517 inside the ranges of two registry pools. *)
Lemma overlapping_pools_constructed :
  overlapping_pools = Done (state_of overlapping_pools) /\
  registry (state_of overlapping_pools) = [0%nat; 1%nat] /\
  ~ disjoint_ranges (pools (state_of overlapping_pools)).
Proof.
  split; [vm_compute; reflexivity |]. split; [vm_compute; reflexivity |].
  intros H.
  destruct (pools (state_of overlapping_pools) !! 0%nat) as [p |] eqn:Hp;
    [| vm_compute in Hp; discriminate].
  destruct (pools (state_of overlapping_pools) !! 1%nat) as [q |] eqn:Hq;
    [| vm_compute in Hq; discriminate].
  specialize (H 0%nat 1%nat p q ltac:(lia) Hp Hq).
  vm_compute in Hp, Hq. injection Hp as <-. injection Hq as <-.
  simpl in H. lia.
Qed.

(** ** Static release: routing to the owning pool *)

(** A registry of two pools, to run the routing results on. *)
Lemma two_pools_store : pools (state_of two_pools) = [high_pool; low_pool].
Proof. vm_compute. reflexivity. Qed.

Lemma two_pools_reachable : reachable (state_of two_pools).
Proof.
  assert (Hargs : Forall args_ok [(1024, 8, 0); (512, 8, 0)]).
  { repeat constructor; simpl; unfold u32; lia. }
  assert (Hrun : two_pools = Done (state_of two_pools))
    by (vm_compute; reflexivity).
  exact (proj1 (construct_all_spec _ _ _ (reach_boot zero_mem) Hargs Hrun)).
Qed.

Lemma disjoint_ranges_pair (p q : Pool) :
  base_frame_no p + nframes p <= base_frame_no q \/
  base_frame_no q + nframes q <= base_frame_no p ->
  disjoint_ranges [p; q].
Proof.
  intros H t t' a b Hne Ha Hb.
  destruct t as [| [| t]]; destruct t' as [| [| t']];
    try discriminate; try lia;
    injection Ha as <-; injection Hb as <-; lia.
Qed.

Lemma separate_bitmaps_pair (p q : Pool) :
  bitmap p <> bitmap q -> separate_bitmaps [p; q].
Proof.
  intros H t t' a b Hne Ha Hb.
  destruct t as [| [| t]]; destruct t' as [| [| t']];
    try discriminate; try lia;
    injection Ha as <-; injection Hb as <-; congruence.
Qed.

Lemma release_run_within (st : State) (p : Pool) (k : Z) :
  pool_ok p -> 0 <= k < nframes p ->
  exists st', release_run st p k = Done st' /\
              head st' = head st /\ pools st' = pools st /\
              within p (mem st) (mem st').
Proof.
  intros Hp Hk.
  destruct (get_state (mem st) p k) eqn:E.
  - exists (puts st msg_not_head).
    rewrite release_run_not_head by congruence.
    repeat split; apply within_refl.
  - exists (puts st msg_not_head).
    rewrite release_run_not_head by congruence.
    repeat split; apply within_refl.
  - destruct (release_run_head st p k Hp Hk E) as (e & m' & Hrun & _ & _ & _ & _ & Hw).
    exists (with_mem st m'). repeat split; assumption.
Qed.

Lemma in_range_unique (ps : list Pool) (f : Z) (t t' : ptr) (p q : Pool) :
  disjoint_ranges ps -> ps !! t = Some p -> ps !! t' = Some q ->
  in_range p f -> in_range q f -> t' = t.
Proof.
  intros Hd Hp Hq Hpf Hqf.
  destruct (Nat.eq_dec t t') as [-> | Hne]; [reflexivity |].
  destruct (Hd t t' p q Hne Hp Hq); unfold in_range in *; lia.
Qed.

(** With sorted bases and disjoint ranges the walk reaches the pool whose
    range holds [f]. *)
Lemma route_finds (ps : list Pool) (f : Z) (l : list ptr) :
  (forall x, x ∈ l -> exists q, ps !! x = Some q /\ pool_ok q) ->
  NoDup l -> sorted_by_base ps l -> disjoint_ranges ps ->
  forall (i : nat) (t : ptr) (p : Pool),
    l !! i = Some t -> ps !! t = Some p ->
    in_range p f -> base_frame_no p + nframes p <= 2 ^ 32 ->
    route ps f l = Some p.
Proof.
  induction l as [| x l IH]; intros Hall Hnd Hs Hd i t p Hi Hp Hin Hfit;
    [discriminate |].
  apply NoDup_cons in Hnd as (Hx & Hnd).
  destruct (Hall x ltac:(left)) as (q & Hq & Hqok).
  simpl. rewrite Hq.
  destruct i as [| i]; simpl in Hi.
  - injection Hi as ->. assert (q = p) by congruence. subst q.
    destruct Hqok as (Hb & Hn & _). unfold u32, in_range in *.
    rewrite wrap32_small by (unfold u32; lia).
    destruct (Z.leb_spec (base_frame_no p) f); [| lia].
    destruct (Z.leb_spec f (base_frame_no p + nframes p - 1)); [reflexivity | lia].
  - assert (Hxt : x <> t).
    { intros ->. apply Hx. apply list_elem_of_lookup. eauto. }
    pose proof (Hs 0%nat (S i) x t q p ltac:(lia) eq_refl Hi Hq Hp) as Hle.
    destruct (Z.leb_spec (base_frame_no q) f) as [Hlo | Hlo];
      [| unfold in_range in Hin; lia].
    destruct (Z.leb_spec f (wrap32 (base_frame_no q + nframes q - 1)))
      as [Hhi | Hhi].
    + exfalso. destruct (hit_in_range q f Hqok ltac:(lia)) as (Hqin & _).
      apply Hxt. exact (in_range_unique ps f t x p q Hd Hp Hq Hin Hqin).
    + apply (IH ltac:(intros y Hy; apply Hall; right; exact Hy) Hnd
                ltac:(intros a b c d e g Hab Ha Hb;
                      apply (Hs (S a) (S b)); [lia | assumption ..])
                Hd i t p Hi Hp Hin Hfit).
Qed.

(** C7, as the code has it.  In a state reached by constructor and
    operation calls in which the pools' ranges are pairwise disjoint and
    their bitmaps lie in separate frames, the static [release_frames f]
    returns and leaves the registry as it was; it changes memory only inside
    the bitmap of the one pool whose range holds [f]: every entry of every
    other pool reads as before, and when no pool's range holds [f] the state
    is unchanged. *)
Theorem release_frames_one_pool (st : State) (f : Z) :
  reachable st -> u32 f ->
  disjoint_ranges (pools st) -> separate_bitmaps (pools st) ->
  exists st',
    release_frames st f = Done st' /\
    head st' = head st /\ pools st' = pools st /\
    ((forall t p, pools st !! t = Some p -> ~ in_range p f) -> st' = st) /\
    (forall t p, pools st !! t = Some p -> in_range p f ->
       (forall t' q, pools st !! t' = Some q -> in_range q f -> t' = t) /\
       within p (mem st) (mem st') /\
       (forall t' q, pools st !! t' = Some q -> t' <> t ->
          forall j, 0 <= j < nframes q ->
            get_state (mem st') q j = get_state (mem st) q j)).
Proof.
  intros Hr Hf Hd Hsep.
  destruct (reachable_ok st Hr) as (l & Hlk & Hlen & Hs & Hok).
  rewrite (release_frames_route st f l Hlk Hlen).
  destruct (route (pools st) f l) as [p0 |] eqn:Hroute.
  - destruct (route_Some _ _ _ _ Hroute) as (t0 & _ & Hp0 & Hhit).
    pose proof (Hok t0 p0 Hp0) as Hp0ok.
    destruct (hit_in_range p0 f Hp0ok Hhit) as (Hin0 & Hrel).
    rewrite Hrel.
    destruct (release_run_within st p0 (f - base_frame_no p0) Hp0ok)
      as (st' & Hrun & Hh & Hps & Hw); [unfold in_range in Hin0; lia |].
    exists st'. split; [exact Hrun |]. split; [exact Hh |]. split; [exact Hps |].
    split.
    + intros Hnone. exfalso. exact (Hnone t0 p0 Hp0 Hin0).
    + intros t p Hp Hin.
      assert (t0 = t) by exact (in_range_unique _ f t t0 p p0 Hd Hp Hp0 Hin Hin0).
      subst t0. assert (p0 = p) by congruence. subst p0.
      split; [| split; [exact Hw |]].
      * intros t' q Hq Hqin. exact (in_range_unique _ f t t' p q Hd Hp Hq Hin Hqin).
      * intros t' q Hq Hne j Hj.
        apply (within_get_state p q); try assumption.
        -- exact (Hok t' q Hq).
        -- apply (Hsep t t' p q); [congruence | assumption ..].
  - exists st. split; [reflexivity |]. split; [reflexivity |].
    split; [reflexivity |]. split; [reflexivity |].
    intros t p Hp Hin.
    split; [| split; [apply within_refl | reflexivity]].
    intros t' q Hq Hqin. exact (in_range_unique _ f t t' p q Hd Hp Hq Hin Hqin).
Qed.

(** C7 fails as stated.  When two pools were given the same info frame, a
    release in the low pool frees an entry of the high pool, whose range
    does not hold the released frame; and when two pools were constructed
    with overlapping ranges, frame 517 has no unique owner. *)
Lemma release_frames_shared_bitmap :
  (shared_info = Done (state_of shared_info) /\
   pools (state_of shared_info) = [shared_low; shared_high] /\
   returned (get_frames (mem (state_of shared_info)) shared_low 1) = Some 512 /\
   release_frames shared_allocated 512
   = Done (state_of (release_frames shared_allocated 512)) /\
   ~ in_range shared_high 512 /\
   get_state (mem shared_allocated) shared_high 0 = HoS /\
   get_state (mem (state_of (release_frames shared_allocated 512)))
             shared_high 0 = Free)
  /\
  (pools (state_of overlapping_pools) = [over_low; over_high] /\
   in_range over_low 517 /\ in_range over_high 517).
Proof.
  repeat split; try (vm_compute; reflexivity);
    unfold in_range; simpl; lia.
Qed.

Lemma release_frames_one_pool_witness :
  reachable (state_of two_pools) /\ u32 514 /\
  disjoint_ranges (pools (state_of two_pools)) /\
  separate_bitmaps (pools (state_of two_pools)) /\
  exists st',
    release_frames (state_of two_pools) 514 = Done st' /\
    forall j, 0 <= j < nframes high_pool ->
      get_state (mem st') high_pool j
      = get_state (mem (state_of two_pools)) high_pool j.
Proof.
  pose proof two_pools_reachable as Hr.
  assert (Hf : u32 514) by (unfold u32; lia).
  assert (Hd : disjoint_ranges (pools (state_of two_pools))).
  { rewrite two_pools_store. apply disjoint_ranges_pair. simpl. lia. }
  assert (Hs : separate_bitmaps (pools (state_of two_pools))).
  { rewrite two_pools_store. apply separate_bitmaps_pair. simpl. lia. }
  repeat (split; [assumption |]).
  destruct (release_frames_one_pool _ 514 Hr Hf Hd Hs)
    as (st' & Hrun & _ & _ & _ & Hin).
  exists st'. split; [exact Hrun |].
  assert (Hlow : pools (state_of two_pools) !! 1%nat = Some low_pool)
    by (rewrite two_pools_store; reflexivity).
  assert (Hhigh : pools (state_of two_pools) !! 0%nat = Some high_pool)
    by (rewrite two_pools_store; reflexivity).
  destruct (Hin 1%nat low_pool Hlow ltac:(unfold in_range; simpl; lia))
    as (_ & _ & Hothers).
  exact (Hothers 0%nat high_pool Hhigh ltac:(lia)).
Defined.

(** Every constructed pool is in the registry. *)
Lemma registry_complete (hd : option ptr) (ps : list Pool) (l : list ptr) (t : ptr) :
  linked hd ps l -> length l = length ps -> (t < length ps)%nat -> t ∈ l.
Proof.
  intros Hlk Hlen Ht. pose proof Hlk as (Hnd & _).
  apply NoDup_ListNoDup in Hnd. apply list_elem_of_In.
  apply (NoDup_length_incl Hnd (l' := seq 0 (length ps))).
  - rewrite length_seq. lia.
  - intros x Hx. apply in_seq. apply list_elem_of_In in Hx.
    pose proof (linked_lt _ _ _ _ Hlk Hx). lia.
  - apply in_seq. lia.
Qed.

(** C9, as the code has it.  For a pool of a reachable state whose
    registry ranges are pairwise disjoint and lie below 2^32, and for any
    memory contents [m]: [mark_inaccessible b n] with [n >= 1] and
    [b + n <= nframes], followed by [release_frames (b + base_frame_no)],
    returns and leaves the [n] frames [b .. b + n - 1] free. *)
Theorem mark_then_release (st : State) (m : Mem) (t : ptr) (p : Pool) (b n : Z) :
  reachable st -> disjoint_ranges (pools st) ->
  pools st !! t = Some p -> base_frame_no p + nframes p <= 2 ^ 32 ->
  1 <= n -> 0 <= b -> b + n <= nframes p ->
  exists st',
    release_frames (with_mem st (mark_inaccessible m p b n))
                   (b + base_frame_no p) = Done st' /\
    forall j, b <= j < b + n -> get_state (mem st') p j = Free.
Proof.
  intros Hr Hd Hp Hfit Hn Hb Hbn.
  destruct (reachable_ok st Hr) as (l & Hlk & Hlen & Hs & Hok).
  pose proof (Hok t p Hp) as Hpok.
  pose proof (pool_ok_nframes p Hpok) as Hnf.
  pose proof Hpok as (Hbase & _). unfold u32 in Hbase.
  set (m1 := mark_inaccessible m p b n).
  rewrite (release_frames_route (with_mem st m1) _ l Hlk Hlen). cbn [pools with_mem].
  assert (Hin : t ∈ l).
  { apply (registry_complete _ _ _ _ Hlk Hlen).
    eapply lookup_lt_Some. exact Hp. }
  apply list_elem_of_lookup in Hin as (i & Hi).
  rewrite (route_finds (pools st) (b + base_frame_no p) l) with (i := i) (t := t) (p := p);
    try assumption.
  2: { intros x Hx. apply list_elem_of_lookup in Hx as (ix & Hx).
       destruct Hlk as (_ & _ & Hl). destruct (Hl ix x Hx) as (q & Hq & _).
       exists q. split; [exact Hq | exact (Hok x q Hq)]. }
  2: { destruct Hlk as (Hnd & _). exact Hnd. }
  2: { unfold in_range. lia. }
  replace (b + base_frame_no p - base_frame_no p) with b by lia.
  rewrite wrap32_small by (unfold u32; lia).
  assert (Hget : forall j, 0 <= j < nframes p ->
            get_state m1 p j
            = if j =? b then HoS
              else if (b <? j) && (j <? b + n) then Used
                   else get_state m p j).
  { intros j Hj. apply mark_inaccessible_get; unfold u32; lia. }
  assert (Hhead : get_state (mem (with_mem st m1)) p b = HoS).
  { simpl. rewrite Hget by lia. rewrite Z.eqb_refl. reflexivity. }
  destruct (release_run_head (with_mem st m1) p b Hpok ltac:(lia) Hhead)
    as (e & m' & Hrun & He & Hused & Hstop & Hfree & _).
  exists (with_mem (with_mem st m1) m'). split; [exact Hrun |].
  assert (Hreach : b + n <= e).
  { destruct (Z.le_gt_cases (b + n) e) as [Hle | Hgt]; [exact Hle |].
    exfalso. apply Hstop; [lia |]. simpl. rewrite Hget by lia.
    zcases; try reflexivity; lia. }
  intros j Hj. simpl. rewrite Hfree by lia. zcases; try reflexivity; lia.
Qed.

(** C9 fails as stated.  With overlapping ranges the release of frame
    [2 + 516] is routed to the lower pool, and the run marked in the higher
    pool stays allocated; in a pool whose range runs past 2^32 the frame
    number [5 + base_frame_no] wraps to 1, no pool is found, and the marked
    frame stays allocated. *)
Lemma mark_then_release_misrouted :
  (pools (state_of overlapping_pools) = [over_low; over_high] /\
   1 <= 2 /\ 2 + 2 <= nframes over_high /\
   release_frames over_marked (2 + base_frame_no over_high)
   = Done (state_of (release_frames over_marked (2 + base_frame_no over_high))) /\
   get_state
     (mem (state_of (release_frames over_marked (2 + base_frame_no over_high))))
     over_high 2 = HoS)
  /\
  (straddling_pool = Done (state_of straddling_pool) /\
   pools (state_of straddling_pool) = [straddler] /\
   1 <= 1 /\ 5 + 1 <= nframes straddler /\
   wrap32 (5 + base_frame_no straddler) = 1 /\
   release_frames straddler_marked (wrap32 (5 + base_frame_no straddler))
   = Done (state_of (release_frames straddler_marked
                                    (wrap32 (5 + base_frame_no straddler)))) /\
   get_state
     (mem (state_of (release_frames straddler_marked
                                    (wrap32 (5 + base_frame_no straddler)))))
     straddler 5 = HoS).
Proof.
  repeat split; try (vm_compute; reflexivity); simpl; lia.
Qed.

Lemma mark_then_release_witness :
  reachable (state_of two_pools) /\
  disjoint_ranges (pools (state_of two_pools)) /\
  pools (state_of two_pools) !! 1%nat = Some low_pool /\
  base_frame_no low_pool + nframes low_pool <= 2 ^ 32 /\
  1 <= 3 /\ 0 <= 2 /\ 2 + 3 <= nframes low_pool /\
  exists st',
    release_frames
      (with_mem (state_of two_pools)
                (mark_inaccessible threes_mem low_pool 2 3))
      (2 + base_frame_no low_pool) = Done st' /\
    forall j, 2 <= j < 2 + 3 -> get_state (mem st') low_pool j = Free.
Proof.
  pose proof two_pools_reachable as Hr.
  assert (Hd : disjoint_ranges (pools (state_of two_pools))).
  { rewrite two_pools_store. apply disjoint_ranges_pair. simpl. lia. }
  assert (Hlow : pools (state_of two_pools) !! 1%nat = Some low_pool)
    by (rewrite two_pools_store; reflexivity).
  assert (Hfit : base_frame_no low_pool + nframes low_pool <= 2 ^ 32)
    by (simpl; lia).
  assert (Hn : 1 <= 3) by lia.
  assert (Hb : 0 <= 2) by lia.
  assert (Hbn : 2 + 3 <= nframes low_pool) by (simpl; lia).
  repeat (split; [assumption |]).
  exact (mark_then_release _ threes_mem 1%nat low_pool 2 3
                           Hr Hd Hlow Hfit Hn Hb Hbn).
Defined.

(** ** A freshly constructed pool *)

Lemma init_free_get (p : Pool) (cnt : nat) :
  forall (i0 : nat) (m : Mem) (j : Z),
    Z.of_nat i0 + Z.of_nat cnt <= 2 ^ 32 -> u32 j ->
    get_state (fold_left (fun m' fno => set_state m' p (Z.of_nat fno) Free)
                         (seq i0 cnt) m) p j
    = if (Z.of_nat i0 <=? j) && (j <? Z.of_nat i0 + Z.of_nat cnt)
      then Free else get_state m p j.
Proof.
  unfold u32.
  induction cnt as [| cnt IH]; intros i0 m j Hfit Hj; simpl.
  - zcases; try reflexivity; lia.
  - rewrite IH by lia. zcases; try reflexivity; try lia;
      try (apply get_set_other; unfold u32; lia).
    assert (j = Z.of_nat i0) as -> by lia. apply get_set_same.
Qed.

Lemma init_free_state (m : Mem) (p : Pool) (n j : Z) :
  0 <= n <= 2 ^ 32 -> 0 <= j < n -> get_state (init_free m p n) p j = Free.
Proof.
  intros Hn Hj. unfold init_free. rewrite init_free_get by (unfold u32; lia).
  zcases; try reflexivity; lia.
Qed.

(** What a returning [get_frames] can have done to memory. *)
Lemma get_frames_effect (m m' : Mem) (p : Pool) (n r : Z) :
  pool_ok p -> u32 n -> get_frames m p n = Done (m', r) ->
  m' = m \/
  exists s, 1 <= n /\ free_window m p n s /\ m' = mark_inaccessible m p s n.
Proof.
  intros Hp Hn Hrun. pose proof (pool_ok_nframes p Hp) as Hnf.
  unfold u32 in Hn. destruct (Z.eq_dec n 0) as [-> | Hne].
  - left. unfold get_frames in Hrun. simpl in Hrun.
    change (wrap32 (0 + 0 - 1)) with 4294967295 in Hrun.
    destruct (Z.ltb_spec 4294967295 (nframes p)); [lia |]. congruence.
  - destruct (get_frames_cases m p n Hnf ltac:(lia))
      as [(s & Hw & _ & Hrun') | (_ & Hrun')].
    + right. exists s. split; [lia |]. split; [exact Hw | congruence].
    + left. congruence.
Qed.

Lemma get_frames_zero (m : Mem) (p : Pool) :
  nframes p <= 16384 -> get_frames m p 0 = Done (m, 0).
Proof.
  intros Hn. unfold get_frames. simpl.
  change (wrap32 (0 + 0 - 1)) with 4294967295.
  destruct (Z.ltb_spec 4294967295 (nframes p)); [lia | reflexivity].
Qed.

(** C8, as the code has it.  On a freshly constructed pool with an external
    info frame [get_frames n_frames] returns [base_frame_no]; on a fresh
    self-backed pool [get_frames n_frames] returns 0 and leaves memory
    unchanged, and [get_frames (n_frames - 1)] returns [base_frame_no + 1]
    (cut to 32 bits) when the pool has at least two frames; on a one-frame
    self-backed pool that request is [get_frames 0], which returns 0. *)
Theorem fresh_pool_get_frames (st st' : State) (base n info : Z) :
  reachable st -> u32 base -> u32 n -> u32 info ->
  ContFramePool st base n info = Done st' ->
  exists p,
    pools st' !! length (pools st) = Some p /\
    base_frame_no p = base /\ nframes p = n /\ info_frame_no p = info /\
    (info <> 0 -> exists m', get_frames (mem st') p n = Done (m', base)) /\
    (info = 0 ->
     get_frames (mem st') p n = Done (mem st', 0) /\
     (2 <= n ->
      exists m', get_frames (mem st') p (n - 1) = Done (m', wrap32 (base + 1))) /\
     (n = 1 -> get_frames (mem st') p (n - 1) = Done (mem st', 0))).
Proof.
  intros Hr Hb Hn Hi Hrun.
  pose proof (ContFramePool_Done _ _ _ _ _ Hn Hrun) as Hn'.
  destruct (ContFramePool_spec st base n info (reachable_ok st Hr) Hb Hn')
    as (st'' & p & Hrun' & (_ & _ & _ & _ & Hok) & _ & Hp & Hpb & Hpn & Hpi & _ & _
        & Hmem & _).
  assert (st'' = st') by congruence. subst st''.
  pose proof (Hok _ p Hp) as Hpok.
  assert (Hnf : 1 <= nframes p <= 16384) by lia.
  exists p. split; [exact Hp |]. split; [exact Hpb |]. split; [exact Hpn |].
  split; [exact Hpi |]. split.
  - (* external info frame: every entry is free *)
    intros Hext. destruct (Z.eqb_spec info 0) as [| _]; [contradiction |].
    assert (Hw0 : free_window (mem st') p n 0).
    { unfold free_window. rewrite Hpn. split; [lia |]. split; [lia |].
      intros i Hi'. rewrite Hmem. apply init_free_state; lia. }
    destruct (get_frames_cases (mem st') p n Hnf ltac:(unfold u32 in Hn; lia))
      as [(s & Hw & Hlow & Hget) | (Hnone & _)];
      [| exfalso; exact (Hnone 0 Hw0)].
    assert (s = 0) by (pose proof (Hlow 0 Hw0); destruct Hw; lia). subst s.
    eexists. rewrite Hget. rewrite Z.add_0_l, Hpb, wrap32_small by exact Hb.
    reflexivity.
  - (* self-backed: entry 0 is the head of sequence, the rest is free *)
    intros ->. simpl in Hmem.
    assert (Hhead : get_state (mem st') p 0 = HoS)
      by (rewrite Hmem; apply get_set_same).
    assert (Hrest : forall j, 1 <= j < n -> get_state (mem st') p j = Free).
    { intros j Hj. rewrite Hmem.
      rewrite get_set_other by (unfold u32; lia).
      apply init_free_state; lia. }
    split; [| split].
    + destruct (get_frames_cases (mem st') p n Hnf ltac:(unfold u32 in Hn; lia))
        as [(s & Hw & _ & _) | (_ & Hget)]; [| exact Hget].
      exfalso. destruct Hw as (Hs0 & Hfit & Hfree).
      assert (s = 0) by lia. subst s.
      pose proof (Hfree 0 ltac:(lia)) as Hf. rewrite Z.add_0_r in Hf. congruence.
    + intros Hn2.
      assert (Hw1 : free_window (mem st') p (n - 1) 1).
      { unfold free_window. rewrite Hpn. split; [lia |]. split; [lia |].
        intros i Hi'. apply Hrest. lia. }
      destruct (get_frames_cases (mem st') p (n - 1) Hnf
                  ltac:(unfold u32 in Hn; lia))
        as [(s & Hw & Hlow & Hget) | (Hnone & _)];
        [| exfalso; exact (Hnone 1 Hw1)].
      assert (s = 1).
      { pose proof (Hlow 1 Hw1). destruct Hw as (Hs0 & _ & Hfree).
        destruct (Z.eq_dec s 0) as [-> | Hne]; [| lia].
        pose proof (Hfree 0 ltac:(lia)) as Hf. rewrite Z.add_0_r in Hf. congruence. }
      subst s. eexists. rewrite Hget, Hpb, (Z.add_comm 1 base). reflexivity.
    + intros ->. apply get_frames_zero. lia.
Qed.

(** C8 fails as stated on a self-backed pool of one frame: the request
    [get_frames (n_frames - 1)] is [get_frames 0], which returns 0 and not
    [base_frame_no + 1 = 513]. *)
Lemma one_frame_pool_returns_zero :
  one_frame_pool = Done (state_of one_frame_pool) /\
  exists p,
    pools (state_of one_frame_pool) !! 0%nat = Some p /\
    nframes p = 1 /\ info_frame_no p = 0 /\
    returned (get_frames (mem (state_of one_frame_pool)) p (nframes p - 1))
    = Some 0 /\
    0 <> base_frame_no p + 1.
Proof.
  split; [vm_compute; reflexivity |].
  eexists. split; [vm_compute; reflexivity |].
  repeat split; vm_compute; congruence.
Qed.

Lemma fresh_pool_get_frames_witness :
  reachable (initial_state zero_mem) /\ u32 512 /\ u32 8 /\ u32 0 /\
  ContFramePool (initial_state zero_mem) 512 8 0
  = Done (state_of (ContFramePool (initial_state zero_mem) 512 8 0)) /\
  exists p,
    pools (state_of (ContFramePool (initial_state zero_mem) 512 8 0)) !! 0%nat
    = Some p /\ base_frame_no p = 512.
Proof.
  assert (Hr : reachable (initial_state zero_mem)) by constructor.
  assert (H1 : u32 512) by (unfold u32; lia).
  assert (H2 : u32 8) by (unfold u32; lia).
  assert (H3 : u32 0) by (unfold u32; lia).
  assert (Hrun : ContFramePool (initial_state zero_mem) 512 8 0
                 = Done (state_of (ContFramePool (initial_state zero_mem) 512 8 0)))
    by (vm_compute; reflexivity).
  repeat (split; [assumption |]).
  destruct (fresh_pool_get_frames _ _ 512 8 0 Hr H1 H2 H3 Hrun)
    as (p & Hp & Hb & _).
  exists p. split; [exact Hp | exact Hb].
Defined.

(** ** Self-reservation of the bitmap frame *)

Lemma guarded_step_keeps (t0 : ptr) (p0 : Pool) (st st' : State) :
  registry_ok st -> bitmap_unshared (pools st) t0 ->
  pools st !! t0 = Some p0 -> get_state (mem st) p0 0 = HoS ->
  guarded_step t0 st st' ->
  head st' = head st /\ pools st' = pools st /\
  get_state (mem st') p0 0 = HoS.
Proof.
  intros Hreg Hsep Hp0 Hhead Hstep.
  pose proof Hreg as (l & Hlk & Hlen & _ & Hok).
  pose proof (Hok t0 p0 Hp0) as Hp0ok.
  pose proof (pool_ok_nframes p0 Hp0ok) as Hnf0.
  assert (Hother : forall t p m', pools st !! t = Some p -> t <> t0 ->
            within p (mem st) m' -> get_state m' p0 0 = HoS).
  { intros t p m' Hp Hne Hw. rewrite <- Hhead.
    apply (within_get_state p p0); try assumption; try lia.
    - exact (Hok t p Hp).
    - exact (Hsep t p p0 Hne Hp Hp0). }
  destruct Hstep as [t p n m' r Hp Hn Hrun | t p b n Hp Hb Hbn | f st' Hf Hnot Hrun].
  - split; [reflexivity |]. split; [reflexivity |]. simpl.
    pose proof (Hok t p Hp) as Hpok.
    destruct (get_frames_effect _ _ _ _ _ Hpok Hn Hrun)
      as [-> | (s & Hn1 & Hw & ->)]; [exact Hhead |].
    pose proof Hw as (Hs0 & Hfit & Hfree).
    destruct (Nat.eq_dec t t0) as [-> | Hne].
    + assert (p = p0) by congruence. subst p.
      rewrite mark_inaccessible_get by (unfold u32; lia).
      destruct (Z.eq_dec s 0) as [-> | Hs].
      * pose proof (Hfree 0 ltac:(lia)) as Hf0.
        rewrite Z.add_0_r in Hf0. congruence.
      * zcases; try lia. exact Hhead.
    + apply (Hother t p); [assumption | assumption |].
      apply mark_inaccessible_within; [exact Hpok | lia | lia].
  - split; [reflexivity |]. split; [reflexivity |]. simpl.
    pose proof (Hok t p Hp) as Hpok.
    pose proof (pool_ok_nframes p Hpok) as Hnf.
    destruct (Nat.eq_dec t t0) as [-> | Hne].
    + assert (p = p0) by congruence. subst p.
      rewrite mark_inaccessible_get by (unfold u32; lia).
      zcases; try lia; first [reflexivity | exact Hhead].
    + apply (Hother t p); [assumption | assumption |].
      apply mark_inaccessible_within; assumption.
  - destruct (release_frames_shape _ _ _ Hrun) as (Hh & Hps).
    split; [exact Hh |]. split; [exact Hps |].
    rewrite (release_frames_route st f l Hlk Hlen) in Hrun.
    destruct (route (pools st) f l) as [p |] eqn:Hroute; [| congruence].
    destruct (route_Some _ _ _ _ Hroute) as (t & _ & Hp & Hhit).
    pose proof (Hok t p Hp) as Hpok.
    destruct (hit_in_range p f Hpok Hhit) as (Hin & Hrel).
    rewrite Hrel in Hrun. unfold in_range in Hin.
    destruct (Nat.eq_dec t t0) as [-> | Hne].
    + assert (p = p0) by congruence. subst p.
      pose proof (Hnot p0 Hp0) as Hf0.
      destruct (get_state (mem st) p0 (f - base_frame_no p0)) eqn:E.
      * rewrite release_run_not_head in Hrun by congruence.
        injection Hrun as <-. exact Hhead.
      * rewrite release_run_not_head in Hrun by congruence.
        injection Hrun as <-. exact Hhead.
      * destruct (release_run_head st p0 (f - base_frame_no p0) Hp0ok
                    ltac:(lia) E) as (e & m' & Hrun' & He & _ & _ & Hget & _).
        assert (st' = with_mem st m') by congruence. subst st'. simpl.
        rewrite Hget by lia. zcases; try lia. exact Hhead.
    + destruct (release_run_within st p (f - base_frame_no p) Hpok ltac:(lia))
        as (st'' & Hrun' & _ & _ & Hw).
      assert (st'' = st') by congruence. subst st''.
      exact (Hother t p (mem st') Hp Hne Hw).
Qed.

Lemma guarded_steps_keep (t0 : ptr) (p0 : Pool) (st st' : State) :
  rtc (guarded_step t0) st st' ->
  registry_ok st -> bitmap_unshared (pools st) t0 ->
  pools st !! t0 = Some p0 -> get_state (mem st) p0 0 = HoS ->
  pools st' = pools st /\ get_state (mem st') p0 0 = HoS.
Proof.
  induction 1 as [st | st st1 st2 Hstep _ IH]; intros Hreg Hsep Hp0 Hhead.
  - auto.
  - destruct (guarded_step_keeps t0 p0 st st1 Hreg Hsep Hp0 Hhead Hstep)
      as (Hh & Hps & Hhead1).
    destruct IH as (Hps2 & Hhead2).
    + exact (registry_ok_shape st st1 Hh Hps Hreg).
    + rewrite Hps. exact Hsep.
    + rewrite Hps. exact Hp0.
    + exact Hhead1.
    + split; [congruence | exact Hhead2].
Qed.

(** C3, as the code has it.  A pool constructed with [info_frame_no = 0]
    has frame 0 as head of sequence at the end of construction, and, when
    no other pool keeps its bitmap in the frame of this pool's bitmap
    (other pools may share a bitmap frame among themselves), frame 0 stays
    head of sequence under every sequence of [get_frames] calls,
    [mark_inaccessible] calls on runs inside their pool, and
    [release_frames f] calls with [f] other than the pool's own
    [base_frame_no]. *)
Theorem self_reservation_kept (st st0 st1 : State) (base n : Z) :
  reachable st -> u32 base -> u32 n ->
  ContFramePool st base n 0 = Done st0 ->
  bitmap_unshared (pools st0) (length (pools st)) ->
  rtc (guarded_step (length (pools st))) st0 st1 ->
  exists p0,
    pools st1 !! length (pools st) = Some p0 /\
    info_frame_no p0 = 0 /\ base_frame_no p0 = base /\
    get_state (mem st0) p0 0 = HoS /\
    get_state (mem st1) p0 0 = HoS.
Proof.
  intros Hr Hb Hn Hrun Hsep Hsteps.
  pose proof (ContFramePool_Done _ _ _ _ _ Hn Hrun) as Hn'.
  destruct (ContFramePool_spec st base n 0 (reachable_ok st Hr) Hb Hn')
    as (st0' & p0 & Hrun' & Hreg0 & _ & Hp0 & Hpb & _ & Hpi & _ & _ & Hmem & _).
  assert (st0' = st0) by congruence. subst st0'. simpl in Hmem.
  assert (Hhead0 : get_state (mem st0) p0 0 = HoS)
    by (rewrite Hmem; apply get_set_same).
  destruct (guarded_steps_keep _ p0 st0 st1 Hsteps Hreg0 Hsep Hp0 Hhead0)
    as (Hps & Hhead1).
  exists p0. rewrite Hps. auto.
Qed.

(** C3 fails as stated: after constructing a self-backed pool at base 512,
    the call [release_frames 512] finds frame 0 marked as head of sequence
    and frees it.  Two more ways to lose the reservation: a
    [mark_inaccessible] whose run wraps past the last 32-bit index onto
    frame 0, and a release in another pool that keeps its bitmap in the
    same frame. *)
Lemma self_reservation_released :
  (boot_pool = Done (state_of boot_pool) /\
   boot_released = Done (state_of boot_released) /\
   pools (state_of boot_released) = [small_pool] /\
   info_frame_no small_pool = 0 /\
   get_state (mem (state_of boot_pool)) small_pool 0 = HoS /\
   get_state (mem (state_of boot_released)) small_pool 0 = Free)
  /\
  get_state (mark_inaccessible (mem (state_of boot_pool)) small_pool
                               4294967295 2) small_pool 0 = Used
  /\
  (aliased_pools = Done (state_of aliased_pools) /\
   pools (state_of aliased_pools) !! 1%nat = Some aliased_self /\
   get_state (mem (state_of aliased_pools)) aliased_self 0 = HoS /\
   1024 <> base_frame_no aliased_self /\
   release_frames (state_of aliased_pools) 1024
   = Done (state_of (release_frames (state_of aliased_pools) 1024)) /\
   get_state (mem (state_of (release_frames (state_of aliased_pools) 1024)))
             aliased_self 0 = Free).
Proof.
  repeat split; try (vm_compute; reflexivity). simpl. lia.
Qed.

Lemma shared_info_reachable : reachable (state_of shared_info).
Proof.
  assert (Hargs : Forall args_ok [(512, 8, 100); (1024, 8, 100)]).
  { repeat constructor; simpl; unfold u32; lia. }
  assert (Hrun : shared_info = Done (state_of shared_info))
    by (vm_compute; reflexivity).
  exact (proj1 (construct_all_spec _ _ _ (reach_boot zero_mem) Hargs Hrun)).
Qed.

Lemma self_after_shared_store :
  pools (state_of self_after_shared)
  = [self_after_shared_low;
     mkPool 1024 8 100 409600 (Some 0%nat) (Some 2%nat);
     mkPool 2048 8 0 8388608 (Some 1%nat) None].
Proof. vm_compute. reflexivity. Qed.

Lemma self_reservation_kept_witness :
  reachable (state_of shared_info) /\ u32 2048 /\ u32 8 /\
  self_after_shared = Done (state_of self_after_shared) /\
  bitmap_unshared (pools (state_of self_after_shared)) 2 /\
  ~ separate_bitmaps (pools (state_of self_after_shared)) /\
  rtc (guarded_step 2%nat) (state_of self_after_shared) self_after_shared_used /\
  exists p0,
    pools self_after_shared_used !! 2%nat = Some p0 /\
    base_frame_no p0 = 2048 /\
    get_state (mem self_after_shared_used) p0 0 = HoS.
Proof.
  pose proof shared_info_reachable as Hr.
  assert (H1 : u32 2048) by (unfold u32; lia).
  assert (H2 : u32 8) by (unfold u32; lia).
  assert (Hrun : self_after_shared = Done (state_of self_after_shared))
    by (vm_compute; reflexivity).
  assert (Hsep : bitmap_unshared (pools (state_of self_after_shared)) 2).
  { rewrite self_after_shared_store. intros t p p0 Hne Hp Hp0.
    injection Hp0 as <-.
    destruct t as [| [| [| t]]]; try discriminate; try lia;
      injection Hp as <-; simpl; lia. }
  assert (Hshared : ~ separate_bitmaps (pools (state_of self_after_shared))).
  { rewrite self_after_shared_store. intros H.
    apply (H 0%nat 1%nat _ _ ltac:(lia) eq_refl eq_refl). reflexivity. }
  assert (Hsteps : rtc (guarded_step 2%nat) (state_of self_after_shared)
                       self_after_shared_used).
  { apply rtc_once.
    apply (guarded_get_frames _ _ 0%nat self_after_shared_low 2 _ 512).
    - rewrite self_after_shared_store. reflexivity.
    - unfold u32. lia.
    - vm_compute. reflexivity. }
  repeat (split; [assumption |]).
  destruct (self_reservation_kept _ _ _ 2048 8 Hr H1 H2 Hrun Hsep Hsteps)
    as (p0 & Hp0 & _ & Hbase & _ & Hhead).
  exists p0. split; [exact Hp0 |]. split; [exact Hbase | exact Hhead].
Defined.

(** * Further properties of the allocator *)

(** ** What [get_frames] returns *)

(** The two ways a call of [get_frames] can end in a pool whose range lies
    below 2^32. *)
Lemma get_frames_result (m m' : Mem) (p : Pool) (n r : Z) :
  pool_ok p -> base_frame_no p + nframes p <= 2 ^ 32 -> 1 <= n < 2 ^ 32 ->
  get_frames m p n = Done (m', r) ->
  (exists s, free_window m p n s /\
             (forall s', free_window m p n s' -> s <= s') /\
             m' = mark_inaccessible m p s n /\ r = s + base_frame_no p)
  \/ ((forall s, ~ free_window m p n s) /\ m' = m /\ r = 0).
Proof.
  intros Hp Hfit Hn Hrun. pose proof (pool_ok_nframes p Hp) as Hnf.
  destruct Hp as (Hbase & _). unfold u32 in Hbase.
  destruct (get_frames_cases m p n Hnf Hn)
    as [(s & Hw & Hlow & Hrun') | (Hnone & Hrun')];
    rewrite Hrun' in Hrun; injection Hrun as <- <-.
  - left. exists s. pose proof Hw as (Hs0 & Hsn & _).
    split; [exact Hw |]. split; [exact Hlow |]. split; [reflexivity |].
    apply wrap32_small. unfold u32. lia.
  - right. auto.
Qed.

(** The states of a pool after [mark_inaccessible] on a run inside it. *)
Lemma mark_inaccessible_states (m : Mem) (p : Pool) (b n j : Z) :
  pool_ok p -> 0 <= b -> b + n <= nframes p -> b < nframes p ->
  0 <= j < nframes p ->
  get_state (mark_inaccessible m p b n) p j
  = if j =? b then HoS
    else if (b <? j) && (j <? b + n) then Used
         else get_state m p j.
Proof.
  intros Hp Hb Hbn Hlt Hj. pose proof (pool_ok_nframes p Hp) as Hnf.
  apply mark_inaccessible_get; unfold u32; lia.
Qed.

Lemma small_pool_ok : pool_ok small_pool.
Proof. unfold pool_ok, u32. simpl. repeat split; lia || reflexivity. Qed.

(** X1. A request for no frames, or for more frames than the pool has,
    returns 0 and leaves memory as it is. *)
Theorem get_frames_rejects (m : Mem) (p : Pool) (n : Z) :
  pool_ok p -> u32 n -> n = 0 \/ nframes p < n ->
  get_frames m p n = Done (m, 0).
Proof.
  intros Hp Hn Hcase. pose proof (pool_ok_nframes p Hp) as Hnf.
  unfold u32 in Hn. destruct Hcase as [-> | Hbig].
  - apply get_frames_zero. lia.
  - destruct (get_frames_cases m p n Hnf ltac:(lia))
      as [(s & (Hs0 & Hsn & _) & _) | (_ & Hrun)]; [lia | exact Hrun].
Qed.

Lemma get_frames_rejects_witness :
  pool_ok small_pool /\ u32 9 /\
  get_frames zero_mem small_pool 9 = Done (zero_mem, 0).
Proof.
  pose proof small_pool_ok as Hp.
  assert (Hn : u32 9) by (unfold u32; lia).
  repeat (split; [assumption |]).
  apply (get_frames_rejects zero_mem small_pool 9 Hp Hn).
  right. simpl. lia.
Defined.

(** X2. In a pool that starts at frame 1 or above and ends at or below
    2^32, the result 0 is unambiguous: [get_frames] returns 0 exactly when
    no window of [n] free frames exists, and then memory is unchanged; any
    other result is the first frame of a run of [n] frames inside the
    pool, now marked as its head of sequence. *)
Theorem get_frames_zero_is_failure (m m' : Mem) (p : Pool) (n r : Z) :
  pool_ok p -> 1 <= base_frame_no p ->
  base_frame_no p + nframes p <= 2 ^ 32 -> 1 <= n < 2 ^ 32 ->
  get_frames m p n = Done (m', r) ->
  (r = 0 <-> ~ exists s, free_window m p n s) /\
  (r = 0 -> m' = m) /\
  (r <> 0 ->
   in_range p r /\ r + n <= base_frame_no p + nframes p /\
   get_state m' p (r - base_frame_no p) = HoS).
Proof.
  intros Hp Hbase Hfit Hn Hrun.
  destruct (get_frames_result m m' p n r Hp Hfit Hn Hrun)
    as [(s & Hw & _ & -> & ->) | (Hnone & -> & ->)].
  - pose proof Hw as (Hs0 & Hsn & _). split; [| split].
    + split; [lia |]. intros Hno. exfalso. apply Hno. exists s. exact Hw.
    + lia.
    + intros _. unfold in_range. repeat split; try lia.
      replace (s + base_frame_no p - base_frame_no p) with s by lia.
      rewrite mark_inaccessible_states by (try assumption; lia).
      rewrite Z.eqb_refl. reflexivity.
  - split; [| split].
    + split; [| reflexivity]. intros _ (s & Hw). exact (Hnone s Hw).
    + reflexivity.
    + intros H. congruence.
Qed.

Lemma get_frames_zero_is_failure_witness :
  pool_ok small_pool /\ 1 <= base_frame_no small_pool /\
  base_frame_no small_pool + nframes small_pool <= 2 ^ 32 /\
  1 <= 3 < 2 ^ 32 /\
  get_frames zero_mem small_pool 3
  = Done (memory_of (get_frames zero_mem small_pool 3), 512) /\
  (512 <> 0 -> in_range small_pool 512).
Proof.
  pose proof small_pool_ok as Hp.
  assert (Hb : 1 <= base_frame_no small_pool) by (simpl; lia).
  assert (Hfit : base_frame_no small_pool + nframes small_pool <= 2 ^ 32)
    by (simpl; lia).
  assert (Hn : 1 <= 3 < 2 ^ 32) by lia.
  assert (Hrun : get_frames zero_mem small_pool 3
                 = Done (memory_of (get_frames zero_mem small_pool 3), 512))
    by (vm_compute; reflexivity).
  repeat (split; [assumption |]).
  intros Hne.
  exact (proj1 (proj2 (proj2 (get_frames_zero_is_failure
                                _ _ small_pool 3 512 Hp Hb Hfit Hn Hrun)) Hne)).
Defined.

(** X3. Two allocations in a row never overlap.  When two successive
    calls of [get_frames] on a pool both return a frame number other than
    0, the two runs lie inside the pool and are disjoint, and the first
    run is still marked as allocated after the second call. *)
Theorem get_frames_twice_disjoint (m m1 m2 : Mem) (p : Pool) (n1 n2 r1 r2 : Z) :
  pool_ok p -> base_frame_no p + nframes p <= 2 ^ 32 ->
  1 <= n1 < 2 ^ 32 -> 1 <= n2 < 2 ^ 32 ->
  get_frames m p n1 = Done (m1, r1) -> r1 <> 0 ->
  get_frames m1 p n2 = Done (m2, r2) -> r2 <> 0 ->
  (in_range p r1 /\ r1 + n1 <= base_frame_no p + nframes p) /\
  (in_range p r2 /\ r2 + n2 <= base_frame_no p + nframes p) /\
  (r1 + n1 <= r2 \/ r2 + n2 <= r1) /\
  get_state m2 p (r1 - base_frame_no p) = HoS /\
  (forall i, 1 <= i < n1 -> get_state m2 p (r1 - base_frame_no p + i) = Used).
Proof.
  intros Hp Hfit Hn1 Hn2 Hrun1 Hr1 Hrun2 Hr2.
  destruct (get_frames_result m m1 p n1 r1 Hp Hfit Hn1 Hrun1)
    as [(s1 & Hw1 & _ & -> & ->) | (_ & _ & ->)]; [| congruence].
  destruct (get_frames_result _ m2 p n2 r2 Hp Hfit Hn2 Hrun2)
    as [(s2 & Hw2 & _ & -> & ->) | (_ & _ & ->)]; [| congruence].
  destruct Hw1 as (H10 & H1n & _). destruct Hw2 as (H20 & H2n & Hfree2).
  assert (Hbusy : forall j, s1 <= j < s1 + n1 ->
            get_state (mark_inaccessible m p s1 n1) p j <> Free).
  { intros j Hj. rewrite mark_inaccessible_states by (try assumption; lia).
    zcases; try congruence; lia. }
  assert (Hapart : s1 + n1 <= s2 \/ s2 + n2 <= s1).
  { destruct (Z.le_gt_cases (s1 + n1) s2) as [Hle | Hgt]; [left; exact Hle |].
    destruct (Z.le_gt_cases (s2 + n2) s1) as [Hle' | Hgt']; [right; exact Hle' |].
    exfalso. apply (Hbusy (Z.max s1 s2) ltac:(lia)).
    replace (Z.max s1 s2) with (s2 + (Z.max s1 s2 - s2)) by lia.
    apply Hfree2. lia. }
  replace (s1 + base_frame_no p - base_frame_no p) with s1 by lia.
  unfold in_range. repeat split; try lia.
  - rewrite mark_inaccessible_states by (try assumption; lia).
    zcases; try lia;
      rewrite mark_inaccessible_states by (try assumption; lia);
      rewrite Z.eqb_refl; reflexivity.
  - intros i Hi. rewrite mark_inaccessible_states by (try assumption; lia).
    zcases; try lia;
      rewrite mark_inaccessible_states by (try assumption; lia);
      zcases; try reflexivity; lia.
Qed.

Lemma get_frames_twice_disjoint_witness :
  pool_ok small_pool /\
  base_frame_no small_pool + nframes small_pool <= 2 ^ 32 /\
  1 <= 3 < 2 ^ 32 /\ 1 <= 2 < 2 ^ 32 /\
  returned (get_frames zero_mem small_pool 3) = Some 512 /\
  returned (get_frames (memory_of (get_frames zero_mem small_pool 3))
                       small_pool 2) = Some 515 /\
  (512 + 3 <= 515 \/ 515 + 2 <= 512).
Proof.
  pose proof small_pool_ok as Hp.
  assert (Hfit : base_frame_no small_pool + nframes small_pool <= 2 ^ 32)
    by (simpl; lia).
  assert (Hn1 : 1 <= 3 < 2 ^ 32) by lia.
  assert (Hn2 : 1 <= 2 < 2 ^ 32) by lia.
  set (m1 := memory_of (get_frames zero_mem small_pool 3)).
  set (m2 := memory_of (get_frames m1 small_pool 2)).
  assert (Hrun1 : get_frames zero_mem small_pool 3 = Done (m1, 512))
    by (vm_compute; reflexivity).
  assert (Hrun2 : get_frames m1 small_pool 2 = Done (m2, 515))
    by (vm_compute; reflexivity).
  repeat (split; [assumption |]).
  split; [rewrite Hrun1; reflexivity |].
  split; [rewrite Hrun2; reflexivity |].
  exact (proj1 (proj2 (proj2 (get_frames_twice_disjoint
           _ _ _ small_pool 3 2 512 515 Hp Hfit Hn1 Hn2
           Hrun1 ltac:(lia) Hrun2 ltac:(lia))))).
Defined.

(** ** Allocation followed by release *)

(** In a registry with disjoint ranges the static [release_frames] runs on
    the pool that owns the frame. *)
Lemma release_frames_at (st : State) (t : ptr) (p : Pool) (k : Z) :
  registry_ok st -> disjoint_ranges (pools st) -> pools st !! t = Some p ->
  base_frame_no p + nframes p <= 2 ^ 32 -> 0 <= k < nframes p ->
  release_frames st (k + base_frame_no p) = release_run st p k.
Proof.
  intros (l & Hlk & Hlen & Hs & Hok) Hd Hp Hfit Hk.
  pose proof (Hok t p Hp) as (Hbase & _). unfold u32 in Hbase.
  rewrite (release_frames_route st _ l Hlk Hlen).
  assert (Hin : t ∈ l).
  { apply (registry_complete _ _ _ _ Hlk Hlen).
    eapply lookup_lt_Some. exact Hp. }
  apply list_elem_of_lookup in Hin as (i & Hi).
  rewrite (route_finds (pools st) (k + base_frame_no p) l) with (i := i) (t := t) (p := p);
    try assumption.
  - replace (k + base_frame_no p - base_frame_no p) with k by lia.
    rewrite wrap32_small by (unfold u32; lia). reflexivity.
  - intros x Hx. apply list_elem_of_lookup in Hx as (ix & Hx).
    destruct Hlk as (_ & _ & Hl). destruct (Hl ix x Hx) as (q & Hq & _).
    exists q. split; [exact Hq | exact (Hok x q Hq)].
  - destruct Hlk as (Hnd & _). exact Hnd.
  - unfold in_range. lia.
Qed.

Lemma registry_ok_with_mem (st : State) (m : Mem) :
  registry_ok st -> registry_ok (with_mem st m).
Proof. apply registry_ok_shape; reflexivity. Qed.

(** Releasing the run that [mark_inaccessible] has just written on a free
    window: the run is found again, and the release ends at the first frame
    behind the window that is not [Used]. *)
Lemma release_run_marked (st : State) (m : Mem) (p : Pool) (n s : Z) :
  pool_ok p -> 1 <= n -> free_window m p n s ->
  exists e m',
    release_run (with_mem st (mark_inaccessible m p s n)) p s
    = Done (with_mem (with_mem st (mark_inaccessible m p s n)) m') /\
    s + n <= e <= nframes p /\
    (forall j, s + n <= j < e -> get_state m p j = Used) /\
    (e < nframes p -> get_state m p e <> Used) /\
    (forall j, 0 <= j < nframes p ->
       get_state m' p j = if (s <=? j) && (j <? e) then Free else get_state m p j).
Proof.
  intros Hp Hn (Hs0 & Hsn & Hfree).
  set (m1 := mark_inaccessible m p s n).
  assert (Hget : forall j, 0 <= j < nframes p ->
            get_state m1 p j
            = if j =? s then HoS
              else if (s <? j) && (j <? s + n) then Used
                   else get_state m p j).
  { intros j Hj. apply mark_inaccessible_states; try assumption; lia. }
  assert (Hhead : get_state (mem (with_mem st m1)) p s = HoS).
  { simpl. rewrite Hget by lia. rewrite Z.eqb_refl. reflexivity. }
  destruct (release_run_head (with_mem st m1) p s Hp ltac:(lia) Hhead)
    as (e & m' & Hrun & He & Hused & Hstop & Hstates & _).
  simpl in Hused, Hstop, Hstates.
  assert (Hreach : s + n <= e).
  { destruct (Z.le_gt_cases (s + n) e) as [Hle | Hgt]; [exact Hle |].
    exfalso. apply Hstop; [lia |]. rewrite Hget by lia.
    zcases; try reflexivity; lia. }
  exists e, m'. split; [exact Hrun |]. split; [lia |]. split; [| split].
  - intros j Hj. rewrite <- (Hused j) by lia. rewrite Hget by lia.
    zcases; try reflexivity; lia.
  - intros Hlt. specialize (Hstop Hlt). rewrite Hget in Hstop by lia.
    revert Hstop. zcases; try lia; auto.
  - intros j Hj. rewrite Hstates by lia.
    zcases; try reflexivity; rewrite Hget by lia; zcases; try reflexivity; lia.
Qed.

(** X4. Allocate, release, allocate again.  In a reachable state whose
    pools have disjoint ranges below 2^32: if [get_frames n] on a pool
    returns a frame [r] other than 0, then [release_frames r] returns
    without a diagnostic, the [n] frames are free again, and the next
    [get_frames n] on the pool returns the same frame [r]. *)
Theorem get_release_get (st : State) (t : ptr) (p : Pool) (n r : Z) (m1 : Mem) :
  reachable st -> disjoint_ranges (pools st) -> pools st !! t = Some p ->
  base_frame_no p + nframes p <= 2 ^ 32 -> 1 <= n < 2 ^ 32 ->
  get_frames (mem st) p n = Done (m1, r) -> r <> 0 ->
  exists st2 m3,
    release_frames (with_mem st m1) r = Done st2 /\
    console st2 = console st /\
    (forall j, r - base_frame_no p <= j < r - base_frame_no p + n ->
       get_state (mem st2) p j = Free) /\
    get_frames (mem st2) p n = Done (m3, r).
Proof.
  intros Hr Hd Hp Hfit Hn Hrun Hne.
  pose proof (reachable_ok st Hr) as Hreg.
  pose proof Hreg as (_ & _ & _ & _ & Hok). pose proof (Hok t p Hp) as Hpok.
  pose proof (pool_ok_nframes p Hpok) as Hnf.
  pose proof Hpok as (Hbase & _). unfold u32 in Hbase.
  destruct (get_frames_result _ m1 p n r Hpok Hfit Hn Hrun)
    as [(s & Hw & Hlow & -> & ->) | (_ & _ & ->)]; [| congruence].
  pose proof Hw as (Hs0 & Hsn & Hfree).
  rewrite (release_frames_at _ t p s) by
    (try apply registry_ok_with_mem; try assumption; lia).
  destruct (release_run_marked st (mem st) p n s Hpok ltac:(lia) Hw)
    as (e & m' & Hrel & He & _ & _ & Hstates).
  replace (s + base_frame_no p - base_frame_no p) with s by lia.
  assert (Hw' : free_window m' p n s).
  { split; [lia |]. split; [lia |]. intros i Hi.
    rewrite Hstates by lia. zcases; try reflexivity; lia. }
  destruct (get_frames_cases m' p n Hnf Hn)
    as [(s' & Hws' & Hlow' & Hrun') | (Hnone & _)];
    [| exfalso; exact (Hnone s Hw')].
  assert (s' = s) as ->.
  { pose proof (Hlow' s Hw') as Hle.
    destruct (Z.eq_dec s' s) as [E | E]; [exact E |]. exfalso.
    assert (Hold : free_window (mem st) p n s').
    { destruct Hws' as (H0 & Hfit' & Hfree').
      split; [lia |]. split; [lia |]. intros i Hi.
      destruct (Z.lt_ge_cases (s' + i) s) as [Hlt | Hge].
      - rewrite <- (Hfree' i Hi). rewrite Hstates by lia.
        zcases; try reflexivity; lia.
      - replace (s' + i) with (s + (s' + i - s)) by lia. apply Hfree. lia. }
    pose proof (Hlow s' Hold). lia. }
  do 2 eexists. split; [exact Hrel |]. split; [reflexivity |]. split.
  - intros j Hj. simpl. rewrite Hstates by lia. zcases; try reflexivity; lia.
  - simpl. rewrite Hrun'. rewrite wrap32_small by (unfold u32; lia). reflexivity.
Qed.

Lemma get_release_get_witness :
  reachable (state_of two_pools) /\
  disjoint_ranges (pools (state_of two_pools)) /\
  pools (state_of two_pools) !! 1%nat = Some low_pool /\
  base_frame_no low_pool + nframes low_pool <= 2 ^ 32 /\ 1 <= 3 < 2 ^ 32 /\
  returned (get_frames (mem (state_of two_pools)) low_pool 3) = Some 513 /\
  exists st2 m3,
    release_frames
      (with_mem (state_of two_pools)
                (memory_of (get_frames (mem (state_of two_pools)) low_pool 3)))
      513 = Done st2 /\
    get_frames (mem st2) low_pool 3 = Done (m3, 513).
Proof.
  pose proof two_pools_reachable as Hr.
  assert (Hd : disjoint_ranges (pools (state_of two_pools))).
  { rewrite two_pools_store. apply disjoint_ranges_pair. simpl. lia. }
  assert (Hlow : pools (state_of two_pools) !! 1%nat = Some low_pool)
    by (rewrite two_pools_store; reflexivity).
  assert (Hfit : base_frame_no low_pool + nframes low_pool <= 2 ^ 32)
    by (simpl; lia).
  assert (Hn : 1 <= 3 < 2 ^ 32) by lia.
  set (m1 := memory_of (get_frames (mem (state_of two_pools)) low_pool 3)).
  assert (Hrun : get_frames (mem (state_of two_pools)) low_pool 3 = Done (m1, 513))
    by (vm_compute; reflexivity).
  repeat (split; [assumption |]).
  split; [rewrite Hrun; reflexivity |].
  destruct (get_release_get _ 1%nat low_pool 3 513 m1 Hr Hd Hlow Hfit Hn Hrun
                            ltac:(lia))
    as (st2 & m3 & Hrel & _ & _ & Hagain).
  exists st2, m3. split; assumption.
Defined.

(** X5. With no stray [Used] entry in the bitmap, allocation followed by
    release is an exact round trip on the frame states: in a reachable
    state whose pools have disjoint ranges below 2^32, if [get_frames n]
    on a tidy pool returns a frame [r] other than 0, then
    [release_frames r] returns, prints nothing, and leaves every frame of
    the pool in the state it had before the allocation. *)
Theorem get_then_release_restores
        (st : State) (t : ptr) (p : Pool) (n r : Z) (m1 : Mem) :
  reachable st -> disjoint_ranges (pools st) -> pools st !! t = Some p ->
  base_frame_no p + nframes p <= 2 ^ 32 -> 1 <= n < 2 ^ 32 ->
  tidy (mem st) p ->
  get_frames (mem st) p n = Done (m1, r) -> r <> 0 ->
  exists st2,
    release_frames (with_mem st m1) r = Done st2 /\
    same_states p (mem st) (mem st2) /\
    head st2 = head st /\ pools st2 = pools st /\ console st2 = console st.
Proof.
  intros Hr Hd Hp Hfit Hn Htidy Hrun Hne.
  pose proof (reachable_ok st Hr) as Hreg.
  pose proof Hreg as (_ & _ & _ & _ & Hok). pose proof (Hok t p Hp) as Hpok.
  pose proof (pool_ok_nframes p Hpok) as Hnf.
  destruct (get_frames_result _ m1 p n r Hpok Hfit Hn Hrun)
    as [(s & Hw & _ & -> & ->) | (_ & _ & ->)]; [| congruence].
  pose proof Hw as (Hs0 & Hsn & Hfree).
  rewrite (release_frames_at _ t p s) by
    (try apply registry_ok_with_mem; try assumption; lia).
  destruct (release_run_marked st (mem st) p n s Hpok ltac:(lia) Hw)
    as (e & m' & Hrel & He & Hused & _ & Hstates).
  assert (e = s + n) as ->.
  { destruct (Z.eq_dec e (s + n)) as [E | E]; [exact E |]. exfalso.
    destruct (Htidy (s + n) ltac:(lia) (Hused (s + n) ltac:(lia))) as (_ & Hprev).
    apply Hprev. replace (s + n - 1) with (s + (n - 1)) by lia.
    apply Hfree. lia. }
  eexists. split; [exact Hrel |]. split; [| repeat split].
  intros j Hj. simpl. rewrite Hstates by lia.
  zcases; try reflexivity.
  symmetry. rewrite <- (Hfree (j - s)) by lia. f_equal. lia.
Qed.

Lemma boot_pool_reachable : reachable (state_of boot_pool).
Proof.
  apply (reach_ctor (initial_state zero_mem) _ 512 8 0).
  - apply reach_boot.
  - unfold u32. lia.
  - unfold u32. lia.
  - unfold u32. lia.
  - vm_compute. reflexivity.
Qed.

Lemma boot_pool_store : pools (state_of boot_pool) = [small_pool].
Proof. vm_compute. reflexivity. Qed.

Lemma disjoint_ranges_single (p : Pool) : disjoint_ranges [p].
Proof.
  intros t t' q q' Hne Ht Ht'.
  apply lookup_lt_Some in Ht. apply lookup_lt_Some in Ht'. simpl in Ht, Ht'. lia.
Qed.

(** Frame by frame, the states of [small_pool] right after its
    construction. *)
Lemma boot_pool_states (j : Z) :
  0 <= j < 8 ->
  get_state (mem (state_of boot_pool)) small_pool j
  = if j =? 0 then HoS else Free.
Proof.
  intros Hj.
  assert (j = 0 \/ j = 1 \/ j = 2 \/ j = 3 \/ j = 4 \/ j = 5 \/ j = 6 \/ j = 7)
    as Hcase by lia.
  repeat (destruct Hcase as [-> | Hcase]; [vm_compute; reflexivity |]).
  subst j. vm_compute. reflexivity.
Qed.

Lemma boot_pool_kept : info_frame_kept (mem (state_of boot_pool)) small_pool.
Proof.
  intros j Hj Hb. simpl in Hj, Hb. unfold FRAME_SIZE in Hb.
  assert (j = 0) as -> by lia. rewrite boot_pool_states by lia. discriminate.
Qed.

Lemma boot_pool_tidy : tidy (mem (state_of boot_pool)) small_pool.
Proof.
  intros j Hj Hu. simpl in Hj. rewrite boot_pool_states in Hu by lia.
  revert Hu. zcases; congruence.
Qed.

Lemma get_then_release_restores_witness :
  reachable (state_of boot_pool) /\
  disjoint_ranges (pools (state_of boot_pool)) /\
  pools (state_of boot_pool) !! 0%nat = Some small_pool /\
  base_frame_no small_pool + nframes small_pool <= 2 ^ 32 /\
  1 <= 3 < 2 ^ 32 /\
  tidy (mem (state_of boot_pool)) small_pool /\
  returned (get_frames (mem (state_of boot_pool)) small_pool 3) = Some 513 /\
  exists st2,
    release_frames
      (with_mem (state_of boot_pool)
                (memory_of (get_frames (mem (state_of boot_pool)) small_pool 3)))
      513 = Done st2 /\
    same_states small_pool (mem (state_of boot_pool)) (mem st2).
Proof.
  pose proof boot_pool_reachable as Hr.
  assert (Hd : disjoint_ranges (pools (state_of boot_pool)))
    by (rewrite boot_pool_store; apply disjoint_ranges_single).
  assert (Hp : pools (state_of boot_pool) !! 0%nat = Some small_pool)
    by (rewrite boot_pool_store; reflexivity).
  assert (Hfit : base_frame_no small_pool + nframes small_pool <= 2 ^ 32)
    by (simpl; lia).
  assert (Hn : 1 <= 3 < 2 ^ 32) by lia.
  pose proof boot_pool_tidy as Ht.
  set (m1 := memory_of (get_frames (mem (state_of boot_pool)) small_pool 3)).
  assert (Hrun : get_frames (mem (state_of boot_pool)) small_pool 3
                 = Done (m1, 513)) by (vm_compute; reflexivity).
  repeat (split; [assumption |]).
  split; [rewrite Hrun; reflexivity |].
  destruct (get_then_release_restores _ 0%nat small_pool 3 513 m1
              Hr Hd Hp Hfit Hn Ht Hrun ltac:(lia))
    as (st2 & Hrel & Hsame & _).
  exists st2. split; assumption.
Defined.

(** ** Bitmaps stay tidy *)

Lemma mark_inaccessible_tidy (m : Mem) (p : Pool) (b n : Z) :
  pool_ok p -> 0 <= b < nframes p -> b + n <= nframes p ->
  tidy m p -> tidy (mark_inaccessible m p b n) p.
Proof.
  intros Hp Hb Hbn Ht j Hj Hu.
  rewrite mark_inaccessible_states in Hu by (try assumption; lia).
  destruct (Z.eqb_spec j b) as [-> | Hne]; [discriminate |].
  destruct (Z.ltb_spec b j); destruct (Z.ltb_spec j (b + n)); cbn [andb] in Hu;
    try (destruct (Ht j Hj Hu) as (H1 & Hprev));
    (split; [lia |]);
    rewrite mark_inaccessible_states by (try assumption; lia);
    zcases; try congruence; try assumption; lia.
Qed.

Lemma release_run_tidy (st st' : State) (p : Pool) (k : Z) :
  pool_ok p -> 0 <= k < nframes p -> tidy (mem st) p ->
  release_run st p k = Done st' -> tidy (mem st') p.
Proof.
  intros Hp Hk Ht Hrun.
  destruct (get_state (mem st) p k) eqn:Hs;
    try (rewrite release_run_not_head in Hrun by congruence;
         injection Hrun as <-; exact Ht).
  destruct (release_run_head st p k Hp Hk Hs)
    as (e & m' & Hrun' & He & _ & Hstop & Hstates & _).
  rewrite Hrun' in Hrun. injection Hrun as <-. simpl.
  intros j Hj Hu. rewrite Hstates in Hu by lia.
  destruct (Z.leb_spec k j); destruct (Z.ltb_spec j e); cbn [andb] in Hu;
    try discriminate;
    destruct (Ht j Hj Hu) as (H1 & Hprev);
    (split; [exact H1 |]);
    rewrite Hstates by lia;
    zcases; try assumption;
    exfalso; try lia;
    assert (j = e) as -> by lia; apply Hstop; [lia | exact Hu].
Qed.

Lemma get_frames_tidy (m m' : Mem) (p : Pool) (n r : Z) :
  pool_ok p -> u32 n -> tidy m p ->
  get_frames m p n = Done (m', r) -> tidy m' p.
Proof.
  intros Hp Hn Ht Hrun.
  destruct (get_frames_effect m m' p n r Hp Hn Hrun)
    as [-> | (s & Hn1 & (Hs0 & Hsn & _) & ->)]; [exact Ht |].
  apply mark_inaccessible_tidy; try assumption; lia.
Qed.

(** X6. No operation leaves a stray [Used] entry behind.  If every [Used]
    frame of a pool follows an allocated frame, the same holds after
    [get_frames] with any request, after [mark_inaccessible] on a run that
    lies inside the pool, and after the release of any frame of the pool. *)
Theorem tidy_kept (m : Mem) (p : Pool) :
  pool_ok p -> tidy m p ->
  (forall n m' r, u32 n -> get_frames m p n = Done (m', r) -> tidy m' p) /\
  (forall b n, 0 <= b < nframes p -> b + n <= nframes p ->
     tidy (mark_inaccessible m p b n) p) /\
  (forall st k st', mem st = m -> 0 <= k < nframes p ->
     release_run st p k = Done st' -> tidy (mem st') p).
Proof.
  intros Hp Ht. split; [| split].
  - intros n m' r Hn Hrun. exact (get_frames_tidy m m' p n r Hp Hn Ht Hrun).
  - intros b n Hb Hbn. apply mark_inaccessible_tidy; assumption.
  - intros st k st' <- Hk Hrun. exact (release_run_tidy st st' p k Hp Hk Ht Hrun).
Qed.

Lemma tidy_kept_witness :
  pool_ok small_pool /\ tidy (mem (state_of boot_pool)) small_pool /\
  tidy (mark_inaccessible (mem (state_of boot_pool)) small_pool 2 3) small_pool.
Proof.
  pose proof small_pool_ok as Hp. pose proof boot_pool_tidy as Ht.
  repeat (split; [assumption |]).
  apply (proj1 (proj2 (tidy_kept _ small_pool Hp Ht))); simpl; lia.
Defined.

(** ** Releasing the same frame twice *)

(** With sorted bases the walk stops at some pool whenever a pool below
    2^32 holds [f]; with overlapping ranges it need not be that pool. *)
Lemma route_hits (ps : list Pool) (f : Z) (l : list ptr) :
  (forall x, x ∈ l -> exists q, ps !! x = Some q /\ pool_ok q) ->
  sorted_by_base ps l ->
  forall (i : nat) (t : ptr) (p : Pool),
    l !! i = Some t -> ps !! t = Some p ->
    in_range p f -> base_frame_no p + nframes p <= 2 ^ 32 ->
    exists q, route ps f l = Some q.
Proof.
  induction l as [| x l IH]; intros Hall Hs i t p Hi Hp Hin Hfit;
    [discriminate |].
  destruct (Hall x ltac:(left)) as (q & Hq & Hqok).
  simpl. rewrite Hq.
  destruct (Z.leb_spec f (wrap32 (base_frame_no q + nframes q - 1)))
    as [Hhi | Hhi].
  - destruct (Z.leb_spec (base_frame_no q) f) as [Hlo | Hlo]; [eauto |].
    exfalso.
    pose proof (Hs 0%nat i x t q p ltac:(lia) eq_refl Hi Hq Hp) as Hle.
    unfold in_range in Hin. lia.
  - destruct i as [| i]; simpl in Hi.
    + exfalso. injection Hi as ->. assert (q = p) by congruence. subst q.
      destruct Hqok as (Hb & Hn & _). unfold u32, in_range in *.
      rewrite wrap32_small in Hhi by (unfold u32; lia). lia.
    + pose proof (Hs 0%nat (S i) x t q p ltac:(lia) eq_refl Hi Hq Hp) as Hle.
      destruct (Z.leb_spec (base_frame_no q) f) as [Hlo | Hlo];
        [| unfold in_range in Hin; lia].
      apply (IH ltac:(intros y Hy; apply Hall; right; exact Hy)
                ltac:(intros a b c d e g Hab Ha Hb;
                      apply (Hs (S a) (S b)); [lia | assumption ..])
                i t p Hi Hp Hin Hfit).
Qed.

(** After any release of frame [k], frame [k] is not a head of sequence. *)
Lemma release_run_again (st st1 : State) (p : Pool) (k : Z) :
  pool_ok p -> 0 <= k < nframes p ->
  release_run st p k = Done st1 ->
  release_run st1 p k = Done (puts st1 msg_not_head).
Proof.
  intros Hp Hk Hrun. apply release_run_not_head.
  destruct (get_state (mem st) p k) eqn:Hs;
    try (rewrite release_run_not_head in Hrun by congruence;
         injection Hrun as <-; simpl; congruence).
  destruct (release_run_head st p k Hp Hk Hs)
    as (e & m' & Hrun' & He & _ & _ & Hstates & _).
  rewrite Hrun' in Hrun. injection Hrun as <-. simpl.
  rewrite Hstates by lia.
  destruct (Z.leb_spec k k); destruct (Z.ltb_spec k e); cbn [andb];
    congruence || lia.
Qed.

(** X7. Releasing a frame a second time is harmless.  In a reachable
    state, for any frame number [f], two calls of [release_frames f] in a
    row both return; the second one changes neither memory nor the
    registry, and when [f] lies in the range of a pool that ends at or
    below 2^32 it reports that [f] is not a head of sequence. *)
Theorem release_frames_twice (st : State) (f : Z) :
  reachable st -> u32 f ->
  exists st1 st2,
    release_frames st f = Done st1 /\ release_frames st1 f = Done st2 /\
    mem st2 = mem st1 /\ head st2 = head st /\ pools st2 = pools st /\
    (forall t p, pools st !! t = Some p -> in_range p f ->
       base_frame_no p + nframes p <= 2 ^ 32 ->
       console st2 = console st1 ++ [msg_not_head]).
Proof.
  intros Hr Hf. destruct (reachable_ok st Hr) as (l & Hlk & Hlen & Hs & Hok).
  assert (Hall : forall x, x ∈ l -> exists q, pools st !! x = Some q /\ pool_ok q).
  { intros x Hx. apply list_elem_of_lookup in Hx as (ix & Hx).
    destruct Hlk as (_ & _ & Hl). destruct (Hl ix x Hx) as (q & Hq & _).
    exists q. split; [exact Hq | exact (Hok x q Hq)]. }
  rewrite (release_frames_route st f l Hlk Hlen).
  destruct (route (pools st) f l) as [q |] eqn:Hroute.
  - destruct (route_Some _ _ _ _ Hroute) as (t & _ & Hq & Hhit).
    pose proof (Hok t q Hq) as Hqok.
    destruct (hit_in_range q f Hqok Hhit) as (Hin & ->).
    assert (Hk : 0 <= f - base_frame_no q < nframes q)
      by (unfold in_range in Hin; lia).
    destruct (release_run_within st q _ Hqok Hk) as (st1 & Hrun & Hhd & Hps & _).
    exists st1, (puts st1 msg_not_head). split; [exact Hrun |].
    rewrite <- Hhd, <- Hps in Hlk. rewrite <- Hps in Hlen.
    rewrite (release_frames_route st1 f l Hlk Hlen), Hps, Hroute.
    destruct (hit_in_range q f Hqok Hhit) as (_ & ->).
    split; [exact (release_run_again st st1 q _ Hqok Hk Hrun) |].
    simpl. auto.
  - exists st, st. split; [reflexivity |].
    rewrite (release_frames_route st f l Hlk Hlen), Hroute.
    repeat split. intros t p Hp Hin Hfit. exfalso.
    assert (Ht : t ∈ l).
    { apply (registry_complete _ _ _ _ Hlk Hlen).
      eapply lookup_lt_Some. exact Hp. }
    apply list_elem_of_lookup in Ht as (i & Hi).
    destruct (route_hits (pools st) f l Hall Hs i t p Hi Hp Hin Hfit) as (q & Hq).
    congruence.
Qed.

Lemma release_frames_twice_witness :
  reachable (state_of boot_pool) /\ u32 512 /\
  exists st1 st2,
    release_frames (state_of boot_pool) 512 = Done st1 /\
    release_frames st1 512 = Done st2 /\
    mem st2 = mem st1 /\
    console st2 = console st1 ++ [msg_not_head].
Proof.
  pose proof boot_pool_reachable as Hr.
  assert (Hf : u32 512) by (unfold u32; lia).
  repeat (split; [assumption |]).
  destruct (release_frames_twice _ 512 Hr Hf)
    as (st1 & st2 & H1 & H2 & Hm & _ & _ & Hc).
  exists st1, st2. repeat (split; [assumption |]).
  apply (Hc 0%nat small_pool).
  - rewrite boot_pool_store. reflexivity.
  - unfold in_range. simpl. lia.
  - simpl. lia.
Defined.

(** ** The reserved bit pattern *)

Lemma entry_set_other (m : Mem) (p : Pool) (k j : Z) (s : FrameState) :
  u32 k -> u32 j -> k <> j -> entry (set_state m p k s) p j = entry m p j.
Proof.
  intros Hk Hj Hne. unfold entry. rewrite set_state_at.
  destruct (Z.eqb_spec (byte_addr p j) (byte_addr p k)) as [E | E];
    [| reflexivity].
  rewrite new_byte_other; [rewrite E; reflexivity | apply shift_of_is_shift ..|].
  symmetry in E. apply byte_addr_eq_inv in E; [| assumption ..].
  unfold shift_of. Z.div_mod_to_equations. lia.
Qed.

Lemma set_state_clean (m : Mem) (p : Pool) (k : Z) (s : FrameState) :
  pool_ok p -> 0 <= k < nframes p -> clean m p -> clean (set_state m p k s) p.
Proof.
  intros Hp Hk Hc j Hj. pose proof (pool_ok_nframes p Hp) as Hnf.
  destruct (Z.eq_dec j k) as [-> | Hne].
  - rewrite set_state_entry. destruct s; simpl; lia.
  - rewrite entry_set_other by (unfold u32; lia). apply Hc. exact Hj.
Qed.

Lemma mark_tail_clean (p : Pool) (b : Z) (cnt : nat) :
  forall (i0 : nat) (m : Mem),
    pool_ok p -> 0 <= b -> b + Z.of_nat i0 + Z.of_nat cnt <= nframes p ->
    clean m p -> clean (mark_tail m p b i0 cnt) p.
Proof.
  unfold mark_tail.
  induction cnt as [| cnt IH]; intros i0 m Hp Hb Hfit Hc; simpl; [exact Hc |].
  pose proof (pool_ok_nframes p Hp) as Hnf.
  apply IH; try assumption; [lia |].
  rewrite wrap32_small by (unfold u32; lia).
  apply set_state_clean; [exact Hp | lia | exact Hc].
Qed.

Lemma mark_inaccessible_clean (m : Mem) (p : Pool) (b n : Z) :
  pool_ok p -> 0 <= b < nframes p -> b + n <= nframes p ->
  clean m p -> clean (mark_inaccessible m p b n) p.
Proof.
  intros Hp Hb Hbn Hc. rewrite mark_inaccessible_unfold.
  apply mark_tail_clean; [exact Hp | lia | lia |].
  apply set_state_clean; assumption.
Qed.

Lemma release_tail_clean (p : Pool) :
  pool_ok p ->
  forall (fuel : nat) (fno : Z) (m m' : Mem),
    0 <= fno -> clean m p ->
    release_tail fuel m p fno = Done m' -> clean m' p.
Proof.
  intros Hp. induction fuel as [| fuel IH]; intros fno m m' Hfno Hc Hrun;
    simpl in Hrun; [discriminate |].
  destruct (Z.ltb_spec fno (nframes p)) as [Hlt | Hge]; cbn [andb] in Hrun.
  - destruct (FrameState_eqb (get_state m p fno) Used).
    + apply (IH (wrap32 (fno + 1)) (set_state m p fno Free) m');
        [| | exact Hrun].
      * pose proof (wrap32_u32 (fno + 1)) as Hu. unfold u32 in Hu. lia.
      * apply set_state_clean; [exact Hp | lia | exact Hc].
    + injection Hrun as <-. exact Hc.
  - injection Hrun as <-. exact Hc.
Qed.

Lemma release_run_clean (st st' : State) (p : Pool) (k : Z) :
  pool_ok p -> 0 <= k < nframes p -> clean (mem st) p ->
  release_run st p k = Done st' -> clean (mem st') p.
Proof.
  intros Hp Hk Hc Hrun. unfold release_run in Hrun.
  destruct (FrameState_eqb (get_state (mem st) p k) HoS).
  - destruct (release_tail _ _ p _) as [m' | |] eqn:Htail; try discriminate.
    cbn [bind] in Hrun. injection Hrun as <-. simpl.
    apply (release_tail_clean p Hp _ _ _ _) in Htail; [exact Htail | |].
    + pose proof (wrap32_u32 (k + 1)) as Hu. unfold u32 in Hu. lia.
    + apply set_state_clean; [exact Hp | exact Hk | exact Hc].
  - injection Hrun as <-. exact Hc.
Qed.

Lemma init_free_entry (p : Pool) (cnt : nat) :
  forall (i0 : nat) (m : Mem) (j : Z),
    Z.of_nat i0 + Z.of_nat cnt <= 2 ^ 32 -> u32 j ->
    entry (fold_left (fun m' fno => set_state m' p (Z.of_nat fno) Free)
                     (seq i0 cnt) m) p j
    = if (Z.of_nat i0 <=? j) && (j <? Z.of_nat i0 + Z.of_nat cnt)
      then 0 else entry m p j.
Proof.
  unfold u32.
  induction cnt as [| cnt IH]; intros i0 m j Hfit Hj; simpl.
  - zcases; try reflexivity; lia.
  - rewrite IH by lia. zcases; try reflexivity; try lia;
      try (apply entry_set_other; unfold u32; lia).
    assert (j = Z.of_nat i0) as -> by lia. apply set_state_entry.
Qed.

Lemma init_free_clean (m : Mem) (p : Pool) :
  pool_ok p -> clean (init_free m p (nframes p)) p.
Proof.
  intros Hp j Hj. pose proof (pool_ok_nframes p Hp) as Hnf.
  unfold init_free. rewrite init_free_entry by (unfold u32; lia).
  zcases; lia.
Qed.

(** X14. The allocator never writes the bit pattern [0b11].  Once no
    entry of a pool holds it, none does after [get_frames] with any
    request, after [mark_inaccessible] on a run inside the pool, or after
    the release of any frame of the pool; and the initialisation loop of
    the constructor removes it from every entry, whatever memory held. *)
Theorem clean_kept (m : Mem) (p : Pool) :
  pool_ok p ->
  clean (init_free m p (nframes p)) p /\
  (clean m p ->
   (forall n m' r, u32 n -> get_frames m p n = Done (m', r) -> clean m' p) /\
   (forall b n, 0 <= b < nframes p -> b + n <= nframes p ->
      clean (mark_inaccessible m p b n) p) /\
   (forall st k st', mem st = m -> 0 <= k < nframes p ->
      release_run st p k = Done st' -> clean (mem st') p)).
Proof.
  intros Hp. split; [apply init_free_clean; exact Hp |].
  intros Hc. split; [| split].
  - intros n m' r Hn Hrun.
    destruct (get_frames_effect m m' p n r Hp Hn Hrun)
      as [-> | (s & Hn1 & (Hs0 & Hsn & _) & ->)]; [exact Hc |].
    apply mark_inaccessible_clean; try assumption; lia.
  - intros b n Hb Hbn. apply mark_inaccessible_clean; assumption.
  - intros st k st' <- Hk Hrun. exact (release_run_clean st st' p k Hp Hk Hc Hrun).
Qed.

Lemma clean_kept_witness :
  pool_ok small_pool /\
  clean (init_free threes_mem small_pool (nframes small_pool)) small_pool.
Proof.
  pose proof small_pool_ok as Hp. split; [exact Hp |].
  exact (proj1 (clean_kept threes_mem small_pool Hp)).
Defined.

(** ** The constructor *)

Lemma init_free_within (p : Pool) (cnt : nat) :
  forall (i0 : nat) (m : Mem),
    pool_ok p -> Z.of_nat i0 + Z.of_nat cnt <= nframes p ->
    within p m (fold_left (fun m' fno => set_state m' p (Z.of_nat fno) Free)
                          (seq i0 cnt) m).
Proof.
  induction cnt as [| cnt IH]; intros i0 m Hp Hfit; simpl.
  - apply within_refl.
  - apply (within_trans p m (set_state m p (Z.of_nat i0) Free));
      [apply set_state_within; [exact Hp | lia] |].
    apply IH; [exact Hp | lia].
Qed.

(** The pool object and the bitmap that a successful constructor call
    leaves behind. *)
Lemma ContFramePool_fresh (st : State) (base n info : Z) :
  registry_ok st -> u32 base -> 1 <= n <= 16384 ->
  exists st' self,
    ContFramePool st base n info = Done st' /\
    registry_ok st' /\
    length (pools st') = S (length (pools st)) /\
    pools st' !! length (pools st) = Some self /\
    pool_ok self /\
    base_frame_no self = base /\ nframes self = n /\
    info_frame_no self = info /\ bitmap self = bitmap_addr base info /\
    (forall t p, pools st !! t = Some p ->
       exists p', pools st' !! t = Some p' /\ same_frames p p') /\
    (forall j, 0 <= j < n ->
       get_state (mem st') self j
       = if (info =? 0) && (j =? 0) then HoS else Free) /\
    within self (mem st) (mem st') /\
    clean (mem st') self /\
    console st' = console st ++ [msg_initialized].
Proof.
  intros Hreg Hbase Hn.
  destruct (ContFramePool_spec st base n info Hreg Hbase Hn)
    as (st' & self & Hrun & Hreg' & Hlen & Hself & Hb & Hnf & Hi & Hbm
        & Hold & Hmem & Hcon).
  exists st', self.
  assert (Hok : pool_ok self).
  { destruct Hreg' as (_ & _ & _ & _ & Hall). exact (Hall _ _ Hself). }
  repeat (split; [assumption |]). split; [| split; [| split; [| exact Hcon]]].
  - intros j Hj. rewrite Hmem.
    destruct (Z.eqb_spec info 0) as [E | E]; cbn [andb].
    + destruct (Z.eqb_spec j 0) as [-> | Hj0]; [apply get_set_same |].
      rewrite get_set_other by (unfold u32; lia).
      apply init_free_state; lia.
    + apply init_free_state; lia.
  - rewrite Hmem.
    assert (Hfree : within self (mem st) (init_free (mem st) self n)).
    { unfold init_free. apply init_free_within; [exact Hok | lia]. }
    destruct (info =? 0); [| exact Hfree].
    eapply within_trans; [exact Hfree |].
    apply set_state_within; [exact Hok | lia].
  - rewrite Hmem, <- Hnf.
    pose proof (init_free_clean (mem st) self Hok) as Hc.
    destruct (info =? 0); [| exact Hc].
    apply set_state_clean; [exact Hok | lia | exact Hc].
Qed.

(** X8. The constructor accepts exactly the pool sizes 1 to 16384.  In a
    reachable state a call with [_n_frames] in that range returns, with
    one more pool in the object store and one line on the console; a call
    with [_n_frames = 0] or [_n_frames > 16384] fails an assertion. *)
Theorem ContFramePool_accepts (st : State) (base n info : Z) :
  reachable st -> u32 base -> u32 n ->
  (1 <= n <= 16384 ->
   exists st',
     ContFramePool st base n info = Done st' /\
     length (pools st') = S (length (pools st)) /\
     console st' = console st ++ [msg_initialized]) /\
  (n = 0 \/ 16384 < n -> ContFramePool st base n info = Halted).
Proof.
  intros Hr Hbase Hn. split.
  - intros Hrange.
    destruct (ContFramePool_fresh st base n info (reachable_ok st Hr) Hbase Hrange)
      as (st' & self & Hrun & _ & Hlen & _ & _ & _ & _ & _ & _ & _ & _ & _ & _ & Hcon).
    exists st'. auto.
  - intros Hbad. unfold ContFramePool, assert.
    destruct (Z.leb_spec n (wrap32 (FRAME_SIZE * 8) / 2)) as [Hle |];
      [| reflexivity].
    destruct (Z.eqb_spec (needed_info_frames n) 1) as [Hone |]; [| reflexivity].
    exfalso. pose proof (proj1 (ctor_asserts n Hn) (conj Hle Hone)). lia.
Qed.

Lemma ContFramePool_accepts_witness :
  reachable (initial_state zero_mem) /\ u32 512 /\ u32 0 /\
  ContFramePool (initial_state zero_mem) 512 0 0 = Halted.
Proof.
  assert (Hr : reachable (initial_state zero_mem)) by apply reach_boot.
  assert (Hb : u32 512) by (unfold u32; lia).
  assert (Hn : u32 0) by (unfold u32; lia).
  repeat (split; [assumption |]).
  apply (proj2 (ContFramePool_accepts _ 512 0 0 Hr Hb Hn)). left. reflexivity.
Defined.

(** X9. The bitmap of a new pool does not depend on what memory held
    before.  After a constructor call that returns, every frame of the new
    pool is free, except frame 0 when the pool stores its own bitmap, which
    is a head of sequence; no [Used] entry and no entry with the bit
    pattern [0b11] is left in the bitmap; memory outside the pool's info
    frame is as before; and every pool whose bitmap lies in another frame
    reads as before. *)
Theorem ContFramePool_bitmap (st st' : State) (base n info : Z) :
  reachable st -> u32 base -> u32 n ->
  ContFramePool st base n info = Done st' ->
  exists self,
    pools st' !! length (pools st) = Some self /\
    bitmap self = bitmap_addr base info /\
    (forall j, 0 <= j < n ->
       get_state (mem st') self j
       = if (info =? 0) && (j =? 0) then HoS else Free) /\
    tidy (mem st') self /\
    clean (mem st') self /\
    within self (mem st) (mem st') /\
    (forall t q, pools st !! t = Some q -> bitmap q <> bitmap self ->
       same_states q (mem st) (mem st')).
Proof.
  intros Hr Hbase Hn Hrun.
  pose proof (ContFramePool_Done st st' base n info Hn Hrun) as Hrange.
  pose proof (reachable_ok st Hr) as Hreg.
  destruct (ContFramePool_fresh st base n info Hreg Hbase Hrange)
    as (st1 & self & Hrun' & _ & _ & Hself & Hok & _ & Hnf & _ & Hbm
        & _ & Hstates & Hwithin & Hclean & _).
  rewrite Hrun' in Hrun. injection Hrun as <-.
  exists self. repeat (split; [assumption |]).
  split; [| split; [exact Hclean | split; [exact Hwithin |]]].
  - intros j Hj Hu. rewrite Hnf in Hj. rewrite Hstates in Hu by lia.
    revert Hu. destruct ((info =? 0) && (j =? 0)); discriminate.
  - intros t q Hq Hne j Hj.
    destruct Hreg as (_ & _ & _ & _ & Hall).
    apply (within_get_state self q); auto. exact (Hall t q Hq).
Qed.

Lemma ContFramePool_bitmap_witness :
  reachable (initial_state threes_mem) /\ u32 512 /\ u32 8 /\
  ContFramePool (initial_state threes_mem) 512 8 0
  = Done (state_of (ContFramePool (initial_state threes_mem) 512 8 0)) /\
  exists self,
    pools (state_of (ContFramePool (initial_state threes_mem) 512 8 0)) !! 0%nat
    = Some self /\
    tidy (mem (state_of (ContFramePool (initial_state threes_mem) 512 8 0))) self.
Proof.
  assert (Hr : reachable (initial_state threes_mem)) by apply reach_boot.
  assert (Hb : u32 512) by (unfold u32; lia).
  assert (Hn : u32 8) by (unfold u32; lia).
  assert (Hrun : ContFramePool (initial_state threes_mem) 512 8 0
                 = Done (state_of (ContFramePool (initial_state threes_mem) 512 8 0)))
    by (vm_compute; reflexivity).
  repeat (split; [assumption |]).
  destruct (ContFramePool_bitmap _ _ 512 8 0 Hr Hb Hn Hrun)
    as (self & Hself & _ & _ & Ht & _).
  exists self. split; assumption.
Defined.

(** ** Allocation stays inside the info frame *)

Lemma get_frames_within (m m' : Mem) (p : Pool) (n r : Z) :
  pool_ok p -> u32 n -> get_frames m p n = Done (m', r) -> within p m m'.
Proof.
  intros Hp Hn Hrun.
  destruct (get_frames_effect m m' p n r Hp Hn Hrun)
    as [-> | (s & Hn1 & (Hs0 & Hsn & _) & ->)]; [apply within_refl |].
  apply mark_inaccessible_within; [exact Hp | lia | lia].
Qed.

(** X10. An allocation writes nowhere but in the info frame of its pool.
    Whatever [get_frames] is asked for, memory outside the frame that holds
    the pool's bitmap is unchanged when it returns, and every frame of
    every pool whose bitmap lies in another frame keeps its state; the
    same holds for [mark_inaccessible] on a run inside the pool. *)
Theorem get_frames_confined (m : Mem) (p : Pool) :
  pool_ok p ->
  (forall n m' r, u32 n -> get_frames m p n = Done (m', r) ->
     within p m m' /\
     forall q, pool_ok q -> bitmap q <> bitmap p -> same_states q m m') /\
  (forall b n, 0 <= b < nframes p -> b + n <= nframes p ->
     within p m (mark_inaccessible m p b n) /\
     forall q, pool_ok q -> bitmap q <> bitmap p ->
       same_states q m (mark_inaccessible m p b n)).
Proof.
  intros Hp. split.
  - intros n m' r Hn Hrun.
    pose proof (get_frames_within m m' p n r Hp Hn Hrun) as Hw.
    split; [exact Hw |]. intros q Hq Hne j Hj.
    apply (within_get_state p q); auto.
  - intros b n Hb Hbn.
    pose proof (mark_inaccessible_within m p b n Hp Hb Hbn) as Hw.
    split; [exact Hw |]. intros q Hq Hne j Hj.
    apply (within_get_state p q); auto.
Qed.

Lemma low_pool_ok : pool_ok low_pool.
Proof. unfold pool_ok, u32. simpl. repeat split; lia || reflexivity. Qed.

Lemma high_pool_ok : pool_ok high_pool.
Proof. unfold pool_ok, u32. simpl. repeat split; lia || reflexivity. Qed.

Lemma get_frames_confined_witness :
  pool_ok low_pool /\ pool_ok high_pool /\
  same_states high_pool zero_mem (memory_of (get_frames zero_mem low_pool 3)).
Proof.
  pose proof low_pool_ok as Hp. pose proof high_pool_ok as Hq.
  repeat (split; [assumption |]).
  assert (Hn : u32 3) by (unfold u32; lia).
  assert (Hrun : get_frames zero_mem low_pool 3
                 = Done (memory_of (get_frames zero_mem low_pool 3), 512))
    by (vm_compute; reflexivity).
  apply (proj2 (proj1 (get_frames_confined zero_mem low_pool Hp) 3 _ 512 Hn Hrun)).
  - exact Hq.
  - simpl. lia.
Defined.

(** ** [mark_inaccessible] on its own *)

(** X22. [mark_inaccessible] does not look at what it marks, and always
    marks at least one frame.  For a run inside the pool, whatever the
    frames held before, frame [b] is a head of sequence afterwards and the
    frames [b + 1] to [b + n - 1] are used; every other frame of the pool
    keeps its state; and for [n <= 1], zero included, the result is that
    of the single write [set_state b HoS]. *)
Theorem mark_inaccessible_effect (m : Mem) (p : Pool) (b n : Z) :
  pool_ok p -> 0 <= b < nframes p -> b + n <= nframes p ->
  get_state (mark_inaccessible m p b n) p b = HoS /\
  (forall j, b < j < b + n -> get_state (mark_inaccessible m p b n) p j = Used) /\
  (forall j, 0 <= j < nframes p -> j <> b -> ~ (b < j < b + n) ->
     get_state (mark_inaccessible m p b n) p j = get_state m p j) /\
  (n <= 1 -> mark_inaccessible m p b n = set_state m p b HoS).
Proof.
  intros Hp Hb Hbn. split; [| split; [| split]].
  - rewrite mark_inaccessible_states by (try assumption; lia).
    rewrite Z.eqb_refl. reflexivity.
  - intros j Hj. rewrite mark_inaccessible_states by (try assumption; lia).
    zcases; try reflexivity; lia.
  - intros j Hj Hne Hout.
    rewrite mark_inaccessible_states by (try assumption; lia).
    zcases; try reflexivity; lia.
  - intros Hn. unfold mark_inaccessible.
    replace (Z.to_nat n - 1)%nat with 0%nat by lia. reflexivity.
Qed.

Lemma mark_inaccessible_effect_witness :
  pool_ok small_pool /\ 0 <= 3 < nframes small_pool /\
  3 + 0 <= nframes small_pool /\
  get_state (mark_inaccessible zero_mem small_pool 3 0) small_pool 3 = HoS.
Proof.
  pose proof small_pool_ok as Hp.
  assert (Hb : 0 <= 3 < nframes small_pool) by (simpl; lia).
  assert (Hbn : 3 + 0 <= nframes small_pool) by (simpl; lia).
  repeat (split; [assumption |]).
  exact (proj1 (mark_inaccessible_effect zero_mem small_pool 3 0 Hp Hb Hbn)).
Defined.

(** ** Pools whose allocated frames form a prefix *)

Lemma get_frames_packed_fits (m : Mem) (p : Pool) (top n : Z) :
  pool_ok p -> packed m p top -> 1 <= n < 2 ^ 32 -> top + n <= nframes p ->
  get_frames m p n
  = Done (mark_inaccessible m p top n, wrap32 (top + base_frame_no p)) /\
  packed (mark_inaccessible m p top n) p (top + n) /\
  get_state (mark_inaccessible m p top n) p top = HoS /\
  (forall j, top < j < top + n ->
     get_state (mark_inaccessible m p top n) p j = Used).
Proof.
  intros Hp (Htop & Hbusy & Hfree) Hn Hfit.
  pose proof (pool_ok_nframes p Hp) as Hnf.
  assert (Hw : free_window m p n top).
  { split; [lia |]. split; [lia |]. intros i Hi. apply Hfree. lia. }
  assert (Hget : forall j, 0 <= j < nframes p ->
            get_state (mark_inaccessible m p top n) p j
            = if j =? top then HoS
              else if (top <? j) && (j <? top + n) then Used
                   else get_state m p j).
  { intros j Hj. apply mark_inaccessible_states; try assumption; lia. }
  split; [| split; [| split]].
  - destruct (get_frames_cases m p n Hnf Hn)
      as [(s & (Hs0 & Hsn & Hsfree) & Hlow & Hrun) | (Hnone & _)];
      [| exfalso; exact (Hnone top Hw)].
    assert (s = top) as ->; [| exact Hrun].
    pose proof (Hlow top Hw) as Hle.
    destruct (Z.eq_dec s top) as [E | E]; [exact E |]. exfalso.
    apply (Hbusy s ltac:(lia)).
    replace s with (s + 0) by lia. apply Hsfree. lia.
  - split; [lia |]. split.
    + intros j Hj. rewrite Hget by lia.
      zcases; try congruence; apply Hbusy; lia.
    + intros j Hj. rewrite Hget by lia. zcases; try lia; apply Hfree; lia.
  - rewrite Hget by lia. rewrite Z.eqb_refl. reflexivity.
  - intros j Hj. rewrite Hget by lia. zcases; try reflexivity; lia.
Qed.

Lemma get_frames_packed_full (m : Mem) (p : Pool) (top n : Z) :
  pool_ok p -> packed m p top -> 1 <= n < 2 ^ 32 -> nframes p < top + n ->
  get_frames m p n = Done (m, 0).
Proof.
  intros Hp (Htop & Hbusy & _) Hn Hfull.
  pose proof (pool_ok_nframes p Hp) as Hnf.
  destruct (get_frames_cases m p n Hnf Hn)
    as [(s & (Hs0 & Hsn & Hsfree) & _) | (_ & Hrun)]; [| exact Hrun].
  exfalso. apply (Hbusy s ltac:(lia)).
  replace s with (s + 0) by lia. apply Hsfree. lia.
Qed.

(** Releasing the topmost run of a packed pool. *)
Lemma release_run_packed (st : State) (p : Pool) (top n : Z) :
  pool_ok p -> 0 <= top -> 1 <= n ->
  packed (mem st) p (top + n) ->
  get_state (mem st) p top = HoS ->
  (forall j, top < j < top + n -> get_state (mem st) p j = Used) ->
  exists m',
    release_run st p top = Done (with_mem st m') /\
    packed m' p top /\
    within p (mem st) m' /\
    (forall j, 0 <= j < top -> get_state m' p j = get_state (mem st) p j).
Proof.
  intros Hp Htop Hn (Hfit & Hbusy & Hfree) Hhead Hused.
  destruct (release_run_head st p top Hp ltac:(lia) Hhead)
    as (e & m' & Hrun & He & Hrun_used & Hstop & Hstates & Hwithin).
  exists m'. split; [exact Hrun |].
  assert (Hlo : top + n <= e).
  { destruct (Z.le_gt_cases (top + n) e) as [Hle | Hgt]; [exact Hle |].
    exfalso. apply Hstop; [lia |]. apply Hused. lia. }
  assert (Hhi : e <= top + n).
  { destruct (Z.le_gt_cases e (top + n)) as [Hle | Hgt]; [exact Hle |].
    exfalso. pose proof (Hrun_used (top + n) ltac:(lia)) as Hu.
    rewrite Hfree in Hu by lia. discriminate. }
  split; [| split; [exact Hwithin |]].
  - split; [lia |]. split.
    + intros j Hj. rewrite Hstates by lia. zcases; try lia; apply Hbusy; lia.
    + intros j Hj. rewrite Hstates by lia.
      zcases; try reflexivity; apply Hfree; lia.
  - intros j Hj. rewrite Hstates by lia. zcases; try reflexivity; lia.
Qed.

(** X11. On a pool whose allocated frames are exactly its first [top]
    frames, [get_frames] is a bump allocator: a request that fits gets the
    run that starts at frame [top] and leaves the first [top + n] frames
    allocated; a request that does not fit returns 0 and changes nothing;
    and releasing the run just handed out brings the pool back to [top]. *)
Theorem get_frames_packed (st : State) (p : Pool) (top n : Z) :
  pool_ok p -> packed (mem st) p top -> 1 <= n < 2 ^ 32 ->
  (top + n <= nframes p ->
   exists m1,
     get_frames (mem st) p n = Done (m1, wrap32 (top + base_frame_no p)) /\
     packed m1 p (top + n) /\
     exists m2,
       release_run (with_mem st m1) p top = Done (with_mem (with_mem st m1) m2) /\
       packed m2 p top) /\
  (nframes p < top + n -> get_frames (mem st) p n = Done (mem st, 0)).
Proof.
  intros Hp Hpk Hn. split.
  - intros Hfit.
    destruct (get_frames_packed_fits (mem st) p top n Hp Hpk Hn Hfit)
      as (Hrun & Hpk1 & Hhead & Hused).
    eexists. split; [exact Hrun |]. split; [exact Hpk1 |].
    destruct Hpk as (Htop & _).
    destruct (release_run_packed (with_mem st (mark_inaccessible (mem st) p top n))
                p top n Hp ltac:(lia) ltac:(lia) Hpk1 Hhead Hused)
      as (m2 & Hrel & Hpk2 & _).
    exists m2. split; assumption.
  - intros Hfull. exact (get_frames_packed_full (mem st) p top n Hp Hpk Hn Hfull).
Qed.

Lemma boot_pool_packed : packed (mem (state_of boot_pool)) small_pool 1.
Proof.
  split; [simpl; lia |]. split.
  - intros j Hj. rewrite boot_pool_states by lia. zcases; try congruence; lia.
  - intros j Hj. simpl in Hj. rewrite boot_pool_states by lia.
    zcases; try reflexivity; lia.
Qed.

Lemma get_frames_packed_witness :
  pool_ok small_pool /\ packed (mem (state_of boot_pool)) small_pool 1 /\
  1 <= 8 < 2 ^ 32 /\ nframes small_pool < 1 + 8 /\
  get_frames (mem (state_of boot_pool)) small_pool 8
  = Done (mem (state_of boot_pool), 0).
Proof.
  pose proof small_pool_ok as Hp. pose proof boot_pool_packed as Hpk.
  assert (Hn : 1 <= 8 < 2 ^ 32) by lia.
  assert (Hfull : nframes small_pool < 1 + 8) by (simpl; lia).
  repeat (split; [assumption |]).
  exact (proj2 (get_frames_packed (state_of boot_pool) small_pool 1 8 Hp Hpk Hn)
               Hfull).
Defined.

(** ** Counting free frames *)

Lemma free_below_bounds (m : Mem) (p : Pool) (k : nat) :
  0 <= free_below m p k <= Z.of_nat k.
Proof.
  induction k as [| k IH]; simpl free_below; [lia |].
  destruct (FrameState_eqb _ _); lia.
Qed.

(** The count drops by the size of a window whose frames were free and no
    longer are, when every other frame keeps its state. *)
Lemma free_below_taken (m m' : Mem) (p : Pool) (s n : Z) (k : nat) :
  0 <= s -> 0 <= n ->
  (forall j, 0 <= j < Z.of_nat k -> s <= j < s + n ->
     get_state m p j = Free /\ get_state m' p j <> Free) ->
  (forall j, 0 <= j < Z.of_nat k -> ~ (s <= j < s + n) ->
     get_state m' p j = get_state m p j) ->
  free_below m' p k
  = free_below m p k - Z.max 0 (Z.min (Z.of_nat k) (s + n) - s).
Proof.
  intros Hs Hn. induction k as [| k IH]; intros Hin Hout; simpl free_below; [lia |].
  rewrite IH by (intros j Hj; first [apply Hin | apply Hout]; lia).
  destruct (Z.lt_ge_cases (Z.of_nat k) s) as [Hlo | Hlo];
    [| destruct (Z.lt_ge_cases (Z.of_nat k) (s + n)) as [Hhi | Hhi]].
  - rewrite (Hout (Z.of_nat k)) by lia. lia.
  - destruct (Hin (Z.of_nat k) ltac:(lia) ltac:(lia)) as (Hwas & Hnow).
    rewrite Hwas. apply FrameState_eqb_neq in Hnow. rewrite Hnow. simpl. lia.
  - rewrite (Hout (Z.of_nat k)) by lia. lia.
Qed.

Lemma free_frames_bounds (m : Mem) (p : Pool) :
  0 <= nframes p -> 0 <= free_frames m p <= nframes p.
Proof.
  intros Hn. unfold free_frames.
  pose proof (free_below_bounds m p (Z.to_nat (nframes p))). lia.
Qed.

Lemma free_frames_taken (m m' : Mem) (p : Pool) (s n : Z) :
  0 <= s -> 0 <= n -> s + n <= nframes p ->
  (forall j, s <= j < s + n -> get_state m p j = Free /\ get_state m' p j <> Free) ->
  (forall j, 0 <= j < nframes p -> ~ (s <= j < s + n) ->
     get_state m' p j = get_state m p j) ->
  free_frames m' p = free_frames m p - n.
Proof.
  intros Hs Hn Hfit Hin Hout. unfold free_frames.
  rewrite (free_below_taken m m' p s n) by
    (try assumption; intros j Hj;
     first [intros Hw; apply Hin; exact Hw | apply Hout; lia]).
  lia.
Qed.

(** X12. The number of free frames of a pool is accounted for exactly by
    [get_frames]: a call with [n >= 1] that finds a window lowers it by
    [n]; a call that finds none leaves it as it is; and a request for more
    frames than are free in the pool returns 0 with memory unchanged. *)
Theorem get_frames_accounting (m m' : Mem) (p : Pool) (n r : Z) :
  pool_ok p -> 1 <= n < 2 ^ 32 -> get_frames m p n = Done (m', r) ->
  0 <= free_frames m' p <= nframes p /\
  (free_frames m p < n -> r = 0 /\ m' = m) /\
  ((exists s, free_window m p n s) -> free_frames m' p = free_frames m p - n) /\
  ((~ exists s, free_window m p n s) -> free_frames m' p = free_frames m p).
Proof.
  intros Hp Hn Hrun. pose proof (pool_ok_nframes p Hp) as Hnf.
  pose proof (free_frames_bounds m' p ltac:(lia)) as Hb'.
  split; [exact Hb' |].
  destruct (get_frames_cases m p n Hnf Hn)
    as [(s & Hw & _ & Hrun') | (Hnone & Hrun')];
    rewrite Hrun' in Hrun; injection Hrun as <- <-.
  - pose proof Hw as (Hs0 & Hsn & Hfree).
    assert (Hcount : free_frames (mark_inaccessible m p s n) p = free_frames m p - n).
    { apply (free_frames_taken m _ p s n); try lia.
      - intros j Hj. split.
        + replace j with (s + (j - s)) by lia. apply Hfree. lia.
        + rewrite mark_inaccessible_states by (try assumption; lia).
          zcases; try congruence; lia.
      - intros j Hj Hout. rewrite mark_inaccessible_states by (try assumption; lia).
        zcases; try reflexivity; lia. }
    split; [| split].
    + intros Hfew. exfalso. lia.
    + intros _. exact Hcount.
    + intros Hno. exfalso. apply Hno. exists s. exact Hw.
  - split; [| split].
    + auto.
    + intros (s & Hw). exfalso. exact (Hnone s Hw).
    + reflexivity.
Qed.

Lemma get_frames_accounting_witness :
  pool_ok small_pool /\ 1 <= 3 < 2 ^ 32 /\
  get_frames (mem (state_of boot_pool)) small_pool 3
  = Done (memory_of (get_frames (mem (state_of boot_pool)) small_pool 3), 513) /\
  free_frames (mem (state_of boot_pool)) small_pool = 7 /\
  free_frames (memory_of (get_frames (mem (state_of boot_pool)) small_pool 3))
              small_pool = 7 - 3.
Proof.
  pose proof small_pool_ok as Hp.
  assert (Hn : 1 <= 3 < 2 ^ 32) by lia.
  assert (Hrun : get_frames (mem (state_of boot_pool)) small_pool 3
                 = Done (memory_of (get_frames (mem (state_of boot_pool))
                                               small_pool 3), 513))
    by (vm_compute; reflexivity).
  assert (H7 : free_frames (mem (state_of boot_pool)) small_pool = 7)
    by (vm_compute; reflexivity).
  repeat (split; [assumption |]).
  rewrite <- H7.
  apply (proj1 (proj2 (proj2 (get_frames_accounting _ _ small_pool 3 513
                                                    Hp Hn Hrun)))).
  exists 1. destruct boot_pool_packed as (_ & _ & Hfree).
  split; [lia |]. split; [simpl; lia |].
  intros i Hi. apply Hfree. simpl. lia.
Defined.

(** X13. A release never lowers the number of free frames of the pool: it
    raises it by the length of the run it frees, which is at least one,
    when the frame is a head of sequence, and leaves it as it is
    otherwise. *)
Theorem release_run_accounting (st st' : State) (p : Pool) (k : Z) :
  pool_ok p -> 0 <= k < nframes p -> release_run st p k = Done st' ->
  (get_state (mem st) p k = HoS ->
   exists e, k < e <= nframes p /\
     (forall j, k < j < e -> get_state (mem st) p j = Used) /\
     (e < nframes p -> get_state (mem st) p e <> Used) /\
     free_frames (mem st') p = free_frames (mem st) p + (e - k)) /\
  (get_state (mem st) p k <> HoS ->
   free_frames (mem st') p = free_frames (mem st) p).
Proof.
  intros Hp Hk Hrun. split.
  - intros Hs.
    destruct (release_run_head st p k Hp Hk Hs)
      as (e & m' & Hrun' & He & Hused & Hstop & Hstates & _).
    rewrite Hrun' in Hrun. injection Hrun as <-. simpl.
    exists e. repeat (split; [assumption |]).
    assert (Hcount : free_frames (mem st) p = free_frames m' p - (e - k)).
    { apply (free_frames_taken m' (mem st) p k (e - k)); try lia.
      - intros j Hj. split.
        + rewrite Hstates by lia. zcases; try reflexivity; lia.
        + destruct (Z.eq_dec j k) as [-> | Hne]; [congruence |].
          rewrite Hused by lia. congruence.
      - intros j Hj Hout. rewrite Hstates by lia.
        zcases; try reflexivity; lia. }
    lia.
  - intros Hs. rewrite release_run_not_head in Hrun by exact Hs.
    injection Hrun as <-. reflexivity.
Qed.

Lemma release_run_accounting_witness :
  pool_ok small_pool /\ 0 <= 0 < nframes small_pool /\
  release_run (state_of boot_pool) small_pool 0
  = Done (state_of (release_run (state_of boot_pool) small_pool 0)) /\
  exists e,
    free_frames (mem (state_of (release_run (state_of boot_pool) small_pool 0)))
                small_pool
    = free_frames (mem (state_of boot_pool)) small_pool + (e - 0).
Proof.
  pose proof small_pool_ok as Hp.
  assert (Hk : 0 <= 0 < nframes small_pool) by (simpl; lia).
  assert (Hrun : release_run (state_of boot_pool) small_pool 0
                 = Done (state_of (release_run (state_of boot_pool) small_pool 0)))
    by (vm_compute; reflexivity).
  repeat (split; [assumption |]).
  destruct (proj1 (release_run_accounting _ _ small_pool 0 Hp Hk Hrun)
                  ltac:(vm_compute; reflexivity))
    as (e & _ & _ & _ & Hcount).
  exists e. exact Hcount.
Defined.

(** ** A pool whose bitmap lives in a frame of another pool *)

(** X24. The set-up of a second pool.  Let [get_frames 1] on a pool [K]
    of a reachable state return a frame [r] other than 0, where [K] ends
    at or below frame 2^20 and its own bitmap is not in one of its free
    frames.  If a pool is then constructed with [r] as its info frame, its
    bitmap lies at [r * 4096], apart from the bitmap of [K]; the
    construction leaves the state of every frame of [K] as the allocation
    left it, frame [r] still a head of sequence; and every frame of the new
    pool is free. *)
Theorem info_frame_from_pool
        (st st2 : State) (t : ptr) (K : Pool) (m1 : Mem) (r base n : Z) :
  reachable st -> pools st !! t = Some K ->
  base_frame_no K + nframes K <= 2 ^ 20 ->
  info_frame_kept (mem st) K ->
  get_frames (mem st) K 1 = Done (m1, r) -> r <> 0 ->
  u32 base -> u32 n ->
  ContFramePool (with_mem st m1) base n r = Done st2 ->
  exists K' P,
    pools st2 !! t = Some K' /\ same_frames K K' /\
    pools st2 !! length (pools st) = Some P /\
    base_frame_no P = base /\ nframes P = n /\
    bitmap P = r * FRAME_SIZE /\ bitmap P <> bitmap K /\
    in_range K r /\
    get_state (mem st2) K (r - base_frame_no K) = HoS /\
    same_states K m1 (mem st2) /\
    (forall j, 0 <= j < n -> get_state (mem st2) P j = Free).
Proof.
  intros Hr Ht Hfit Hkept Hrun Hne Hbase Hn Hctor.
  pose proof (reachable_ok st Hr) as Hreg.
  pose proof Hreg as (_ & _ & _ & _ & Hok). pose proof (Hok t K Ht) as HK.
  pose proof (pool_ok_nframes K HK) as Hnf.
  pose proof HK as (HbK & _). unfold u32 in HbK.
  destruct (get_frames_result _ m1 K 1 r HK ltac:(lia) ltac:(lia) Hrun)
    as [(s & (Hs0 & Hsn & Hfree) & _ & -> & ->) | (_ & _ & ->)]; [| congruence].
  specialize (Hfree 0 ltac:(lia)). rewrite Z.add_0_r in Hfree.
  pose proof (ContFramePool_Done _ _ _ _ _ Hn Hctor) as Hrange.
  destruct (ContFramePool_fresh (with_mem st (mark_inaccessible (mem st) K s 1))
              base n (s + base_frame_no K)
              (registry_ok_with_mem st _ Hreg) Hbase Hrange)
    as (st2' & P & Hctor' & _ & _ & HP & HPok & HPb & HPn & _ & HPbm & Hold
        & HPstates & HPwithin & _).
  rewrite Hctor' in Hctor. injection Hctor as ->.
  cbn [pools mem with_mem] in HP, Hold, HPwithin.
  destruct (Hold t K Ht) as (K' & HK' & Hsame).
  assert (Hbm : bitmap P = (s + base_frame_no K) * FRAME_SIZE).
  { rewrite HPbm. unfold bitmap_addr, FRAME_SIZE.
    destruct (Z.eqb_spec (s + base_frame_no K) 0); [lia |].
    apply wrap32_small. unfold u32. lia. }
  assert (Hapart : bitmap P <> bitmap K).
  { rewrite Hbm. intros E. apply (Hkept s ltac:(lia)); [| exact Hfree].
    rewrite <- E. f_equal. lia. }
  assert (Hstates : same_states K (mark_inaccessible (mem st) K s 1) (mem st2)).
  { intros j Hj. apply (within_get_state P K); auto. }
  exists K', P. repeat (split; [assumption |]).
  split; [unfold in_range; lia |]. split; [| split; [exact Hstates |]].
  - replace (s + base_frame_no K - base_frame_no K) with s by lia.
    rewrite Hstates by lia.
    rewrite mark_inaccessible_states by (try assumption; lia).
    rewrite Z.eqb_refl. reflexivity.
  - intros j Hj. rewrite HPstates by lia.
    destruct (Z.eqb_spec (s + base_frame_no K) 0); [lia | reflexivity].
Qed.

Lemma info_frame_from_pool_witness :
  reachable (state_of boot_pool) /\
  pools (state_of boot_pool) !! 0%nat = Some small_pool /\
  base_frame_no small_pool + nframes small_pool <= 2 ^ 20 /\
  info_frame_kept (mem (state_of boot_pool)) small_pool /\
  returned (get_frames (mem (state_of boot_pool)) small_pool 1) = Some 513 /\
  u32 1024 /\ u32 8 /\
  exists st2 P,
    ContFramePool
      (with_mem (state_of boot_pool)
                (memory_of (get_frames (mem (state_of boot_pool)) small_pool 1)))
      1024 8 513 = Done st2 /\
    pools st2 !! 1%nat = Some P /\
    bitmap P = 513 * FRAME_SIZE /\ bitmap P <> bitmap small_pool.
Proof.
  pose proof boot_pool_reachable as Hr.
  assert (Hp : pools (state_of boot_pool) !! 0%nat = Some small_pool)
    by (rewrite boot_pool_store; reflexivity).
  assert (Hfit : base_frame_no small_pool + nframes small_pool <= 2 ^ 20)
    by (simpl; lia).
  pose proof boot_pool_kept as Hk.
  set (m1 := memory_of (get_frames (mem (state_of boot_pool)) small_pool 1)).
  assert (Hrun : get_frames (mem (state_of boot_pool)) small_pool 1
                 = Done (m1, 513)) by (vm_compute; reflexivity).
  assert (Hb : u32 1024) by (unfold u32; lia).
  assert (Hn : u32 8) by (unfold u32; lia).
  repeat (split; [assumption |]).
  split; [rewrite Hrun; reflexivity |]. repeat (split; [assumption |]).
  set (st2 := state_of (ContFramePool (with_mem (state_of boot_pool) m1)
                                      1024 8 513)).
  assert (Hctor : ContFramePool (with_mem (state_of boot_pool) m1) 1024 8 513
                  = Done st2) by (vm_compute; reflexivity).
  destruct (info_frame_from_pool _ st2 0%nat small_pool m1 513 1024 8
              Hr Hp Hfit Hk Hrun ltac:(lia) Hb Hn Hctor)
    as (K' & P & _ & _ & HP & _ & _ & Hbm & Hapart & _).
  exists st2, P. split; [exact Hctor |].
  rewrite boot_pool_store in HP. simpl in HP.
  repeat (split; [assumption |]). exact Hapart.
Defined.

(** ** Bitmaps under well-behaved clients *)

Lemma entry_same_frames (m : Mem) (p p' : Pool) (j : Z) :
  same_frames p p' -> entry m p' j = entry m p j.
Proof.
  intros (_ & _ & _ & Hbm). unfold entry, byte_addr. rewrite Hbm. reflexivity.
Qed.

Lemma get_state_same_frames (m : Mem) (p p' : Pool) (j : Z) :
  same_frames p p' -> get_state m p' j = get_state m p j.
Proof.
  intros H. unfold get_state. rewrite (entry_same_frames m p p' j H). reflexivity.
Qed.

(** Health of a bitmap depends on the entries of the pool only. *)
Lemma healthy_ext (m m' : Mem) (p p' : Pool) :
  nframes p' = nframes p ->
  (forall j, 0 <= j < nframes p -> entry m' p' j = entry m p j) ->
  tidy m p /\ clean m p -> tidy m' p' /\ clean m' p'.
Proof.
  intros Hn Hsame (Ht & Hc).
  assert (Hget : forall j, 0 <= j < nframes p ->
            get_state m' p' j = get_state m p j).
  { intros j Hj. unfold get_state. rewrite Hsame by exact Hj. reflexivity. }
  split.
  - intros j Hj Hu. rewrite Hn in Hj. rewrite Hget in Hu by exact Hj.
    destruct (Ht j Hj Hu) as (H1 & Hprev). split; [exact H1 |].
    rewrite Hget by lia. exact Hprev.
  - intros j Hj. rewrite Hn in Hj. rewrite Hsame by exact Hj. apply Hc. exact Hj.
Qed.

(** A change confined to the info frame of one pool leaves the entries of
    a pool with another bitmap frame alone. *)
Lemma within_entry (p q : Pool) (m m' : Mem) (j : Z) :
  pool_ok p -> pool_ok q -> bitmap p <> bitmap q ->
  within p m m' -> 0 <= j < nframes q ->
  entry m' q j = entry m q j.
Proof.
  intros Hp Hq Hne Hw Hj. unfold entry. rewrite Hw; [reflexivity |].
  intros Ha. eapply (info_frames_apart q p); eauto.
  apply byte_addr_in_info_frame; assumption.
Qed.

(** An operation on the pool at index [t] that stays inside its info frame
    and keeps its bitmap healthy keeps every bitmap healthy. *)
Lemma healthy_update (st : State) (t : ptr) (p : Pool) (m' : Mem) :
  registry_ok st -> separate_bitmaps (pools st) -> healthy st ->
  pools st !! t = Some p -> within p (mem st) m' ->
  tidy m' p /\ clean m' p ->
  healthy (with_mem st m').
Proof.
  intros (_ & _ & _ & _ & Hok) Hsep Hh Ht Hw Hp t' q Hq.
  cbn [pools mem with_mem] in *.
  destruct (Nat.eq_dec t' t) as [-> | Hne].
  - assert (q = p) by congruence. subst q. exact Hp.
  - apply (healthy_ext (mem st) m' q q); [reflexivity | | exact (Hh t' q Hq)].
    intros j Hj. apply (within_entry p q); eauto.
Qed.

Lemma sound_step_keeps (st st' : State) :
  registry_ok st -> separate_bitmaps (pools st) -> healthy st ->
  sound_step st st' ->
  registry_ok st' /\ separate_bitmaps (pools st') /\ healthy st'.
Proof.
  intros Hreg Hsep Hh Hstep. pose proof Hreg as (l & Hlk & Hlen & Hs & Hok).
  destruct Hstep as [base n info st' Hb Hn Hi Hnew Hctor
                    | t p n m' r Ht Hn Hrun
                    | t p b n Ht Hb Hbn
                    | f st' Hf Hrel].
  - pose proof (ContFramePool_Done _ _ _ _ _ Hn Hctor) as Hrange.
    destruct (ContFramePool_fresh st base n info Hreg Hb Hrange)
      as (st1 & self & Hctor' & Hreg' & Hlen' & Hself & Hsok & _ & Hsn & _ & Hbm
          & Hold & Hstates & Hwithin & Hclean & _).
    rewrite Hctor' in Hctor. injection Hctor as <-.
    assert (Hwhich : forall t q', pools st1 !! t = Some q' ->
              (t = length (pools st) /\ q' = self) \/
              (exists q, pools st !! t = Some q /\ same_frames q q')).
    { intros t q' Hq'.
      destruct (Nat.lt_ge_cases t (length (pools st))) as [Hlt | Hge].
      - right. destruct (lookup_lt_is_Some_2 _ _ Hlt) as (q & Hq).
        destruct (Hold t q Hq) as (q1 & Hq1 & Hsame).
        exists q. split; [exact Hq |]. congruence.
      - left. apply lookup_lt_Some in Hq' as Hlt'.
        assert (t = length (pools st)) as -> by lia.
        split; [reflexivity | congruence]. }
    split; [exact Hreg' |]. split.
    + intros t t' q1 q2 Hne Hq1 Hq2.
      destruct (Hwhich t q1 Hq1) as [(-> & ->) | (o1 & Ho1 & (_ & _ & _ & E1))];
        destruct (Hwhich t' q2 Hq2) as [(-> & ->) | (o2 & Ho2 & (_ & _ & _ & E2))].
      * congruence.
      * rewrite E2, Hbm. intros E. exact (Hnew t' o2 Ho2 (eq_sym E)).
      * rewrite E1, Hbm. exact (Hnew t o1 Ho1).
      * rewrite E1, E2. exact (Hsep t t' o1 o2 Hne Ho1 Ho2).
    + intros t q' Hq'.
      destruct (Hwhich t q' Hq') as [(-> & ->) | (q & Hq & Hsame)].
      * split; [| exact Hclean].
        intros j Hj Hu. rewrite Hsn in Hj. rewrite Hstates in Hu by lia.
        revert Hu. destruct ((info =? 0) && (j =? 0)); discriminate.
      * pose proof Hsame as (_ & Hnf & _ & Hbq).
        apply (healthy_ext (mem st) (mem st1) q q'); [exact Hnf | | exact (Hh t q Hq)].
        intros j Hj. rewrite (entry_same_frames _ q q' j Hsame).
        apply (within_entry self q); eauto.
        rewrite Hbm. intros E. exact (Hnew t q Hq (eq_sym E)).
  - pose proof (Hok t p Ht) as Hp. destruct (Hh t p Ht) as (Htidy & Hclean).
    split; [apply registry_ok_with_mem; exact Hreg |]. split; [exact Hsep |].
    apply (healthy_update st t p); try assumption.
    + exact (get_frames_within _ _ _ _ _ Hp Hn Hrun).
    + split; [exact (get_frames_tidy _ _ _ _ _ Hp Hn Htidy Hrun) |].
      destruct (get_frames_effect _ _ _ _ _ Hp Hn Hrun)
        as [-> | (s & Hn1 & (Hs0 & Hsn & _) & ->)]; [exact Hclean |].
      apply mark_inaccessible_clean; try assumption; lia.
  - pose proof (Hok t p Ht) as Hp. destruct (Hh t p Ht) as (Htidy & Hclean).
    split; [apply registry_ok_with_mem; exact Hreg |]. split; [exact Hsep |].
    apply (healthy_update st t p); try assumption.
    + apply mark_inaccessible_within; assumption.
    + split; [apply mark_inaccessible_tidy | apply mark_inaccessible_clean];
        assumption.
  - rewrite (release_frames_route st f l Hlk Hlen) in Hrel.
    destruct (route (pools st) f l) as [q |] eqn:Hroute.
    + destruct (route_Some _ _ _ _ Hroute) as (t & _ & Hq & Hhit).
      pose proof (Hok t q Hq) as Hqok.
      destruct (hit_in_range q f Hqok Hhit) as (Hin & Hk).
      rewrite Hk in Hrel.
      assert (Hkr : 0 <= f - base_frame_no q < nframes q)
        by (unfold in_range in Hin; lia).
      destruct (release_run_within st q _ Hqok Hkr)
        as (st1 & Hrun1 & Hhd & Hps & Hwithin).
      rewrite Hrun1 in Hrel. injection Hrel as <-.
      destruct (Hh t q Hq) as (Htidy & Hclean).
      split; [apply (registry_ok_shape st); assumption |].
      split; [rewrite Hps; exact Hsep |].
      pose proof (healthy_update st t q (mem st1) Hreg Hsep Hh Hq Hwithin
                    (conj (release_run_tidy st st1 q _ Hqok Hkr Htidy Hrun1)
                          (release_run_clean st st1 q _ Hqok Hkr Hclean Hrun1)))
        as Hnew.
      intros t' q' Hq'. rewrite Hps in Hq'. exact (Hnew t' q' Hq').
    + injection Hrel as <-. auto.
Qed.

(** X25. Under well-behaved clients every bitmap stays healthy.  From
    boot, whatever memory holds, let pools be constructed with bitmap
    frames that are pairwise distinct, and let [get_frames] be called with
    any request, [mark_inaccessible] on runs inside their pools, and
    [release_frames] with any frame number, in any order.  Then in every
    state reached the bitmaps of distinct pools lie in distinct frames, and
    in every pool each [Used] frame follows an allocated frame and no
    entry holds the pattern [0b11]. *)
Theorem bitmaps_stay_healthy (m : Mem) (st : State) :
  rtc sound_step (initial_state m) st ->
  separate_bitmaps (pools st) /\
  forall t p, pools st !! t = Some p -> tidy (mem st) p /\ clean (mem st) p.
Proof.
  intros Hsteps.
  assert (Hall : registry_ok st /\ separate_bitmaps (pools st) /\ healthy st).
  { assert (Hgen : forall s s', rtc sound_step s s' ->
              registry_ok s /\ separate_bitmaps (pools s) /\ healthy s ->
              registry_ok s' /\ separate_bitmaps (pools s') /\ healthy s').
    { intros s s' Hrtc. induction Hrtc as [s | s1 s2 s3 Hstep Hrest IH].
      - auto.
      - intros (Hreg & Hsep & Hh). apply IH.
        exact (sound_step_keeps s1 s2 Hreg Hsep Hh Hstep). }
    apply (Hgen _ _ Hsteps). split; [apply registry_ok_boot |]. split.
    - intros t t' p q _ Hp. simpl in Hp. discriminate.
    - intros t p Hp. simpl in Hp. discriminate. }
  destruct Hall as (_ & Hsep & Hh). split; assumption.
Qed.

Lemma bitmaps_stay_healthy_witness :
  rtc sound_step (initial_state threes_mem)
      (state_of (ContFramePool (initial_state threes_mem) 512 8 0)) /\
  pools (state_of (ContFramePool (initial_state threes_mem) 512 8 0)) !! 0%nat
  = Some small_pool /\
  clean (mem (state_of (ContFramePool (initial_state threes_mem) 512 8 0)))
        small_pool.
Proof.
  assert (Hsteps : rtc sound_step (initial_state threes_mem)
                       (state_of (ContFramePool (initial_state threes_mem) 512 8 0))).
  { apply rtc_once. apply (sound_ctor _ 512 8 0).
    - unfold u32. lia.
    - unfold u32. lia.
    - unfold u32. lia.
    - intros t q Hq. simpl in Hq. discriminate.
    - vm_compute. reflexivity. }
  assert (Hp : pools (state_of (ContFramePool (initial_state threes_mem) 512 8 0))
               !! 0%nat = Some small_pool) by (vm_compute; reflexivity).
  repeat (split; [assumption |]).
  exact (proj2 (proj2 (bitmaps_stay_healthy _ _ Hsteps) 0%nat small_pool Hp)).
Defined.

(** * The paging bootstrapper *)

(** ** Words in memory *)

Lemma byte_of (x : Z) : Z.land x 255 = x mod 256.
Proof. change 255 with (Z.ones 8). rewrite Z.land_ones by lia. reflexivity. Qed.

Lemma store32_outside (m : Mem) (a v x : Z) :
  x < a \/ a + 4 <= x -> store32 m a v x = m x.
Proof.
  intros Hx. unfold store32, store. zcases; lia || reflexivity.
Qed.

Lemma load32_ext (m m' : Mem) (a : Z) :
  (forall x, a <= x < a + 4 -> m' x = m x) -> load32 m' a = load32 m a.
Proof.
  intros H. unfold load32. rewrite !H by lia. reflexivity.
Qed.

Lemma load32_store32 (m : Mem) (a v : Z) :
  u32 v -> load32 (store32 m a v) a = v.
Proof.
  unfold u32. intros Hv. unfold load32, store32, store.
  zcases; try lia.
  rewrite !byte_of, !Z.shiftr_div_pow2, !Z.shiftl_mul_pow2 by lia.
  change (2 ^ 32) with 4294967296 in Hv.
  change (2 ^ 8) with 256. change (2 ^ 16) with 65536.
  change (2 ^ 24) with 16777216.
  Z.div_mod_to_equations. lia.
Qed.

Lemma load32_u32 (m : Mem) (a : Z) : u32 (load32 m a).
Proof.
  unfold u32, load32.
  rewrite !byte_of, !Z.shiftl_mul_pow2 by lia.
  change (2 ^ 32) with 4294967296.
  change (2 ^ 8) with 256. change (2 ^ 16) with 65536.
  change (2 ^ 24) with 16777216.
  Z.div_mod_to_equations. lia.
Qed.

Lemma write_words_step (m : Mem) (base : Z) (f : nat -> Z) (i0 cnt : nat) :
  write_words m base f i0 (S cnt)
  = write_words (store32 m (wrap32 (base + 4 * Z.of_nat i0)) (f i0))
                base f (S i0) cnt.
Proof. reflexivity. Qed.

(** An array of words written inside the address space leaves every byte
    outside the array as it was. *)
Lemma write_words_outside (base : Z) (f : nat -> Z) (cnt : nat) :
  forall (i0 : nat) (m : Mem) (a : Z),
    0 <= base -> base + 4 * (Z.of_nat i0 + Z.of_nat cnt) <= 2 ^ 32 ->
    a < base + 4 * Z.of_nat i0 \/ base + 4 * (Z.of_nat i0 + Z.of_nat cnt) <= a ->
    write_words m base f i0 cnt a = m a.
Proof.
  induction cnt as [| cnt IH]; intros i0 m a Hb Hfit Ha; [reflexivity |].
  rewrite write_words_step, IH by lia.
  rewrite wrap32_small by (unfold u32; lia).
  apply store32_outside. lia.
Qed.

(** Reading back word [j] of an array just written. *)
Lemma write_words_load (base : Z) (f : nat -> Z) (cnt : nat) :
  forall (i0 : nat) (m : Mem) (j : nat),
    0 <= base -> base + 4 * (Z.of_nat i0 + Z.of_nat cnt) <= 2 ^ 32 ->
    u32 (f j) -> (i0 <= j < i0 + cnt)%nat ->
    load32 (write_words m base f i0 cnt) (base + 4 * Z.of_nat j) = f j.
Proof.
  induction cnt as [| cnt IH]; intros i0 m j Hb Hfit Hf Hj; [lia |].
  rewrite write_words_step.
  destruct (Nat.eq_dec j i0) as [-> | Hne].
  - rewrite (load32_ext (store32 m (wrap32 (base + 4 * Z.of_nat i0)) (f i0))).
    + rewrite wrap32_small by (unfold u32; lia). apply load32_store32, Hf.
    + intros x Hx. apply write_words_outside; lia.
  - apply IH; try assumption; lia.
Qed.

(** The first loop of the [PageTable] constructor as an array write. *)
Lemma map_shared_words (tab : Z) (cnt : nat) :
  forall (i0 : nat) (m : Mem),
    fold_left
      (fun (s : Mem * Z) i =>
         (store32 (fst s) (wrap32 (tab + 4 * Z.of_nat i)) (Z.lor (snd s) 3),
          wrap32 (snd s + 4 * KB)))
      (seq i0 cnt) (m, wrap32 (Z.of_nat i0 * 4096))
    = (write_words m tab (fun i => Z.lor (wrap32 (Z.of_nat i * 4096)) 3) i0 cnt,
       wrap32 ((Z.of_nat i0 + Z.of_nat cnt) * 4096)).
Proof.
  induction cnt as [| cnt IH]; intros i0 m.
  - simpl. rewrite Z.add_0_r. reflexivity.
  - rewrite write_words_step. cbn [seq fold_left fst snd].
    replace (wrap32 (wrap32 (Z.of_nat i0 * 4096) + 4 * KB))
      with (wrap32 (Z.of_nat (S i0) * 4096)).
    + rewrite IH. f_equal. f_equal. lia.
    + unfold wrap32. change (4 * KB) with 4096.
      rewrite Z.add_mod_idemp_l by lia. f_equal. lia.
Qed.

Lemma map_shared_entries (m : Mem) (tab : Z) (cnt : nat) :
  fst (map_shared m tab cnt)
  = write_words m tab (fun i => Z.lor (wrap32 (Z.of_nat i * 4096)) 3) 0 cnt.
Proof.
  unfold map_shared. change (m, 0) with (m, wrap32 (Z.of_nat 0 * 4096)).
  rewrite map_shared_words. reflexivity.
Qed.

Lemma lor_3 (a : Z) : a mod 4 = 0 -> Z.lor a 3 = a + 3.
Proof.
  intros Ha. pose proof (Z.add_lor_land a 3) as H.
  change 3 with (Z.ones 2) in H at 2. rewrite Z.land_ones in H by lia.
  change (2 ^ 2) with 4 in H. lia.
Qed.

(** ** Frames handed out and the bitmap *)

(** Writing into a block of frames none of which holds the pool's bitmap
    leaves the state of every frame of the pool as it was. *)
Lemma block_write_keeps_states (m m' : Mem) (p : Pool) (r n : Z) :
  pool_ok p ->
  (forall i, 0 <= i < n -> bitmap p <> (r + i) * FRAME_SIZE) ->
  (forall a, ~ (r * FRAME_SIZE <= a < (r + n) * FRAME_SIZE) -> m' a = m a) ->
  same_states p m m'.
Proof.
  intros Hp Hinfo Hout j Hj. apply get_state_ext. apply Hout.
  pose proof (byte_addr_in_info_frame p j Hp Hj) as Hin.
  unfold in_info_frame in Hin. destruct Hp as (_ & _ & _ & Hal).
  intros Hblock. unfold FRAME_SIZE in *.
  apply (Hinfo (bitmap p / 4096 - r)); Z.div_mod_to_equations; lia.
Qed.

Lemma free_below_pos (m : Mem) (p : Pool) (k : nat) :
  0 < free_below m p k ->
  exists j, 0 <= j < Z.of_nat k /\ get_state m p j = Free.
Proof.
  induction k as [| k IH]; simpl free_below; [lia |].
  destruct (FrameState_eqb (get_state m p (Z.of_nat k)) Free) eqn:E.
  - intros _. exists (Z.of_nat k). split; [lia |].
    apply FrameState_eqb_eq. exact E.
  - intros H. destruct (IH ltac:(lia)) as (j & Hj & Hfree).
    exists j. split; [lia | exact Hfree].
Qed.

(** A single frame is handed out whenever the pool has a free frame. *)
Lemma get_frames_one (m : Mem) (p : Pool) :
  pool_ok p -> base_frame_no p + nframes p <= 2 ^ 32 ->
  1 <= free_frames m p ->
  exists s,
    0 <= s < nframes p /\ get_state m p s = Free /\
    get_frames m p 1 = Done (mark_inaccessible m p s 1, s + base_frame_no p) /\
    free_frames (mark_inaccessible m p s 1) p = free_frames m p - 1 /\
    (forall j, 0 <= j < nframes p ->
       get_state (mark_inaccessible m p s 1) p j
       = if j =? s then HoS else get_state m p j).
Proof.
  intros Hp Hfit Hfree. pose proof (pool_ok_nframes p Hp) as Hnf.
  pose proof Hp as (Hbase & _). unfold u32 in Hbase.
  destruct (free_below_pos m p (Z.to_nat (nframes p)) ltac:(unfold free_frames in Hfree; lia))
    as (j0 & Hj0 & Hfree0).
  destruct (get_frames_cases m p 1 Hnf ltac:(lia))
    as [(s & Hw & _ & Hrun) | (Hnone & _)].
  - pose proof Hw as (Hs0 & Hsn & Hsfree).
    assert (Hstates : forall j, 0 <= j < nframes p ->
              get_state (mark_inaccessible m p s 1) p j
              = if j =? s then HoS else get_state m p j).
    { intros j Hj. rewrite mark_inaccessible_states by (try assumption; lia).
      zcases; try reflexivity; lia. }
    exists s. split; [lia |]. split; [| split; [| split; [| exact Hstates]]].
    + replace s with (s + 0) by lia. apply Hsfree. lia.
    + rewrite Hrun. rewrite wrap32_small by (unfold u32; lia). reflexivity.
    + apply (free_frames_taken m _ p s 1); try lia.
      * intros j Hj. assert (j = s) as -> by lia. split.
        -- replace s with (s + 0) by lia. apply Hsfree. lia.
        -- rewrite Hstates by lia. rewrite Z.eqb_refl. congruence.
      * intros j Hj Hout. rewrite Hstates by lia. zcases; try reflexivity; lia.
  - exfalso. apply (Hnone j0). split; [lia |]. split; [lia |].
    intros i Hi. assert (i = 0) as -> by lia. rewrite Z.add_0_r. exact Hfree0.
Qed.

(** ** The page directory and the first page table *)

(** X15. The bootstrapper builds an identity map of the first 4 MB.  Let
    [init_paging] return for a kernel pool of a reachable state whose
    range ends at or below frame 2^20, whose bitmap does not sit in one of
    its free frames, and which has two free frames.  Then the constructor
    [PageTable] returns; the page directory and the page table occupy two
    distinct frames of the pool, both marked as heads of sequence, and no
    other frame of the pool changes state; entry [i] of the page table is
    [i * 4096 + 3] for all 1024 entries; entry 0 of the directory is the
    address of the table plus 3 and its other 1023 entries are 2; and the
    console shows the two messages. *)
Theorem PageTable_maps_shared
        (pg0 pg : PageTableStatics) (st0 st : State) (t : ptr) (pp : option ptr)
        (size : Z) (p : Pool) :
  reachable st0 ->
  init_paging pg0 st0 (Some t) pp size = Done (pg, st) ->
  pools st0 !! t = Some p ->
  base_frame_no p + nframes p <= 2 ^ 20 ->
  info_frame_kept (mem st0) p ->
  2 <= free_frames (mem st0) p ->
  exists st' dir tab,
    PageTable pg st = Done (st', dir * FRAME_SIZE) /\
    in_range p dir /\ in_range p tab /\ dir <> tab /\
    get_state (mem st') p (dir - base_frame_no p) = HoS /\
    get_state (mem st') p (tab - base_frame_no p) = HoS /\
    (forall j, 0 <= j < nframes p ->
       j <> dir - base_frame_no p -> j <> tab - base_frame_no p ->
       get_state (mem st') p j = get_state (mem st0) p j) /\
    (forall i, 0 <= i < 1024 ->
       load32 (mem st') (tab * FRAME_SIZE + 4 * i) = i * FRAME_SIZE + 3) /\
    load32 (mem st') (dir * FRAME_SIZE) = tab * FRAME_SIZE + 3 /\
    (forall i, 1 <= i < 1024 ->
       load32 (mem st') (dir * FRAME_SIZE + 4 * i) = 2) /\
    (forall a, ~ in_frame dir a -> ~ in_frame tab a -> ~ in_info_frame p a ->
       mem st' a = mem st0 a) /\
    console st'
    = console st0 ++ [msg_paging_initialized; msg_page_table_constructed].
Proof.
  intros Hr Hinit Hp Hfit Hkept Hfree.
  pose proof (reachable_ok st0 Hr) as (_ & _ & _ & _ & Hok).
  pose proof (Hok t p Hp) as Hpok.
  pose proof (pool_ok_nframes p Hpok) as Hnf.
  pose proof Hpok as (Hbase & _ & _ & Hal). unfold u32 in Hbase.
  unfold init_paging, assert in Hinit. cbn [shared_size] in Hinit.
  destruct (Z.eqb_spec size (4 * MB)) as [-> |]; [| discriminate].
  injection Hinit as <- <-.
  unfold PageTable. cbn [kernel_mem_pool shared_size pools puts mem].
  rewrite (deref_Some _ _ _ Hp). cbn [bind].
  destruct (get_frames_one (mem st0) p Hpok ltac:(lia) ltac:(lia))
    as (s1 & Hs1 & Hfree1 & Hrun1 & Hcount1 & Hstates1).
  rewrite Hrun1. cbn [bind fst snd].
  set (m1 := mark_inaccessible (mem st0) p s1 1) in *.
  destruct (get_frames_one m1 p Hpok ltac:(lia) ltac:(lia))
    as (s2 & Hs2 & Hfree2 & Hrun2 & _ & Hstates2).
  rewrite Hrun2. cbn [bind fst snd].
  set (m2 := mark_inaccessible m1 p s2 1) in *.
  assert (Hne : s2 <> s1).
  { intros ->. rewrite Hstates1, Z.eqb_refl in Hfree2 by lia. discriminate. }
  assert (Hfree2' : get_state (mem st0) p s2 = Free).
  { rewrite Hstates1 in Hfree2 by lia. revert Hfree2. zcases; [lia | auto]. }
  set (dir := s1 + base_frame_no p). set (tab := s2 + base_frame_no p).
  assert (Hdir : wrap32 (dir * 4 * KB) = dir * FRAME_SIZE).
  { change KB with 1024. unfold FRAME_SIZE.
    rewrite wrap32_small by (unfold u32, dir; lia). lia. }
  assert (Htab : wrap32 (tab * 4 * KB) = tab * FRAME_SIZE).
  { change KB with 1024. unfold FRAME_SIZE.
    rewrite wrap32_small by (unfold u32, tab; lia). lia. }
  rewrite Hdir, Htab.
  change (Z.to_nat (4 * MB / wrap32 (4 * KB))) with 1024%nat.
  rewrite map_shared_entries.
  set (entries := fun i : nat => Z.lor (wrap32 (Z.of_nat i * 4096)) 3).
  set (m3 := write_words m2 (tab * FRAME_SIZE) entries 0 1024).
  set (m4 := store32 m3 (dir * FRAME_SIZE) (Z.lor (tab * FRAME_SIZE) 3)).
  change (clear_directory m4 (dir * FRAME_SIZE))
    with (write_words m4 (dir * FRAME_SIZE) (fun _ => Z.lor 0 2) 1 1023).
  set (m5 := write_words m4 (dir * FRAME_SIZE) (fun _ => Z.lor 0 2) 1 1023).
  assert (Hrange : 0 <= dir < 2 ^ 20 /\ 0 <= tab < 2 ^ 20) by (unfold dir, tab; lia).
  (* where the three array writes can have changed memory *)
  assert (H53 : forall a, ~ in_frame dir a -> m5 a = m3 a).
  { intros a Ha. unfold in_frame, FRAME_SIZE in Ha. unfold m5, m4.
    rewrite write_words_outside by (unfold FRAME_SIZE; lia).
    apply store32_outside. unfold FRAME_SIZE. lia. }
  assert (H32 : forall a, ~ in_frame tab a -> m3 a = m2 a).
  { intros a Ha. unfold in_frame, FRAME_SIZE in Ha. unfold m3.
    apply write_words_outside; unfold FRAME_SIZE; lia. }
  assert (Hstates5 : same_states p m2 m5).
  { intros j Hj.
    transitivity (get_state m3 p j).
    - apply (block_write_keeps_states m3 m5 p dir 1 Hpok); [| | exact Hj].
      + intros i Hi. assert (i = 0) as -> by lia. rewrite Z.add_0_r.
        intros Hb. apply (Hkept s1 ltac:(lia)); [| exact Hfree1].
        rewrite Hb. unfold dir. f_equal. lia.
      + intros a Ha. apply H53. unfold in_frame. lia.
    - apply (block_write_keeps_states m2 m3 p tab 1 Hpok); [| | exact Hj].
      + intros i Hi. assert (i = 0) as -> by lia. rewrite Z.add_0_r.
        intros Hb. apply (Hkept s2 ltac:(lia)); [| exact Hfree2'].
        rewrite Hb. unfold tab. f_equal. lia.
      + intros a Ha. apply H32. unfold in_frame. lia. }
  eexists _, dir, tab. split; [reflexivity |].
  cbn [mem console puts with_mem].
  unfold in_range.
  replace (dir - base_frame_no p) with s1 by (unfold dir; lia).
  replace (tab - base_frame_no p) with s2 by (unfold tab; lia).
  split; [unfold dir; lia |]. split; [unfold tab; lia |].
  split; [unfold dir, tab; lia |].
  split; [| split; [| split; [| split; [| split; [| split; [| split]]]]]].
  - rewrite Hstates5 by lia. unfold m2. rewrite Hstates2 by lia.
    zcases; [lia |]. rewrite Hstates1 by lia. rewrite Z.eqb_refl. reflexivity.
  - rewrite Hstates5 by lia. unfold m2. rewrite Hstates2 by lia.
    rewrite Z.eqb_refl. reflexivity.
  - intros j Hj Hj1 Hj2. rewrite Hstates5 by lia. unfold m2.
    rewrite Hstates2 by lia. zcases; [lia |].
    rewrite Hstates1 by lia. zcases; [lia | reflexivity].
  - intros i Hi.
    rewrite (load32_ext m3).
    + replace i with (Z.of_nat (Z.to_nat i)) by lia. unfold m3.
      rewrite write_words_load; try (unfold FRAME_SIZE; lia).
      * unfold entries. rewrite wrap32_small by (unfold u32; lia).
        rewrite lor_3 by (Z.div_mod_to_equations; lia).
        unfold FRAME_SIZE. lia.
      * unfold entries. set (k := Z.to_nat i).
        pose proof (wrap32_u32 (Z.of_nat k * 4096)) as Hu.
        assert (Hm : wrap32 (Z.of_nat k * 4096) mod 4 = 0).
        { unfold wrap32. change (2 ^ 32) with 4294967296.
          Z.div_mod_to_equations. lia. }
        rewrite lor_3 by exact Hm. unfold u32 in *.
        change (2 ^ 32) with 4294967296 in *.
        Z.div_mod_to_equations. lia.
    + intros x Hx. apply H53. unfold in_frame, FRAME_SIZE, dir, tab in *. lia.
  - rewrite (load32_ext m4).
    + unfold m4. rewrite load32_store32.
      * apply lor_3. unfold FRAME_SIZE. Z.div_mod_to_equations. lia.
      * rewrite lor_3 by (unfold FRAME_SIZE; Z.div_mod_to_equations; lia).
        unfold u32, FRAME_SIZE. lia.
    + intros x Hx. unfold m5.
      apply write_words_outside; unfold FRAME_SIZE in *; lia.
  - intros i Hi. replace i with (Z.of_nat (Z.to_nat i)) by lia. unfold m5.
    rewrite write_words_load; try (unfold FRAME_SIZE; lia).
    + reflexivity.
    + unfold u32. change (Z.lor 0 2) with 2. lia.
  - intros a Hadir Hatab Hainfo. rewrite H53, H32 by assumption.
    unfold m2. rewrite mark_inaccessible_within by (try assumption; lia).
    unfold m1. apply mark_inaccessible_within; try assumption; lia.
  - rewrite <- app_assoc. reflexivity.
Qed.

Lemma PageTable_maps_shared_witness :
  reachable (state_of boot_pool) /\
  init_paging no_paging (state_of boot_pool) (Some 0%nat) None (4 * MB)
  = Done (paging_on_pool_0,
          puts (state_of boot_pool) msg_paging_initialized) /\
  pools (state_of boot_pool) !! 0%nat = Some small_pool /\
  base_frame_no small_pool + nframes small_pool <= 2 ^ 20 /\
  info_frame_kept (mem (state_of boot_pool)) small_pool /\
  2 <= free_frames (mem (state_of boot_pool)) small_pool /\
  exists st' dir tab,
    PageTable paging_on_pool_0
              (puts (state_of boot_pool) msg_paging_initialized)
    = Done (st', dir * FRAME_SIZE) /\
    load32 (mem st') (dir * FRAME_SIZE) = tab * FRAME_SIZE + 3 /\
    load32 (mem st') (tab * FRAME_SIZE + 4 * 5) = 5 * FRAME_SIZE + 3.
Proof.
  pose proof boot_pool_reachable as Hr.
  assert (Hinit : init_paging no_paging (state_of boot_pool) (Some 0%nat) None (4 * MB)
                  = Done (paging_on_pool_0,
                          puts (state_of boot_pool) msg_paging_initialized))
    by reflexivity.
  assert (Hp : pools (state_of boot_pool) !! 0%nat = Some small_pool)
    by (rewrite boot_pool_store; reflexivity).
  assert (Hfit : base_frame_no small_pool + nframes small_pool <= 2 ^ 20)
    by (simpl; lia).
  pose proof boot_pool_kept as Hk.
  assert (Hfree : 2 <= free_frames (mem (state_of boot_pool)) small_pool)
    by (vm_compute; congruence).
  repeat (split; [assumption |]).
  destruct (PageTable_maps_shared _ _ _ _ 0%nat None (4 * MB) small_pool
              Hr Hinit Hp Hfit Hk Hfree)
    as (st' & dir & tab & Hrun & _ & _ & _ & _ & _ & _ & Htab & Hdir & _).
  exists st', dir, tab. split; [exact Hrun |]. split; [exact Hdir |].
  apply Htab. lia.
Defined.

(** A request for more frames than the pool has free fails. *)
Lemma get_frames_short (m : Mem) (p : Pool) (n : Z) :
  pool_ok p -> 1 <= n < 2 ^ 32 -> free_frames m p < n ->
  get_frames m p n = Done (m, 0).
Proof.
  intros Hp Hn Hfew. pose proof (pool_ok_nframes p Hp) as Hnf.
  destruct (get_frames_cases m p n Hnf Hn)
    as [(s & (Hs0 & Hsn & Hfree) & _ & _) | (_ & Hrun)]; [| exact Hrun].
  exfalso.
  pose proof (free_frames_bounds (mark_inaccessible m p s n) p ltac:(lia)) as Hb.
  rewrite (free_frames_taken m _ p s n) in Hb; try lia.
  - intros j Hj. split.
    + replace j with (s + (j - s)) by lia. apply Hfree. lia.
    + rewrite mark_inaccessible_states by (try assumption; lia).
      zcases; try congruence; lia.
  - intros j Hj Hout. rewrite mark_inaccessible_states by (try assumption; lia).
    zcases; try reflexivity; lia.
Qed.

(** The constructor on a pool without a free frame: both calls of
    [get_frames] yield 0, and the page directory is written over the page
    table at address 0. *)
Lemma PageTable_on_full_pool (pg : PageTableStatics) (st : State) (t : ptr) (p : Pool) :
  pool_ok p -> kernel_mem_pool pg = Some t -> pools st !! t = Some p ->
  shared_size pg = 4 * MB ->
  free_frames (mem st) p = 0 ->
  exists st',
    PageTable pg st = Done (st', 0) /\
    load32 (mem st') 0 = 3 /\
    (forall i, 1 <= i < 1024 -> load32 (mem st') (4 * i) = 2) /\
    console st' = console st ++ [msg_page_table_constructed].
Proof.
  intros Hpok Hk Hp Hsize Hfull.
  unfold PageTable. rewrite Hk, Hsize, (deref_Some _ _ _ Hp). cbn [bind].
  rewrite (get_frames_short (mem st) p 1 Hpok ltac:(lia) ltac:(lia)).
  cbn [bind fst snd].
  rewrite (get_frames_short (mem st) p 1 Hpok ltac:(lia) ltac:(lia)).
  cbn [bind fst snd].
  change (wrap32 (0 * 4 * KB)) with 0.
  change (Z.to_nat (4 * MB / wrap32 (4 * KB))) with 1024%nat.
  rewrite map_shared_entries.
  set (entries := fun i : nat => Z.lor (wrap32 (Z.of_nat i * 4096)) 3).
  set (m3 := write_words (mem st) 0 entries 0 1024).
  set (m4 := store32 m3 0 (Z.lor 0 3)).
  change (clear_directory m4 0)
    with (write_words m4 0 (fun _ => Z.lor 0 2) 1 1023).
  eexists. split; [reflexivity |]. cbn [mem console puts with_mem].
  split; [| split; [| reflexivity]].
  - rewrite (load32_ext m4).
    + unfold m4. apply load32_store32. unfold u32. change (Z.lor 0 3) with 3. lia.
    + intros x Hx. apply write_words_outside; lia.
  - intros i Hi. replace i with (Z.of_nat (Z.to_nat i)) by lia.
    change (4 * Z.of_nat (Z.to_nat i)) with (0 + 4 * Z.of_nat (Z.to_nat i)).
    rewrite write_words_load; try lia.
    + reflexivity.
    + unfold u32. change (Z.lor 0 2) with 2. lia.
Qed.

(** X16. The constructor does not check what [get_frames] returns.  Let
    [init_paging] return for a kernel pool of a reachable state, and let
    that pool have no free frame.  Then [PageTable] still returns: both
    calls of [get_frames] yield 0, the page directory and the page table
    are both placed at address 0, and the directory is written over the
    table, so that entry 0 reads 3 and entries 1 to 1023 read 2 instead of
    the identity map; the console shows the two messages (memory is
    uniform here: the page at address 0 is memory like any other). *)
Theorem PageTable_unchecked
        (pg0 pg : PageTableStatics) (st0 st : State) (t : ptr) (pp : option ptr)
        (size : Z) (p : Pool) :
  reachable st0 ->
  init_paging pg0 st0 (Some t) pp size = Done (pg, st) ->
  pools st0 !! t = Some p ->
  free_frames (mem st0) p = 0 ->
  exists st',
    PageTable pg st = Done (st', 0) /\
    load32 (mem st') 0 = 3 /\
    (forall i, 1 <= i < 1024 -> load32 (mem st') (4 * i) = 2) /\
    console st'
    = console st0 ++ [msg_paging_initialized; msg_page_table_constructed].
Proof.
  intros Hr Hinit Hp Hfull.
  pose proof (reachable_ok st0 Hr) as (_ & _ & _ & _ & Hok).
  pose proof (Hok t p Hp) as Hpok.
  unfold init_paging, assert in Hinit. cbn [shared_size] in Hinit.
  destruct (Z.eqb_spec size (4 * MB)) as [-> |]; [| discriminate].
  injection Hinit as <- <-.
  destruct (PageTable_on_full_pool
              (mkPageTableStatics (current_page_table pg0) (paging_enabled pg0)
                                  (Some t) pp (4 * MB))
              (puts st0 msg_paging_initialized) t p Hpok eq_refl Hp eq_refl Hfull)
    as (st' & Hrun & Hdir0 & Hdir & Hcon).
  exists st'. split; [exact Hrun |]. split; [exact Hdir0 |].
  split; [exact Hdir |]. rewrite Hcon. cbn [console puts].
  rewrite <- app_assoc. reflexivity.
Qed.

Lemma one_frame_pool_reachable : reachable (state_of one_frame_pool).
Proof.
  apply (reach_ctor (initial_state zero_mem) _ 512 1 0).
  - apply reach_boot.
  - unfold u32. lia.
  - unfold u32. lia.
  - unfold u32. lia.
  - vm_compute. reflexivity.
Qed.

Lemma PageTable_unchecked_witness :
  reachable (state_of one_frame_pool) /\
  init_paging no_paging (state_of one_frame_pool) (Some 0%nat) None (4 * MB)
  = Done (paging_on_pool_0,
          puts (state_of one_frame_pool) msg_paging_initialized) /\
  pools (state_of one_frame_pool) !! 0%nat = Some single_frame /\
  free_frames (mem (state_of one_frame_pool)) single_frame = 0 /\
  exists st',
    PageTable paging_on_pool_0
              (puts (state_of one_frame_pool) msg_paging_initialized)
    = Done (st', 0) /\
    load32 (mem st') (4 * 1) = 2.
Proof.
  pose proof one_frame_pool_reachable as Hr.
  assert (Hinit : init_paging no_paging (state_of one_frame_pool) (Some 0%nat)
                              None (4 * MB)
                  = Done (paging_on_pool_0,
                          puts (state_of one_frame_pool) msg_paging_initialized))
    by reflexivity.
  assert (Hp : pools (state_of one_frame_pool) !! 0%nat = Some single_frame)
    by (vm_compute; reflexivity).
  assert (Hfull : free_frames (mem (state_of one_frame_pool)) single_frame = 0)
    by (vm_compute; reflexivity).
  repeat (split; [assumption |]).
  destruct (PageTable_unchecked _ _ _ _ 0%nat None (4 * MB) single_frame
              Hr Hinit Hp Hfull)
    as (st' & Hrun & _ & Hdir & _).
  exists st'. split; [exact Hrun |]. apply Hdir. lia.
Defined.

(** * The kernel's self test *)

(** ** Words read back *)

Lemma signed32_u32 (w : Z) : u32 w -> wrap32 (signed32 w) = w.
Proof.
  unfold u32, signed32, wrap32. change (2 ^ 32) with 4294967296.
  change (2 ^ 31) with 2147483648. intros Hw.
  destruct (Z.ltb_spec w 2147483648); Z.div_mod_to_equations; lia.
Qed.

Lemma signed32_small (w : Z) : 0 <= w < 2 ^ 31 -> signed32 w = w.
Proof.
  unfold signed32. intros Hw. destruct (Z.ltb_spec w (2 ^ 31)); lia.
Qed.

Lemma first_mismatch_None (m : Mem) (value_array : Z) (same : nat -> Z -> bool)
      (cnt : nat) :
  forall i : nat,
    (forall j, (i <= j < i + cnt)%nat ->
       same j (load32 m (wrap32 (value_array + 4 * Z.of_nat j))) = true) ->
    first_mismatch m value_array same i cnt = None.
Proof.
  induction cnt as [| cnt IH]; intros i Hall; simpl; [reflexivity |].
  rewrite Hall by lia. apply IH. intros j Hj. apply Hall. lia.
Qed.

(** A block of [n] frames filled with words: the words read back, and
    nothing outside the block is written. *)
Lemma block_load (m : Mem) (frame n : Z) (f : nat -> Z) (j : nat) :
  0 <= frame -> 0 <= n -> frame + n <= 2 ^ 20 -> u32 (f j) ->
  (j < Z.to_nat (1024 * n))%nat ->
  load32 (write_words m (frame * FRAME_SIZE) f 0 (Z.to_nat (1024 * n)))
         (wrap32 (frame * FRAME_SIZE + 4 * Z.of_nat j))
  = f j.
Proof.
  intros Hf Hn Hfit Hu Hj. unfold FRAME_SIZE.
  rewrite wrap32_small by (unfold u32; lia).
  apply write_words_load; try assumption; lia.
Qed.

Lemma block_outside (m : Mem) (frame n : Z) (f : nat -> Z) (a : Z) :
  0 <= frame -> 0 <= n -> frame + n <= 2 ^ 20 ->
  ~ (frame * FRAME_SIZE <= a < (frame + n) * FRAME_SIZE) ->
  write_words m (frame * FRAME_SIZE) f 0 (Z.to_nat (1024 * n)) a = m a.
Proof.
  intros Hf Hn Hfit Ha. unfold FRAME_SIZE in *.
  apply write_words_outside; lia.
Qed.

(** ** The registry during the tests *)

(** [release_frames] returns in every well-formed registry, and what it
    writes lies in the bitmap frame of a pool. *)
Lemma release_frames_confined (st : State) (f : Z) :
  registry_ok st ->
  exists st', release_frames st f = Done st' /\
              head st' = head st /\ pools st' = pools st /\
              (forall a,
                 (forall t q, pools st !! t = Some q -> ~ in_info_frame q a) ->
                 mem st' a = mem st a).
Proof.
  intros (l & Hlk & Hlen & Hs & Hok).
  rewrite (release_frames_route st f l Hlk Hlen).
  destruct (route (pools st) f l) as [q |] eqn:Hroute; [| exists st; auto].
  destruct (route_Some _ _ _ _ Hroute) as (t & _ & Hq & Hhit).
  pose proof (Hok t q Hq) as Hqok.
  destruct (hit_in_range q f Hqok Hhit) as (Hin & ->).
  destruct (release_run_within st q (f - base_frame_no q) Hqok
              ltac:(unfold in_range in Hin; lia))
    as (st' & Hrun & Hhd & Hps & Hw).
  exists st'. split; [exact Hrun |]. split; [exact Hhd |]. split; [exact Hps |].
  intros a Ha. apply Hw. exact (Ha t q Hq).
Qed.

Lemma packed_ext (p : Pool) (m m' : Mem) (top : Z) :
  same_states p m m' -> packed m p top -> packed m' p top.
Proof.
  intros Hsame (Htop & Hbusy & Hfree). split; [exact Htop |]. split.
  - intros j Hj. rewrite Hsame by lia. apply Hbusy. exact Hj.
  - intros j Hj. rewrite Hsame by lia. apply Hfree. exact Hj.
Qed.

Lemma info_below_mono (p : Pool) (top top' : Z) :
  top <= top' -> info_below p top -> info_below p top'.
Proof. intros Hle H j Hj. apply H. lia. Qed.

(** The bytes of the frames from [top] on are not bytes of the bitmap. *)
Lemma above_not_info (p : Pool) (top a : Z) :
  pool_ok p -> 0 <= top -> info_below p top -> above p top a ->
  ~ in_info_frame p a.
Proof.
  intros Hp Htop Hinfo Ha Hin. unfold above, in_info_frame, info_below in *.
  destruct Hp as (_ & _ & _ & Hal). unfold FRAME_SIZE in *.
  apply (Hinfo (bitmap p / 4096 - base_frame_no p));
    Z.div_mod_to_equations; lia.
Qed.

Lemma frames_wanted_bounds (k : nat) :
  Z.of_nat k <= frames_wanted k <= 4 * Z.of_nat k.
Proof.
  induction k as [| k IH]; [simpl; lia |].
  change (frames_wanted (S k))
    with (frames_wanted k + (Z.of_nat (S k) mod 4 + 1)).
  Z.div_mod_to_equations. lia.
Qed.

(** The line that the recursive tests print on entry changes nothing but
    the console. *)
Lemma announce_quiet (Console_puti : State -> Z -> State) (st : State) (n : Z) :
  (forall n, console_only (fun st => Console_puti st n)) ->
  let st1 := puts (Console_puti (puts st msg_alloc_to_go) n) newline in
  head st1 = head st /\ pools st1 = pools st /\ mem st1 = mem st.
Proof.
  intros Hquiet.
  destruct (Hquiet n (puts st msg_alloc_to_go)) as (Hh & Hp & Hm).
  simpl. rewrite Hh, Hp, Hm. auto.
Qed.

(** ** [test_memory] *)

Section TestMemory.

Variable Console_puti : State -> Z -> State.
Hypothesis puti_quiet : forall n, console_only (fun st => Console_puti st n).

Lemma test_memory_rec_passes (t : ptr) (p : Pool) :
  pool_ok p -> base_frame_no p + nframes p <= 2 ^ 20 ->
  forall (k fuel : nat) (st : State) (top : Z),
    (k < fuel)%nat ->
    registry_ok st -> disjoint_ranges (pools st) -> pools st !! t = Some p ->
    packed (mem st) p top -> info_below p top ->
    top + frames_wanted k <= nframes p ->
    exists st',
      test_memory_rec Console_puti fuel st t (Z.of_nat k) = Done (Passed st') /\
      head st' = head st /\ pools st' = pools st /\
      same_states p (mem st) (mem st') /\
      (forall a, ~ above p top a -> ~ in_info_frame p a -> mem st' a = mem st a).
Proof.
  intros Hp Hfit. pose proof (pool_ok_nframes p Hp) as Hnf.
  pose proof Hp as (Hbase & _). unfold u32 in Hbase.
  induction k as [| k IH]; intros fuel st top Hfuel Hreg Hd Ht Hpk Hinfo Hroom;
    (destruct fuel as [| fuel]; [lia |]); cbn [test_memory_rec].
  - destruct (announce_quiet Console_puti st (Z.of_nat 0) puti_quiet)
      as (Hh0 & Hp0 & Hm0).
    change (0 <? Z.of_nat 0) with false. cbv iota.
    eexists. split; [reflexivity |]. split; [exact Hh0 |]. split; [exact Hp0 |].
    split; [intros j Hj; rewrite Hm0; reflexivity |].
    intros a _ _. rewrite Hm0. reflexivity.
  - destruct (announce_quiet Console_puti st (Z.of_nat (S k)) puti_quiet)
      as (Hh1 & Hp1 & Hm1).
    set (K := Z.of_nat (S k)) in *.
    set (st1 := puts (Console_puti (puts st msg_alloc_to_go) K) newline) in *.
    destruct (Z.ltb_spec 0 K) as [_ | HK]; [| unfold K in HK; lia].
    set (n := K mod 4 + 1).
    assert (Hn : 1 <= n <= 4) by (unfold n; Z.div_mod_to_equations; lia).
    assert (Hwant : frames_wanted (S k) = frames_wanted k + n) by reflexivity.
    pose proof (frames_wanted_bounds k) as Hwk.
    rewrite Hp1, (deref_Some _ _ _ Ht). cbn [bind]. rewrite Hm1.
    pose proof Hpk as (Htop & _).
    destruct (get_frames_packed_fits (mem st) p top n Hp Hpk ltac:(lia) ltac:(lia))
      as (Hrun & Hpk1 & Hhead & Hused).
    rewrite Hrun. cbn [bind fst snd].
    set (m1 := mark_inaccessible (mem st) p top n) in *.
    rewrite (wrap32_small (top + base_frame_no p)) by (unfold u32; lia).
    set (frame := top + base_frame_no p).
    assert (Hva : wrap32 (frame * (4 * KB)) = frame * FRAME_SIZE).
    { change (4 * KB) with 4096. unfold FRAME_SIZE.
      apply wrap32_small. unfold u32, frame. lia. }
    rewrite Hva. change (KB * n) with (1024 * n).
    set (m2 := write_words m1 (frame * FRAME_SIZE) (fun _ => K) 0
                           (Z.to_nat (1024 * n))).
    assert (Hblock : forall a,
              ~ (frame * FRAME_SIZE <= a < (frame + n) * FRAME_SIZE) ->
              m2 a = m1 a).
    { intros a Ha. apply block_outside; unfold frame in *; lia. }
    assert (Hsame21 : same_states p m1 m2).
    { apply (block_write_keeps_states m1 m2 p frame n Hp); [| exact Hblock].
      intros i Hi. unfold frame.
      replace (top + base_frame_no p + i) with (base_frame_no p + (top + i)) by lia.
      apply Hinfo. lia. }
    replace (wrap32 (K - 1)) with (Z.of_nat k)
      by (rewrite wrap32_small; unfold u32, K; lia).
    destruct (IH fuel (with_mem st1 m2) (top + n) ltac:(lia))
      as (st2 & Hrec & Hh2 & Hp2 & Hsame2 & Hout2).
    + apply registry_ok_with_mem.
      apply (registry_ok_shape st); assumption.
    + cbn [pools with_mem]. rewrite Hp1. exact Hd.
    + cbn [pools with_mem]. rewrite Hp1. exact Ht.
    + cbn [mem with_mem]. apply (packed_ext p m1); assumption.
    + apply (info_below_mono p top); [lia | exact Hinfo].
    + lia.
    + rewrite Hrec. cbn [bind]. cbn [mem with_mem] in Hsame2, Hout2.
      cbn [head pools with_mem] in Hh2, Hp2.
      rewrite first_mismatch_None.
      * assert (Hreg2 : registry_ok st2).
        { apply (registry_ok_shape st); [congruence | congruence | exact Hreg]. }
        replace frame with (top + base_frame_no p) by reflexivity.
        rewrite (release_frames_at st2 t p top Hreg2) by
          (try lia; try congruence; rewrite Hp2, Hp1; assumption).
        destruct (release_run_packed st2 p top n Hp ltac:(lia) ltac:(lia))
          as (m3 & Hrel & Hpk3 & Hwithin3 & Hlow3).
        -- apply (packed_ext p m2); [exact Hsame2 |].
           apply (packed_ext p m1); assumption.
        -- rewrite Hsame2, Hsame21 by lia. exact Hhead.
        -- intros j Hj. rewrite Hsame2, Hsame21 by lia. apply Hused. exact Hj.
        -- rewrite Hrel. cbn [bind]. eexists. split; [reflexivity |].
           cbn [head pools mem with_mem].
           split; [congruence |]. split; [congruence |]. split.
           ++ intros j Hj. destruct (Z.lt_ge_cases j top) as [Hlo | Hhi].
              ** rewrite Hlow3, Hsame2, Hsame21 by lia. unfold m1.
                 rewrite mark_inaccessible_states by (try assumption; lia).
                 zcases; try reflexivity; lia.
              ** destruct Hpk3 as (_ & _ & Hfree3). destruct Hpk as (_ & _ & Hfree).
                 rewrite Hfree3, Hfree by lia. reflexivity.
           ++ intros a Ha Hinfo_a. rewrite Hwithin3 by exact Hinfo_a.
              rewrite Hout2 by
                (try exact Hinfo_a; unfold above in *; unfold FRAME_SIZE in *; lia).
              rewrite Hblock by
                (unfold above, frame in *; unfold FRAME_SIZE in *; lia).
              unfold m1.
              rewrite mark_inaccessible_within by (try assumption; lia).
              reflexivity.
      * intros j Hj. apply Z.eqb_eq.
        rewrite (load32_ext m2).
        -- unfold m2. rewrite block_load; try (unfold frame; lia).
           ++ apply signed32_u32. unfold u32, K. lia.
           ++ unfold u32, K. lia.
        -- intros x Hx.
           assert (Hin : frame * FRAME_SIZE <= x < (frame + n) * FRAME_SIZE).
           { rewrite wrap32_small in Hx by (unfold u32, frame, FRAME_SIZE; lia).
             unfold FRAME_SIZE in *. lia. }
           apply Hout2.
           ++ unfold above, frame in *. unfold FRAME_SIZE in *. lia.
           ++ apply (above_not_info p top); try assumption; [lia |].
              unfold above, frame in *. unfold FRAME_SIZE in *. lia.
Qed.

(** X17. [test_memory] passes on a pool with enough room.  Let the pool
    be packed up to [top], with its bitmap in none of the frames from [top]
    on, in a reachable state whose pools have disjoint ranges, and let the
    pool end at or below frame 2^20.  If the frames that the recursion
    holds at its deepest fit above [top], then [test_memory k] returns
    without reporting a failure, for any [Console::puti] that touches only
    the console; it leaves the registry and the state of every frame of
    the pool as they were, and memory below the frames from [top] on and
    outside the bitmap unchanged. *)
Theorem test_memory_passes (st : State) (t : ptr) (p : Pool) (top k : Z) :
  reachable st -> disjoint_ranges (pools st) -> pools st !! t = Some p ->
  base_frame_no p + nframes p <= 2 ^ 20 ->
  packed (mem st) p top -> info_below p top ->
  0 <= k -> top + frames_wanted (Z.to_nat k) <= nframes p ->
  exists st',
    test_memory Console_puti st t k = Done (Passed st') /\
    head st' = head st /\ pools st' = pools st /\
    same_states p (mem st) (mem st') /\
    (forall a, ~ above p top a -> ~ in_info_frame p a -> mem st' a = mem st a).
Proof.
  intros Hr Hd Ht Hfit Hpk Hinfo Hk Hroom.
  pose proof (reachable_ok st Hr) as Hreg.
  pose proof Hreg as (_ & _ & _ & _ & Hok). pose proof (Hok t p Ht) as Hp.
  assert (E : test_memory Console_puti st t k
              = test_memory_rec Console_puti (S (Z.to_nat k)) st t
                                (Z.of_nat (Z.to_nat k))).
  { unfold test_memory. rewrite Z2Nat.id by exact Hk. reflexivity. }
  rewrite E. apply (test_memory_rec_passes t p Hp Hfit); try assumption. lia.
Qed.

End TestMemory.

Lemma quiet_puti_only : forall n, console_only (fun st => quiet_puti st n).
Proof. intros n st. unfold quiet_puti. auto. Qed.

Lemma small_pool_info_below : info_below small_pool 1.
Proof. intros j Hj. simpl. unfold FRAME_SIZE. lia. Qed.

Lemma test_memory_passes_witness :
  (forall n, console_only (fun st => quiet_puti st n)) /\
  reachable (state_of boot_pool) /\
  disjoint_ranges (pools (state_of boot_pool)) /\
  pools (state_of boot_pool) !! 0%nat = Some small_pool /\
  base_frame_no small_pool + nframes small_pool <= 2 ^ 20 /\
  packed (mem (state_of boot_pool)) small_pool 1 /\
  info_below small_pool 1 /\
  0 <= 2 /\ 1 + frames_wanted (Z.to_nat 2) <= nframes small_pool /\
  exists st',
    test_memory quiet_puti (state_of boot_pool) 0%nat 2 = Done (Passed st') /\
    same_states small_pool (mem (state_of boot_pool)) (mem st').
Proof.
  pose proof quiet_puti_only as Hq.
  pose proof boot_pool_reachable as Hr.
  assert (Hd : disjoint_ranges (pools (state_of boot_pool)))
    by (rewrite boot_pool_store; apply disjoint_ranges_single).
  assert (Hp : pools (state_of boot_pool) !! 0%nat = Some small_pool)
    by (rewrite boot_pool_store; reflexivity).
  assert (Hfit : base_frame_no small_pool + nframes small_pool <= 2 ^ 20)
    by (simpl; lia).
  pose proof boot_pool_packed as Hpk.
  pose proof small_pool_info_below as Hinfo.
  assert (Hk : 0 <= 2) by lia.
  assert (Hroom : 1 + frames_wanted (Z.to_nat 2) <= nframes small_pool)
    by (vm_compute; congruence).
  repeat (split; [assumption |]).
  destruct (test_memory_passes quiet_puti Hq _ 0%nat small_pool 1 2
              Hr Hd Hp Hfit Hpk Hinfo Hk Hroom)
    as (st' & Hrun & _ & _ & Hsame & _).
  exists st'. split; assumption.
Defined.

(** ** [test_max_space] *)

(** [get_frames] returns in every pool that the constructor has built: 0,
    or the first frame of a run inside the pool. *)
Lemma get_frames_returns (m : Mem) (p : Pool) (n : Z) :
  pool_ok p -> base_frame_no p + nframes p <= 2 ^ 32 -> u32 n ->
  exists m' r,
    get_frames m p n = Done (m', r) /\ within p m m' /\
    (r = 0 \/
     (base_frame_no p <= r < base_frame_no p + nframes p /\
      r + n <= base_frame_no p + nframes p)).
Proof.
  intros Hp Hfit Hn. pose proof (pool_ok_nframes p Hp) as Hnf.
  pose proof Hp as (Hbase & _). unfold u32 in Hbase, Hn.
  destruct (Z.eq_dec n 0) as [-> | Hne].
  - exists m, 0. rewrite get_frames_zero by lia.
    split; [reflexivity |]. split; [apply within_refl | left; reflexivity].
  - destruct (get_frames_cases m p n Hnf ltac:(lia))
      as [(s & (Hs0 & Hsn & _) & _ & Hrun) | (_ & Hrun)].
    + exists (mark_inaccessible m p s n), (s + base_frame_no p).
      rewrite Hrun, wrap32_small by (unfold u32; lia).
      split; [reflexivity |].
      split; [apply mark_inaccessible_within; try assumption; lia | right; lia].
    + exists m, 0. split; [exact Hrun |].
      split; [apply within_refl | left; reflexivity].
Qed.

(** The words that the filling loop of [test_max_space] writes are the
    words that its checking loop reads. *)
Lemma max_space_check (m : Mem) (frame n : Z) :
  0 <= frame -> 0 <= n -> frame + n <= 2 ^ 20 ->
  first_mismatch
    (write_words m (frame * FRAME_SIZE) (fun i => Z.of_nat i) 0
                 (Z.to_nat (1024 * n)))
    (frame * FRAME_SIZE) (fun i w => signed32 w =? Z.of_nat i) 0
    (Z.to_nat (1024 * n))
  = None.
Proof.
  intros Hf Hn Hfit. apply first_mismatch_None. intros j Hj.
  apply Z.eqb_eq. rewrite block_load; try assumption; try lia.
  - apply signed32_small. lia.
  - unfold u32. lia.
Qed.

Section TestMaxSpace.

Variable Console_puti : State -> Z -> State.

(** X18. [test_max_space] does not look at the bitmap.  In a reachable
    state, for a pool that ends at or below frame 2^20 and any [max_frames]
    from 1 to 2^20, let [get_frames] hand out a run (a result other than
    0), or let [max_frames] be 1, so that the two loops do not run.  Then
    the test returns without reporting a failure, whatever the bitmap of
    the pool holds, because the checking loop reads back what the filling
    loop has just written; it keeps the registry, and it changes memory
    only in the frames of the pool and in the bitmap frames of the
    pools. *)
Theorem test_max_space_any_bitmap
        (st : State) (t : ptr) (p : Pool) (max_frames : Z) (m1 : Mem) (frame : Z) :
  reachable st -> pools st !! t = Some p ->
  base_frame_no p + nframes p <= 2 ^ 20 -> 1 <= max_frames <= 2 ^ 20 ->
  get_frames (mem st) p (max_frames - 1) = Done (m1, frame) ->
  (frame = 0 -> max_frames = 1) ->
  exists st',
    test_max_space Console_puti st t max_frames = Done (Passed st') /\
    head st' = head st /\ pools st' = pools st /\
    (forall a, ~ above p 0 a ->
       (forall t' q, pools st !! t' = Some q -> ~ in_info_frame q a) ->
       mem st' a = mem st a).
Proof.
  intros Hr Ht Hfit Hmax Hget Hnull.
  pose proof (reachable_ok st Hr) as Hreg.
  pose proof Hreg as (_ & _ & _ & _ & Hok). pose proof (Hok t p Ht) as Hp.
  pose proof (pool_ok_nframes p Hp) as Hnf.
  pose proof Hp as (Hbase & _). unfold u32 in Hbase.
  unfold test_max_space.
  rewrite (wrap32_small (max_frames - 1)) by (unfold u32; lia).
  set (n := max_frames - 1) in *.
  rewrite (deref_Some _ _ _ Ht). cbn [bind].
  destruct (get_frames_returns (mem st) p n Hp ltac:(lia) ltac:(unfold u32, n; lia))
    as (m1' & frame' & Hrun & Hwithin & Hframe).
  rewrite Hget in Hrun. injection Hrun as <- <-.
  rewrite Hget. cbn [bind fst snd mem puts with_mem].
  assert (Hblock : n = 0 \/
            (base_frame_no p <= frame /\ frame + n <= base_frame_no p + nframes p))
    by (unfold n in *; lia).
  assert (Hf : 0 <= frame < 2 ^ 20 /\ frame + n <= 2 ^ 20)
    by (unfold n in *; lia).
  change (KB * n) with (1024 * n). change (4 * KB) with 4096.
  rewrite (wrap32_small (1024 * n)) by (unfold u32, n; lia).
  rewrite (wrap32_small (frame * 4096)) by (unfold u32; lia).
  destruct (Z.leb_spec (2 ^ 31) (1024 * n)) as [Hbig |]; [unfold n in Hbig; lia |].
  change (frame * 4096) with (frame * FRAME_SIZE).
  rewrite max_space_check by (unfold n; lia).
  match goal with
  | |- context [release_frames ?s frame] =>
      destruct (release_frames_confined s frame) as (st3 & Hrel & Hh3 & Hp3 & Hm3)
  end.
  { apply (registry_ok_shape st); [reflexivity | reflexivity | exact Hreg]. }
  rewrite Hrel. cbn [bind]. eexists. split; [reflexivity |].
  cbn [head pools mem puts with_mem] in *. rewrite Hh3, Hp3.
  split; [reflexivity |]. split; [reflexivity |].
  intros a Ha Hinfo. rewrite Hm3 by exact Hinfo.
  rewrite block_outside; try lia.
  - apply Hwithin. exact (Hinfo t p Ht).
  - unfold above, FRAME_SIZE in *. unfold n in *. lia.
Qed.

(** [test_max_space] when the frames it asks for fit above [top]. *)
Lemma test_max_space_ok (st : State) (t : ptr) (p : Pool) (top max_frames : Z) :
  registry_ok st -> disjoint_ranges (pools st) -> pools st !! t = Some p ->
  base_frame_no p + nframes p <= 2 ^ 20 ->
  packed (mem st) p top -> info_below p top ->
  2 <= max_frames -> top + (max_frames - 1) <= nframes p ->
  exists st',
    test_max_space Console_puti st t max_frames = Done (Passed st') /\
    get_frames (mem st) p (max_frames - 1)
    = Done (mark_inaccessible (mem st) p top (max_frames - 1),
            base_frame_no p + top) /\
    head st' = head st /\ pools st' = pools st /\
    same_states p (mem st) (mem st') /\
    packed (mem st') p top /\
    console st' = console st ++ [msg_all_allocated; msg_all_freed] /\
    (forall a, ~ above p top a -> ~ in_info_frame p a -> mem st' a = mem st a).
Proof.
  intros Hreg Hd Ht Hfit Hpk Hinfo Hmax Hroom.
  pose proof Hreg as (_ & _ & _ & _ & Hok). pose proof (Hok t p Ht) as Hp.
  pose proof (pool_ok_nframes p Hp) as Hnf.
  pose proof Hp as (Hbase & _). unfold u32 in Hbase.
  pose proof Hpk as (Htop & _ & Hfree).
  unfold test_max_space.
  rewrite (wrap32_small (max_frames - 1)) by (unfold u32; lia).
  set (n := max_frames - 1) in *.
  rewrite (deref_Some _ _ _ Ht). cbn [bind].
  destruct (get_frames_packed_fits (mem st) p top n Hp Hpk ltac:(lia) ltac:(lia))
    as (Hrun & Hpk1 & Hhead & Hused).
  rewrite (wrap32_small (top + base_frame_no p)) in Hrun by (unfold u32; lia).
  rewrite Hrun. cbn [bind fst snd mem puts with_mem].
  set (m1 := mark_inaccessible (mem st) p top n) in *.
  set (frame := top + base_frame_no p) in *.
  change (KB * n) with (1024 * n). change (4 * KB) with 4096.
  rewrite (wrap32_small (1024 * n)) by (unfold u32; lia).
  rewrite (wrap32_small (frame * 4096)) by (unfold u32, frame; lia).
  destruct (Z.leb_spec (2 ^ 31) (1024 * n)) as [Hbig |]; [lia |].
  change (frame * 4096) with (frame * FRAME_SIZE).
  rewrite max_space_check by (unfold frame; lia).
  set (m2 := write_words m1 (frame * FRAME_SIZE) (fun i => Z.of_nat i) 0
                         (Z.to_nat (1024 * n))).
  assert (Hblock : forall a,
            ~ (frame * FRAME_SIZE <= a < (frame + n) * FRAME_SIZE) ->
            m2 a = m1 a).
  { intros a Ha. apply block_outside; unfold frame in *; lia. }
  assert (Hsame21 : same_states p m1 m2).
  { apply (block_write_keeps_states m1 m2 p frame n Hp); [| exact Hblock].
    intros i Hi. unfold frame.
    replace (top + base_frame_no p + i) with (base_frame_no p + (top + i)) by lia.
    apply Hinfo. lia. }
  set (st2 := with_mem (puts (with_mem st m1) msg_all_allocated) m2).
  assert (Hreg2 : registry_ok st2).
  { apply (registry_ok_shape st); [reflexivity | reflexivity | exact Hreg]. }
  change (release_frames st2 frame)
    with (release_frames st2 (top + base_frame_no p)).
  rewrite (release_frames_at st2 t p top Hreg2) by (try assumption; lia).
  destruct (release_run_packed st2 p top n Hp ltac:(lia) ltac:(lia))
    as (m3 & Hrel & Hpk3 & Hwithin3 & Hlow3).
  { apply (packed_ext p m1); assumption. }
  { cbn [mem st2 with_mem]. rewrite Hsame21 by lia. exact Hhead. }
  { intros j Hj. cbn [mem st2 with_mem]. rewrite Hsame21 by lia.
    apply Hused. exact Hj. }
  rewrite Hrel. cbn [bind]. eexists. split; [reflexivity |].
  cbn [head pools mem console puts with_mem st2].
  split; [unfold frame; f_equal; f_equal; lia |].
  split; [reflexivity |]. split; [reflexivity |].
  cbn [mem st2 with_mem] in Hlow3, Hwithin3.
  split; [| split; [exact Hpk3 | split]].
  - intros j Hj. destruct (Z.lt_ge_cases j top) as [Hlo | Hhi].
    + rewrite Hlow3, Hsame21 by lia. unfold m1.
      rewrite mark_inaccessible_states by (try assumption; lia).
      zcases; try reflexivity; lia.
    + destruct Hpk3 as (_ & _ & Hfree3).
      rewrite Hfree3, Hfree by lia. reflexivity.
  - rewrite <- app_assoc. reflexivity.
  - intros a Ha Hinfo_a. rewrite Hwithin3 by exact Hinfo_a.
    rewrite Hblock by (unfold above, frame in *; unfold FRAME_SIZE in *; lia).
    unfold m1. apply mark_inaccessible_within; try assumption; lia.
Qed.

(** X19. [test_max_space] on a pool with room.  Let the pool be packed up
    to [top], with its bitmap in none of the frames from [top] on, in a
    reachable state whose pools have disjoint ranges, and let it end at or
    below frame 2^20.  If [max_frames - 1 >= 1] frames fit above [top],
    the test obtains them, passes, prints its two lines and nothing else,
    and leaves the registry and the state of every frame of the pool as
    they were. *)
Theorem test_max_space_restores (st : State) (t : ptr) (p : Pool) (top max_frames : Z) :
  reachable st -> disjoint_ranges (pools st) -> pools st !! t = Some p ->
  base_frame_no p + nframes p <= 2 ^ 20 ->
  packed (mem st) p top -> info_below p top ->
  2 <= max_frames -> top + (max_frames - 1) <= nframes p ->
  exists st',
    test_max_space Console_puti st t max_frames = Done (Passed st') /\
    get_frames (mem st) p (max_frames - 1)
    = Done (mark_inaccessible (mem st) p top (max_frames - 1),
            base_frame_no p + top) /\
    head st' = head st /\ pools st' = pools st /\
    same_states p (mem st) (mem st') /\
    packed (mem st') p top /\
    console st' = console st ++ [msg_all_allocated; msg_all_freed] /\
    (forall a, ~ above p top a -> ~ in_info_frame p a -> mem st' a = mem st a).
Proof.
  intros Hr. apply test_max_space_ok. exact (reachable_ok st Hr).
Qed.

End TestMaxSpace.

(** ** [test_multiple_allocations_and_contiguous_mem] *)

Lemma wrap32_add_l (a b : Z) : wrap32 (wrap32 a + b) = wrap32 (a + b).
Proof. unfold wrap32. apply Z.add_mod_idemp_l. lia. Qed.

Section TestMultiple.

Variable Console_puti : State -> Z -> State.
Hypothesis puti_quiet : forall n, console_only (fun st => Console_puti st n).

Lemma test_multiple_rec_passes (t : ptr) (p : Pool) :
  pool_ok p -> base_frame_no p + nframes p <= 2 ^ 20 ->
  forall (fuel : nat) (st : State) (top rem start : Z),
    0 <= rem < Z.of_nat fuel -> pools st !! t = Some p ->
    packed (mem st) p top -> info_below p top ->
    top + rem <= nframes p -> u32 start ->
    exists st',
      test_multiple_rec Console_puti fuel st t rem start
      = Done (Passed (st', wrap32 (start + 1024 * rem))) /\
      head st' = head st /\ pools st' = pools st /\
      packed (mem st') p (top + rem) /\
      (forall j, 0 <= j < top -> get_state (mem st') p j = get_state (mem st) p j) /\
      (forall i, 0 <= i < 1024 * rem ->
         load32 (mem st') ((base_frame_no p + top) * FRAME_SIZE + 4 * i)
         = wrap32 (start + i)) /\
      (forall a, ~ above p top a -> ~ in_info_frame p a -> mem st' a = mem st a).
Proof.
  intros Hp Hfit. pose proof (pool_ok_nframes p Hp) as Hnf.
  pose proof Hp as (Hbase & _). unfold u32 in Hbase.
  induction fuel as [| fuel IH]; intros st top rem start Hrem Ht Hpk Hinfo Hroom Hstart;
    [lia |].
  cbn [test_multiple_rec].
  destruct (announce_quiet Console_puti st rem puti_quiet) as (Hh1 & Hp1 & Hm1).
  set (st1 := puts (Console_puti (puts st msg_alloc_to_go) rem) newline) in *.
  pose proof Hpk as (Htop & _).
  destruct (Z.eqb_spec rem 0) as [-> | Hne].
  - eexists. split.
    + rewrite Z.mul_0_r, Z.add_0_r, wrap32_small by exact Hstart. reflexivity.
    + split; [exact Hh1 |]. split; [exact Hp1 |]. rewrite Hm1, Z.add_0_r.
      split; [exact Hpk |]. split; [reflexivity |].
      split; [intros i Hi; lia | reflexivity].
  - set (n := if rem <? 10 then rem else 10).
    assert (Hn : 1 <= n <= 10 /\ n <= rem)
      by (unfold n; destruct (Z.ltb_spec rem 10); lia).
    rewrite Hp1, (deref_Some _ _ _ Ht). cbn [bind]. rewrite Hm1.
    destruct (get_frames_packed_fits (mem st) p top n Hp Hpk ltac:(lia) ltac:(lia))
      as (Hrun & Hpk1 & _ & _).
    rewrite Hrun. cbn [bind fst snd].
    set (m1 := mark_inaccessible (mem st) p top n) in *.
    rewrite (wrap32_small (top + base_frame_no p)) by (unfold u32; lia).
    set (frame := top + base_frame_no p).
    assert (Hva : wrap32 (frame * (4 * KB)) = frame * FRAME_SIZE).
    { change (4 * KB) with 4096. unfold FRAME_SIZE.
      apply wrap32_small. unfold u32, frame. lia. }
    rewrite Hva. change (KB * n) with (1024 * n).
    rewrite (wrap32_small (1024 * n)) by (unfold u32; lia).
    rewrite (wrap32_small (rem - n)) by (unfold u32; lia).
    rewrite Z2Nat.id by lia.
    set (m2 := write_words m1 (frame * FRAME_SIZE)
                           (fun j => wrap32 (start + Z.of_nat j)) 0
                           (Z.to_nat (1024 * n))).
    assert (Hblock : forall a,
              ~ (frame * FRAME_SIZE <= a < (frame + n) * FRAME_SIZE) ->
              m2 a = m1 a).
    { intros a Ha. apply block_outside; unfold frame in *; lia. }
    assert (Hsame21 : same_states p m1 m2).
    { apply (block_write_keeps_states m1 m2 p frame n Hp); [| exact Hblock].
      intros i Hi. unfold frame.
      replace (top + base_frame_no p + i) with (base_frame_no p + (top + i)) by lia.
      apply Hinfo. lia. }
    destruct (IH (with_mem st1 m2) (top + n) (rem - n) (wrap32 (start + 1024 * n))
                 ltac:(lia))
      as (st2 & Hrec & Hh2 & Hp2 & Hpk2 & Hlow2 & Hseq2 & Hout2).
    + cbn [pools with_mem]. rewrite Hp1. exact Ht.
    + cbn [mem with_mem]. apply (packed_ext p m1); assumption.
    + apply (info_below_mono p top); [lia | exact Hinfo].
    + lia.
    + apply wrap32_u32.
    + rewrite Hrec. cbn [bind]. cbn [mem with_mem] in Hlow2, Hout2.
      cbn [head pools with_mem] in Hh2, Hp2.
      assert (Hmine : forall j, (j < Z.to_nat (1024 * n))%nat ->
                load32 (mem st2) (wrap32 (frame * FRAME_SIZE + 4 * Z.of_nat j))
                = wrap32 (start + Z.of_nat j)).
      { intros j Hj. rewrite (load32_ext m2).
        - unfold m2. rewrite block_load; try (unfold frame; lia);
            try reflexivity; apply wrap32_u32.
        - intros x Hx.
          assert (Hin : frame * FRAME_SIZE <= x < (frame + n) * FRAME_SIZE).
          { rewrite wrap32_small in Hx by (unfold u32, frame, FRAME_SIZE; lia).
            unfold FRAME_SIZE in *. lia. }
          apply Hout2.
          + unfold above, frame in *. unfold FRAME_SIZE in *. lia.
          + apply (above_not_info p top); try assumption; [lia |].
            unfold above, frame in *. unfold FRAME_SIZE in *. lia. }
      rewrite first_mismatch_None
        by (intros j Hj; apply Z.eqb_eq, Hmine; lia).
      eexists. split.
      * do 3 f_equal. rewrite wrap32_add_l. f_equal. lia.
      * split; [congruence |]. split; [congruence |].
        split; [replace (top + rem) with (top + n + (rem - n)) by lia; exact Hpk2 |].
        split; [| split].
        -- intros j Hj. rewrite Hlow2, Hsame21 by lia. unfold m1.
           rewrite mark_inaccessible_states by (try assumption; lia).
           zcases; try reflexivity; lia.
        -- intros i Hi. destruct (Z.lt_ge_cases i (1024 * n)) as [Hlo | Hhi].
           ++ specialize (Hmine (Z.to_nat i) ltac:(lia)).
              rewrite Z2Nat.id in Hmine by lia.
              rewrite wrap32_small in Hmine
                by (unfold u32, frame, FRAME_SIZE; lia).
              rewrite <- Hmine. f_equal. unfold frame. lia.
           ++ specialize (Hseq2 (i - 1024 * n) ltac:(lia)).
              rewrite wrap32_add_l in Hseq2.
              replace (start + 1024 * n + (i - 1024 * n)) with (start + i)
                in Hseq2 by lia.
              rewrite <- Hseq2. f_equal. unfold FRAME_SIZE. lia.
        -- intros a Ha Hinfo_a.
           rewrite Hout2 by
             (try exact Hinfo_a; unfold above in *; unfold FRAME_SIZE in *; lia).
           rewrite Hblock by
             (unfold above, frame in *; unfold FRAME_SIZE in *; lia).
           unfold m1. apply mark_inaccessible_within; try assumption; lia.
Qed.

(** X20. [test_multiple_allocations_and_contiguous_mem] fills a packed pool
    with one ascending sequence.  Let the pool of a reachable state be
    packed up to [top], with its bitmap in none of the frames from [top]
    on, and let it end at or below frame 2^20.  If [rem_frames] frames fit
    above [top], the test returns without reporting a failure, for any
    [Console::puti] that touches only the console; it leaves the first
    [top + rem_frames] frames of the pool allocated, having released
    nothing; word [i] of the memory from frame [top] on holds [start + i]
    for all [1024 * rem_frames] words; and [start] has moved up by that
    number. *)
Theorem test_multiple_passes (st : State) (t : ptr) (p : Pool) (top rem start : Z) :
  reachable st -> pools st !! t = Some p ->
  base_frame_no p + nframes p <= 2 ^ 20 ->
  packed (mem st) p top -> info_below p top ->
  0 <= rem -> top + rem <= nframes p -> u32 start ->
  exists st',
    test_multiple_allocations_and_contiguous_mem Console_puti st t rem start
    = Done (Passed (st', wrap32 (start + 1024 * rem))) /\
    head st' = head st /\ pools st' = pools st /\
    packed (mem st') p (top + rem) /\
    (forall j, 0 <= j < top -> get_state (mem st') p j = get_state (mem st) p j) /\
    (forall i, 0 <= i < 1024 * rem ->
       load32 (mem st') ((base_frame_no p + top) * FRAME_SIZE + 4 * i)
       = wrap32 (start + i)) /\
    (forall a, ~ above p top a -> ~ in_info_frame p a -> mem st' a = mem st a).
Proof.
  intros Hr Ht Hfit Hpk Hinfo Hrem Hroom Hstart.
  pose proof (reachable_ok st Hr) as (_ & _ & _ & _ & Hok).
  pose proof (Hok t p Ht) as Hp.
  unfold test_multiple_allocations_and_contiguous_mem.
  apply (test_multiple_rec_passes t p Hp Hfit); try assumption. lia.
Qed.

End TestMultiple.

(** ** [main] *)

Lemma single_pool (ps : list Pool) (p : Pool) :
  length ps = 1%nat -> ps !! 0%nat = Some p -> ps = [p].
Proof.
  destruct ps as [| x [| y l]]; simpl; intros Hlen Hx; try discriminate.
  injection Hx as ->. reflexivity.
Qed.

Section Main.

Variable Console_init : State -> State.
Variable Console_redirect_output : State -> bool -> State.
Variable Console_puti : State -> Z -> State.

Hypothesis init_quiet : console_only Console_init.
Hypothesis redirect_quiet :
  forall b, console_only (fun st => Console_redirect_output st b).
Hypothesis puti_quiet : forall n, console_only (fun st => Console_puti st n).

(** X21. The kernel passes its self test.  From the boot state, whatever
    memory holds and for any console whose [init], [redirect_output] and
    [puti] touch only the console, [main] constructs the kernel pool of
    512 frames at frame 512, runs its four tests without a failed
    assertion and without reporting a memory error, and enters its idle
    loop.  At that point the pool is the only one in the registry, every
    one of its frames is allocated, and the 511 frames that the last test
    obtained hold the words 0, 1, 2, ... in ascending order. *)
Theorem main_passes (m : Mem) :
  exists st' p,
    main Console_init Console_redirect_output Console_puti (initial_state m)
    = Done (Passed st') /\
    pools st' = [p] /\ head st' = Some 0%nat /\
    base_frame_no p = 512 /\ nframes p = 512 /\ info_frame_no p = 0 /\
    get_state (mem st') p 0 = HoS /\
    (forall j, 0 <= j < 512 -> get_state (mem st') p j <> Free) /\
    (forall i, 0 <= i < 1024 * 511 ->
       load32 (mem st') (513 * FRAME_SIZE + 4 * i) = i).
Proof.
  unfold main.
  set (st0 := Console_redirect_output (Console_init (initial_state m)) true).
  assert (Hst0 : head st0 = None /\ pools st0 = [] /\ mem st0 = m).
  { destruct (redirect_quiet true (Console_init (initial_state m)))
      as (Hh & Hp & Hm).
    destruct (init_quiet (initial_state m)) as (Hh' & Hp' & Hm').
    unfold st0. rewrite Hh, Hp, Hm, Hh', Hp', Hm'. auto. }
  destruct Hst0 as (Hh0 & Hp0 & Hm0).
  assert (Hreg0 : registry_ok st0).
  { apply (registry_ok_shape (initial_state m)); [exact Hh0 | exact Hp0 |].
    apply registry_ok_boot. }
  change KERNEL_POOL_START_FRAME with 512. change KERNEL_POOL_SIZE with 512.
  destruct (ContFramePool_fresh st0 512 512 0 Hreg0
              ltac:(unfold u32; lia) ltac:(lia))
    as (st1 & p & Hctor & Hreg1 & Hlen1 & Hself & Hp & Hbase & Hnf & Hinfo_no
        & Hbm & _ & Hstates1 & _ & _ & _).
  rewrite Hctor. cbn [bind]. rewrite Hp0 in Hlen1, Hself |- *.
  cbn [length] in Hlen1, Hself |- *.
  pose proof (single_pool _ _ Hlen1 Hself) as Hps1.
  assert (Hfit : base_frame_no p + nframes p <= 2 ^ 20) by (rewrite Hbase, Hnf; lia).
  assert (Hinfo : info_below p 1).
  { intros j Hj. rewrite Hbm, Hbase. unfold bitmap_addr, FRAME_SIZE. simpl.
    rewrite wrap32_small by (unfold u32; lia). lia. }
  assert (Hpk1 : packed (mem st1) p 1).
  { unfold packed. rewrite Hnf. split; [lia |]. split.
    - intros j Hj. rewrite Hstates1 by lia. assert (j = 0) as -> by lia.
      discriminate.
    - intros j Hj. rewrite Hstates1 by lia.
      destruct (Z.eqb_spec j 0); [lia | reflexivity]. }
  assert (Hhead1 : head st1 = Some 0%nat).
  { destruct Hreg1 as (l & (_ & Hhd & Hl) & Hlen & _).
    rewrite Hhd. rewrite Hps1 in Hlen, Hl. simpl in Hlen.
    destruct l as [| x [| y l]]; try discriminate. simpl.
    destruct (Hl 0%nat x eq_refl) as (q & Hq & _).
    destruct x as [| x]; [reflexivity | discriminate]. }
  (* test_memory *)
  set (st1' := puts st1 msg_hello).
  assert (Hreg1' : registry_ok st1').
  { apply (registry_ok_shape st1); [reflexivity | reflexivity | exact Hreg1]. }
  unfold test_memory. change N_TEST_ALLOCATIONS with (Z.of_nat 32).
  destruct (test_memory_rec_passes Console_puti puti_quiet 0%nat p Hp Hfit
              32%nat (S (Z.to_nat (Z.of_nat 32))) st1' 1 ltac:(lia) Hreg1')
    as (st2 & Hrun2 & Hh2 & Hp2 & Hsame2 & _).
  { cbn [pools st1' puts]. rewrite Hps1. apply disjoint_ranges_single. }
  { exact Hself. }
  { exact Hpk1. }
  { exact Hinfo. }
  { rewrite Hnf. vm_compute. congruence. }
  rewrite Hrun2. unfold and_then at 1. cbn [bind].
  cbn [head pools mem st1' puts] in Hh2, Hp2, Hsame2.
  (* test_max_space *)
  assert (Hreg2 : registry_ok st2).
  { apply (registry_ok_shape st1); [exact Hh2 | exact Hp2 | exact Hreg1]. }
  destruct (test_max_space_ok Console_puti st2 0%nat p 1 512 Hreg2)
    as (st3 & Hrun3 & _ & Hh3 & Hp3 & Hsame3 & Hpk3 & _).
  { rewrite Hp2, Hps1. apply disjoint_ranges_single. }
  { rewrite Hp2. exact Hself. }
  { exact Hfit. }
  { apply (packed_ext p (mem st1)); assumption. }
  { exact Hinfo. }
  { lia. }
  { rewrite Hnf. lia. }
  rewrite Hrun3. unfold and_then at 1. cbn [bind].
  (* test_multiple_allocations_and_contiguous_mem *)
  unfold test_multiple_allocations_and_contiguous_mem.
  destruct (test_multiple_rec_passes Console_puti puti_quiet 0%nat p Hp Hfit
              (S (Z.to_nat 511)) st3 1 511 0 ltac:(lia))
    as (st4 & Hrun4 & Hh4 & Hp4 & Hpk4 & Hlow4 & Hseq4 & _).
  { rewrite Hp3, Hp2. exact Hself. }
  { exact Hpk3. }
  { exact Hinfo. }
  { rewrite Hnf. lia. }
  { unfold u32. lia. }
  rewrite Hrun4. unfold and_then. cbn [bind fst].
  (* test_needed_info_frames *)
  unfold test_needed_info_frames, assert.
  change (needed_info_frames 512 =? 1) with true. cbn [bind].
  eexists _, p. split; [reflexivity |].
  cbn [head pools mem puts].
  split; [congruence |]. split; [congruence |].
  split; [exact Hbase |]. split; [exact Hnf |]. split; [exact Hinfo_no |].
  split; [| split].
  - rewrite Hlow4, Hsame3, Hsame2, Hstates1 by lia. reflexivity.
  - intros j Hj. destruct Hpk4 as (_ & Hbusy & _). apply Hbusy. lia.
  - intros i Hi. specialize (Hseq4 i Hi). rewrite Hbase in Hseq4.
    rewrite wrap32_small in Hseq4 by (unfold u32; lia). exact Hseq4.
Qed.

End Main.

(** ** The tests on the pool of eight frames, with a silent console *)

Lemma quiet_init_only : console_only quiet_init.
Proof. intros st. unfold quiet_init. auto. Qed.

Lemma quiet_redirect_output_only :
  forall b, console_only (fun st => quiet_redirect_output st b).
Proof. intros b st. unfold quiet_redirect_output. auto. Qed.

Lemma test_max_space_any_bitmap_witness :
  reachable (state_of boot_pool) /\
  pools (state_of boot_pool) !! 0%nat = Some small_pool /\
  base_frame_no small_pool + nframes small_pool <= 2 ^ 20 /\
  1 <= 4 <= 2 ^ 20 /\
  get_frames (mem (state_of boot_pool)) small_pool (4 - 1)
  = Done (memory_of (get_frames (mem (state_of boot_pool)) small_pool 3), 513) /\
  (513 = 0 -> 4 = 1) /\
  exists st',
    test_max_space quiet_puti (state_of boot_pool) 0%nat 4 = Done (Passed st').
Proof.
  pose proof boot_pool_reachable as Hr.
  assert (Hp : pools (state_of boot_pool) !! 0%nat = Some small_pool)
    by (rewrite boot_pool_store; reflexivity).
  assert (Hfit : base_frame_no small_pool + nframes small_pool <= 2 ^ 20)
    by (simpl; lia).
  assert (Hmax : 1 <= 4 <= 2 ^ 20) by lia.
  assert (Hget : get_frames (mem (state_of boot_pool)) small_pool (4 - 1)
                 = Done (memory_of (get_frames (mem (state_of boot_pool))
                                               small_pool 3), 513))
    by (vm_compute; reflexivity).
  assert (Hnull : 513 = 0 -> 4 = 1) by lia.
  repeat (split; [assumption |]).
  destruct (test_max_space_any_bitmap quiet_puti _ 0%nat small_pool 4 _ 513
              Hr Hp Hfit Hmax Hget Hnull) as (st' & Hrun & _).
  exists st'. exact Hrun.
Defined.

Lemma test_max_space_restores_witness :
  reachable (state_of boot_pool) /\
  disjoint_ranges (pools (state_of boot_pool)) /\
  pools (state_of boot_pool) !! 0%nat = Some small_pool /\
  base_frame_no small_pool + nframes small_pool <= 2 ^ 20 /\
  packed (mem (state_of boot_pool)) small_pool 1 /\
  info_below small_pool 1 /\
  2 <= 8 /\ 1 + (8 - 1) <= nframes small_pool /\
  exists st',
    test_max_space quiet_puti (state_of boot_pool) 0%nat 8 = Done (Passed st') /\
    same_states small_pool (mem (state_of boot_pool)) (mem st').
Proof.
  pose proof boot_pool_reachable as Hr.
  assert (Hd : disjoint_ranges (pools (state_of boot_pool)))
    by (rewrite boot_pool_store; apply disjoint_ranges_single).
  assert (Hp : pools (state_of boot_pool) !! 0%nat = Some small_pool)
    by (rewrite boot_pool_store; reflexivity).
  assert (Hfit : base_frame_no small_pool + nframes small_pool <= 2 ^ 20)
    by (simpl; lia).
  pose proof boot_pool_packed as Hpk.
  pose proof small_pool_info_below as Hinfo.
  assert (Hmax : 2 <= 8) by lia.
  assert (Hroom : 1 + (8 - 1) <= nframes small_pool) by (simpl; lia).
  repeat (split; [assumption |]).
  destruct (test_max_space_restores quiet_puti _ 0%nat small_pool 1 8
              Hr Hd Hp Hfit Hpk Hinfo Hmax Hroom)
    as (st' & Hrun & _ & _ & _ & Hsame & _).
  exists st'. split; assumption.
Defined.

Lemma test_multiple_passes_witness :
  (forall n, console_only (fun st => quiet_puti st n)) /\
  reachable (state_of boot_pool) /\
  pools (state_of boot_pool) !! 0%nat = Some small_pool /\
  base_frame_no small_pool + nframes small_pool <= 2 ^ 20 /\
  packed (mem (state_of boot_pool)) small_pool 1 /\
  info_below small_pool 1 /\
  0 <= 7 /\ 1 + 7 <= nframes small_pool /\ u32 0 /\
  exists st',
    test_multiple_allocations_and_contiguous_mem
      quiet_puti (state_of boot_pool) 0%nat 7 0
    = Done (Passed (st', wrap32 (0 + 1024 * 7))) /\
    packed (mem st') small_pool (1 + 7).
Proof.
  pose proof quiet_puti_only as Hq.
  pose proof boot_pool_reachable as Hr.
  assert (Hp : pools (state_of boot_pool) !! 0%nat = Some small_pool)
    by (rewrite boot_pool_store; reflexivity).
  assert (Hfit : base_frame_no small_pool + nframes small_pool <= 2 ^ 20)
    by (simpl; lia).
  pose proof boot_pool_packed as Hpk.
  pose proof small_pool_info_below as Hinfo.
  assert (Hrem : 0 <= 7) by lia.
  assert (Hroom : 1 + 7 <= nframes small_pool) by (simpl; lia).
  assert (Hstart : u32 0) by (unfold u32; lia).
  repeat (split; [assumption |]).
  destruct (test_multiple_passes quiet_puti Hq _ 0%nat small_pool 1 7 0
              Hr Hp Hfit Hpk Hinfo Hrem Hroom Hstart)
    as (st' & Hrun & _ & _ & Hpk' & _).
  exists st'. split; assumption.
Defined.

Lemma main_passes_witness :
  console_only quiet_init /\
  (forall b, console_only (fun st => quiet_redirect_output st b)) /\
  (forall n, console_only (fun st => quiet_puti st n)) /\
  exists st' p,
    main quiet_init quiet_redirect_output quiet_puti (initial_state zero_mem)
    = Done (Passed st') /\
    pools st' = [p] /\
    (forall j, 0 <= j < 512 -> get_state (mem st') p j <> Free).
Proof.
  pose proof quiet_init_only as Hi.
  pose proof quiet_redirect_output_only as Hro.
  pose proof quiet_puti_only as Hq.
  repeat (split; [assumption |]).
  destruct (main_passes quiet_init quiet_redirect_output quiet_puti
                        Hi Hro Hq zero_mem)
    as (st' & p & Hrun & Hps & _ & _ & _ & _ & _ & Hbusy & _).
  exists st', p. repeat (split; [assumption |]). exact Hbusy.
Defined.
